(** * Bounded caches and edit history of the manga translation tool

  A shallow embedding of the cache engine ([CacheService] and its image
  specialisation), of the provider chain of [TranslationService] and of the
  undo/redo part of the zustand store [useAppStore], followed by the
  properties established (or refuted) about them.

  Conventions of the embedding:
  - a JavaScript [Map] is an association list in insertion order, with
    unique keys; [Map.prototype.set] on a key already present keeps its
    position, on a new key appends;
  - [Date.now()] is an integer number of milliseconds, passed explicitly to
    every operation, once per read of the clock in the source;
  - byte sizes are exact rationals in [Cache].  The numbers of the source
    are IEEE doubles; the sizes the code itself produces are integers
    ([estimateSize]) or multiples of a quarter ([estimateImageSize]), and
    on whole numbers of quarter-bytes up to 2^51 bytes the sums, differences
    and comparisons of doubles are exact.  What depends on the arithmetic
    is stated for such sizes only ([Cache.exact_size]); [Cache64] is the
    same engine over binary64 numbers, to evaluate it on other sizes;
  - the confidence of a translation is a binary64 number and
    [calculateConfidence] computes on binary64;
  - a loop that may run forever takes a fuel argument and answers [None]
    when the fuel runs out;
  - an [async] method runs without other calls interleaved between its
    [await] and the rest of its body; the awaited external operation is a
    function that answers how the promise settles. *)

From Stdlib Require Import ZArith QArith Qminmax List String Ascii Bool Lia Lqa.
From Stdlib Require PrimFloat Uint63.
Import ListNotations.

Set Implicit Arguments.

#[local] Open Scope string_scope.
#[local] Open Scope Z_scope.

(** ** JavaScript [Map<string, V>] *)

Module JsMap.
Section Ops.
Variable V : Type.

Definition t : Type := list (string * V).

Definition empty : t := [].

Fixpoint get (k : string) (m : t) : option V :=
  match m with
  | [] => None
  | (k', v) :: rest => if String.eqb k k' then Some v else get k rest
  end.

Definition has (k : string) (m : t) : bool :=
  match get k m with Some _ => true | None => false end.

Definition delete (k : string) (m : t) : t :=
  filter (fun kv => negb (String.eqb k (fst kv))) m.

(** [set] overwrites in place when the key is present and appends
    otherwise, which is the iteration order of a JavaScript [Map]. *)
Fixpoint set (k : string) (v : V) (m : t) : t :=
  match m with
  | [] => [(k, v)]
  | (k', v') :: rest =>
      if String.eqb k k' then (k', v) :: rest else (k', v') :: set k v rest
  end.

Definition size (m : t) : Z := Z.of_nat (List.length m).

Definition keys (m : t) : list string := List.map fst m.

Definition wf (m : t) : Prop := NoDup (keys m).
End Ops.
End JsMap.

(** ** The cache engine: [class CacheService<T>] *)

Module Cache.
Section Engine.
(** The cached payload and [JSON.stringify] on it; [None] stands for a
    serialisation that throws or yields [undefined]. *)
Variable T : Type.
Variable JSON_stringify : T -> option string.

Record CacheEntry : Type := mkEntry {
  data : T;
  timestamp : Z;
  size : Q;
  expires : Z
}.

Record CacheOptions : Type := mkOptions {
  maxSize : Q;
  defaultTTL : Z;
  cleanupInterval : Z
}.

(** [Partial<CacheOptions>], the constructor's argument. *)
Record PartialCacheOptions : Type := mkPartial {
  p_maxSize : option Q;
  p_defaultTTL : option Z;
  p_cleanupInterval : option Z
}.

(** The interval timer is a browser resource and is left out of the state;
    its callback is [cleanup] below. *)
Record CacheService : Type := mkCache {
  cache : JsMap.t CacheEntry;
  currentSize : Q;
  options : CacheOptions
}.

Definition orElse {A} (o : option A) (d : A) : A :=
  match o with Some a => a | None => d end.

Definition new_CacheService (o : PartialCacheOptions) : CacheService :=
  {| cache := JsMap.empty CacheEntry;
     currentSize := 0%Q;
     options :=
       {| maxSize := orElse (p_maxSize o) (inject_Z (100 * 1024 * 1024));
          defaultTTL := orElse (p_defaultTTL o) (24 * 60 * 60 * 1000);
          cleanupInterval := orElse (p_cleanupInterval o) (5 * 60 * 1000) |} |}.

Definition with_cache (st : CacheService) (m : JsMap.t CacheEntry) (sz : Q)
  : CacheService :=
  {| cache := m; currentSize := sz; options := options st |}.

Definition estimateSize (d : T) : Q :=
  match JSON_stringify d with
  | Some jsonString => inject_Z (Z.of_nat (String.length jsonString) * 2)
  | None => inject_Z 1024
  end.

Definition delete (key : string) (st : CacheService) : bool * CacheService :=
  match JsMap.get key (cache st) with
  | Some entry =>
      (true, with_cache st (JsMap.delete key (cache st))
                        (currentSize st - size entry)%Q)
  | None => (false, st)
  end.

Definition clear (st : CacheService) : CacheService :=
  with_cache st (JsMap.empty CacheEntry) 0%Q.

Definition size_ (st : CacheService) : Z := JsMap.size (cache st).

Definition sizeInBytes (st : CacheService) : Q := currentSize st.

Definition keys (st : CacheService) : list string := JsMap.keys (cache st).

(** The scan of [evictLeastRecentlyUsed]: the accumulator is
    [(oldestKey, oldestTimestamp)], [None] standing for [null] and for
    [Infinity]. *)
Definition scan_step (acc : option string * option Z)
           (kv : string * CacheEntry) : option string * option Z :=
  let '(key, entry) := kv in
  match snd acc with
  | None => (Some key, Some (timestamp entry))
  | Some oldestTimestamp =>
      if timestamp entry <? oldestTimestamp
      then (Some key, Some (timestamp entry))
      else acc
  end.

Definition scan_oldest (m : JsMap.t CacheEntry) : option string * option Z :=
  fold_left scan_step m (None, None).

Definition oldestKey (m : JsMap.t CacheEntry) : option string :=
  fst (scan_oldest m).

(** [if (oldestKey)] is a truthiness test: [null] and the empty string
    both fail it. *)
Definition truthy_key (k : option string) : bool :=
  match k with
  | Some s => negb (String.eqb s "")
  | None => false
  end.

Definition evictLeastRecentlyUsed (st : CacheService) : CacheService :=
  match oldestKey (cache st) with
  | Some k => if truthy_key (Some k) then snd (delete k st) else st
  | None => st
  end.

Definition Qgtb (a b : Q) : bool := negb (Qle_bool a b).

(** The guard of the [while] loop of [set]. *)
Definition must_evict (entrySize : Q) (st : CacheService) : bool :=
  Qgtb (currentSize st + entrySize) (maxSize (options st))
  && (size_ st >? 0).

Fixpoint evict_loop (fuel : nat) (entrySize : Q) (st : CacheService)
  : option CacheService :=
  if must_evict entrySize st then
    match fuel with
    | O => None
    | S fuel' => evict_loop fuel' entrySize (evictLeastRecentlyUsed st)
    end
  else Some st.

(** [a || b] on an optional number: [undefined] and [0] are falsy. *)
Definition Q_or (a : option Q) (b : Q) : Q :=
  match a with
  | Some q => if Qeq_bool q 0 then b else q
  | None => b
  end.

Definition Z_or (a : option Z) (b : Z) : Z :=
  match a with
  | Some z => if z =? 0 then b else z
  | None => b
  end.

(** [set(key, data, ttl?, size?)]; [now1] and [now2] are the two reads of
    the clock, for [expires] and for [timestamp]. *)
Definition set (fuel : nat) (now1 now2 : Z) (key : string) (d : T)
           (ttl : option Z) (sz : option Q) (st : CacheService)
  : option CacheService :=
  let entrySize := Q_or sz (estimateSize d) in
  let expires_ := now1 + Z_or ttl (defaultTTL (options st)) in
  let st1 := if JsMap.has key (cache st) then snd (delete key st) else st in
  match evict_loop fuel entrySize st1 with
  | None => None
  | Some st2 =>
      let entry := {| data := d; timestamp := now2;
                      size := entrySize; expires := expires_ |} in
      Some (with_cache st2 (JsMap.set key entry (cache st2))
                       (currentSize st2 + entrySize)%Q)
  end.

Definition touch (now : Z) (entry : CacheEntry) : CacheEntry :=
  {| data := data entry; timestamp := now;
     size := size entry; expires := expires entry |}.

(** [get(key)]; [now1] is the clock read by the expiry test, [now2] the one
    written into the entry.  The entry object is mutated in place. *)
Definition get (now1 now2 : Z) (key : string) (st : CacheService)
  : option T * CacheService :=
  match JsMap.get key (cache st) with
  | None => (None, st)
  | Some entry =>
      if now1 >? expires entry then (None, snd (delete key st))
      else (Some (data entry),
            with_cache st (JsMap.set key (touch now2 entry) (cache st))
                       (currentSize st))
  end.

Definition has (now : Z) (key : string) (st : CacheService)
  : bool * CacheService :=
  match JsMap.get key (cache st) with
  | None => (false, st)
  | Some entry =>
      if now >? expires entry then (false, snd (delete key st))
      else (true, st)
  end.

(** The periodic sweep. *)
Definition cleanup (now : Z) (st : CacheService) : CacheService :=
  let keysToDelete :=
    List.map fst (filter (fun kv => now >? expires (snd kv)) (cache st)) in
  fold_left (fun s key => snd (delete key s)) keysToDelete st.

Definition destroy (st : CacheService) : CacheService := clear st.

(** *** Vocabulary of the properties *)

Definition sum_sizes (m : JsMap.t CacheEntry) : Q :=
  fold_right (fun kv acc => (size (snd kv) + acc)%Q) 0%Q m.

(** The counter agrees with the live entries, and the map has one entry
    per key. *)
Definition consistent (st : CacheService) : Prop :=
  JsMap.wf (cache st) /\ (currentSize st == sum_sizes (cache st))%Q.

(** The public operations and the periodic sweep, each with the clock
    values it reads. *)
Inductive Op : Type :=
| OpSet (fuel : nat) (now1 now2 : Z) (key : string) (d : T)
        (ttl : option Z) (sz : option Q)
| OpGet (now1 now2 : Z) (key : string)
| OpHas (now : Z) (key : string)
| OpDelete (key : string)
| OpClear
| OpCleanup (now : Z).

(** One call; [None] only for a [set] that does not return within its
    fuel. *)
Definition run_op (op : Op) (st : CacheService) : option CacheService :=
  match op with
  | OpSet fuel now1 now2 key d ttl sz => set fuel now1 now2 key d ttl sz st
  | OpGet now1 now2 key => Some (snd (get now1 now2 key st))
  | OpHas now key => Some (snd (has now key st))
  | OpDelete key => Some (snd (delete key st))
  | OpClear => Some (clear st)
  | OpCleanup now => Some (cleanup now st)
  end.

Inductive reachable (o : PartialCacheOptions) : CacheService -> Prop :=
| reach_new : reachable o (new_CacheService o)
| reach_op : forall st op st',
    reachable o st -> run_op op st = Some st' -> reachable o st'.

(** A [set] call returns when some amount of fuel is enough. *)
Definition set_returns (now1 now2 : Z) (key : string) (d : T)
           (ttl : option Z) (sz : option Q) (st st' : CacheService) : Prop :=
  exists fuel, set fuel now1 now2 key d ttl sz st = Some st'.

(** A [set] call runs forever when no amount of fuel is enough. *)
Definition set_diverges (now1 now2 : Z) (key : string) (d : T)
           (ttl : option Z) (sz : option Q) (st : CacheService) : Prop :=
  forall fuel, set fuel now1 now2 key d ttl sz st = None.

(** One [set] call: its arguments and the clock values it reads. *)
Record SetCall : Type := mkSetCall {
  c_fuel : nat;
  c_now1 : Z;
  c_now2 : Z;
  c_key : string;
  c_data : T;
  c_ttl : option Z;
  c_size : option Q
}.

Definition run_set (c : SetCall) (st : CacheService) : option CacheService :=
  set (c_fuel c) (c_now1 c) (c_now2 c) (c_key c) (c_data c) (c_ttl c)
      (c_size c) st.

(** New entries inserted one after the other: [None] when a key is already
    cached at the time of its call, or when a call does not return. *)
Fixpoint insert_new (cs : list SetCall) (st : CacheService)
  : option CacheService :=
  match cs with
  | [] => Some st
  | c :: rest =>
      if JsMap.has (c_key c) (cache st) then None
      else match run_set c st with
           | Some st1 => insert_new rest st1
           | None => None
           end
  end.

(** An entry under [key] with timestamp [t] is outranked in [m] when the
    scan of the eviction prefers some entry under another key: one that is
    strictly older, or one that is no younger and comes before [key] in the
    order of the map. *)
Definition outranked (key : string) (t : Z) (m : JsMap.t CacheEntry) : Prop :=
  exists kB eB,
    kB <> key /\
    ((In (kB, eB) m /\ timestamp eB < t) \/
     (timestamp eB <= t /\
      exists pre post,
        m = (pre ++ (kB, eB) :: post)%list /\ In key (JsMap.keys post))).

(** A whole number of quarter-bytes. *)
Definition quarters (q : Q) : Prop := exists k : Z, (q * 4 == inject_Z k)%Q.

(** The byte counts on which the arithmetic of doubles is exact with room
    to spare: whole numbers of quarter-bytes from 0 to 2^50 bytes.  The sum
    of two of them is a whole number of quarter-bytes up to 2^51 bytes,
    that is at most 2^53 quarters, which a double holds exactly; so is the
    difference of two of them. *)
Definition exact_size (q : Q) : Prop :=
  quarters q /\ (0 <= q)%Q /\ (q <= inject_Z (2 ^ 50))%Q.

(** The calls whose entry size, given or estimated, is such a count. *)
Definition exact_op (op : Op) : Prop :=
  match op with
  | OpSet _ _ _ _ d _ sz => exact_size (Q_or sz (estimateSize d))
  | _ => True
  end.

(** The states reached through such calls under such a [maxSize]. *)
Inductive reachable_exact (o : PartialCacheOptions) : CacheService -> Prop :=
| reachx_new :
    exact_size (maxSize (options (new_CacheService o))) ->
    reachable_exact o (new_CacheService o)
| reachx_op : forall st op st',
    reachable_exact o st -> exact_op op -> run_op op st = Some st' ->
    reachable_exact o st'.

(** A state all of whose numbers are such counts: the counter agrees with
    the live entries, [maxSize] and every entry size are exact, and the
    total is within [maxSize] unless at most one entry is cached. *)
Definition exact_state (st : CacheService) : Prop :=
  consistent st /\
  exact_size (maxSize (options st)) /\
  (forall k e, In (k, e) (cache st) -> exact_size (size e)) /\
  ((currentSize st <= maxSize (options st))%Q \/
   (List.length (cache st) <= 1)%nat).
End Engine.
End Cache.

(** ** The cache engine over IEEE doubles

    The constructor, [delete], [evictLeastRecentlyUsed] and [set] of
    [CacheService] once more, with [currentSize], the entry sizes and
    [maxSize] as binary64 numbers (the kernel's primitive floats) and the
    additions, subtractions and comparisons of the source on them.  The
    rest is as in [Cache]. *)

Module Cache64.
Import PrimFloat.
Section Engine.
Variable T : Type.
Variable JSON_stringify : T -> option string.

Record CacheEntry : Type := mkEntry {
  data : T;
  timestamp : Z;
  size : float;
  expires : Z
}.

Record CacheOptions : Type := mkOptions {
  maxSize : float;
  defaultTTL : Z;
  cleanupInterval : Z
}.

Record PartialCacheOptions : Type := mkPartial {
  p_maxSize : option float;
  p_defaultTTL : option Z;
  p_cleanupInterval : option Z
}.

Record CacheService : Type := mkCache {
  cache : JsMap.t CacheEntry;
  currentSize : float;
  options : CacheOptions
}.

(** The double of a small non-negative integer. *)
Definition number (z : Z) : float := of_uint63 (Uint63.of_Z z).

Definition new_CacheService (o : PartialCacheOptions) : CacheService :=
  {| cache := JsMap.empty CacheEntry;
     currentSize := 0%float;
     options :=
       {| maxSize := Cache.orElse (p_maxSize o) (number (100 * 1024 * 1024));
          defaultTTL := Cache.orElse (p_defaultTTL o) (24 * 60 * 60 * 1000);
          cleanupInterval := Cache.orElse (p_cleanupInterval o) (5 * 60 * 1000) |} |}.

Definition with_cache (st : CacheService) (m : JsMap.t CacheEntry) (sz : float)
  : CacheService :=
  {| cache := m; currentSize := sz; options := options st |}.

Definition estimateSize (d : T) : float :=
  match JSON_stringify d with
  | Some jsonString => (number (Z.of_nat (String.length jsonString)) * 2)%float
  | None => number 1024
  end.

Definition delete (key : string) (st : CacheService) : bool * CacheService :=
  match JsMap.get key (cache st) with
  | Some entry =>
      (true, with_cache st (JsMap.delete key (cache st))
                        (currentSize st - size entry)%float)
  | None => (false, st)
  end.

Definition clear (st : CacheService) : CacheService :=
  with_cache st (JsMap.empty CacheEntry) 0%float.

Definition size_ (st : CacheService) : Z := JsMap.size (cache st).

Definition scan_step (acc : option string * option Z)
           (kv : string * CacheEntry) : option string * option Z :=
  let '(key, entry) := kv in
  match snd acc with
  | None => (Some key, Some (timestamp entry))
  | Some oldestTimestamp =>
      if (timestamp entry <? oldestTimestamp)%Z
      then (Some key, Some (timestamp entry))
      else acc
  end.

Definition oldestKey (m : JsMap.t CacheEntry) : option string :=
  fst (fold_left scan_step m (None, None)).

Definition evictLeastRecentlyUsed (st : CacheService) : CacheService :=
  match oldestKey (cache st) with
  | Some k => if Cache.truthy_key (Some k) then snd (delete k st) else st
  | None => st
  end.

(** [currentSize + entrySize > maxSize && cache.size > 0]. *)
Definition must_evict (entrySize : float) (st : CacheService) : bool :=
  (maxSize (options st) <? currentSize st + entrySize)%float
  && (size_ st >? 0)%Z.

Fixpoint evict_loop (fuel : nat) (entrySize : float) (st : CacheService)
  : option CacheService :=
  if must_evict entrySize st then
    match fuel with
    | O => None
    | S fuel' => evict_loop fuel' entrySize (evictLeastRecentlyUsed st)
    end
  else Some st.

(** [a || b] on an optional number: [undefined], [0], [-0] and [NaN] are
    falsy. *)
Definition float_or (a : option float) (b : float) : float :=
  match a with
  | Some x => if is_zero x || is_nan x then b else x
  | None => b
  end.

Definition set (fuel : nat) (now1 now2 : Z) (key : string) (d : T)
           (ttl : option Z) (sz : option float) (st : CacheService)
  : option CacheService :=
  let entrySize := float_or sz (estimateSize d) in
  let expires_ := (now1 + Cache.Z_or ttl (defaultTTL (options st)))%Z in
  let st1 := if JsMap.has key (cache st) then snd (delete key st) else st in
  match evict_loop fuel entrySize st1 with
  | None => None
  | Some st2 =>
      let entry := {| data := d; timestamp := now2;
                      size := entrySize; expires := expires_ |} in
      Some (with_cache st2 (JsMap.set key entry (cache st2))
                       (currentSize st2 + entrySize)%float)
  end.

(** The sizes of the live entries, in map order. *)
Definition sizes (st : CacheService) : list float :=
  List.map (fun kv => size (snd kv)) (cache st).
End Engine.
End Cache64.

(** ** Promises, thrown values and string helpers *)

Module Js.
(** What a [throw] or a rejection carries: an [Error] with its message, or
    some other value (the [error] event of an [Image], for instance). *)
Inductive Thrown : Type :=
| JsError (message : string)
| OtherThrown (description : string).

(** How an awaited promise settles. *)
Inductive Settled (A : Type) : Type :=
| Resolved (a : A)
| Rejected (e : Thrown).

Arguments Resolved {A} a.
Arguments Rejected {A} e.

(** [s.split(c)] for a one-character separator. *)
Fixpoint split (c : ascii) (s : string) : list string :=
  match s with
  | EmptyString => [EmptyString]
  | String a rest =>
      if Ascii.eqb a c then EmptyString :: split c rest
      else match split c rest with
           | piece :: pieces => String a piece :: pieces
           | [] => [String a EmptyString]
           end
  end.

(** [s.includes(c)] for a one-character needle. *)
Fixpoint includes (c : ascii) (s : string) : bool :=
  match s with
  | EmptyString => false
  | String a rest => Ascii.eqb a c || includes c rest
  end.

End Js.

(** ** [class ImageCacheService extends CacheService<string>] *)

Module ImageCache.
Section Service.
(** [JSON.stringify] on strings, the rendering of a number inside a
    template literal, and the canvas-based compression, which is the
    external operation the cache fronts. *)
Variable JSON_stringify : string -> option string.
Variable Number_toString : Q -> string.
Variable compressImage : string -> Q -> Js.Settled string.

Definition ImageCacheService : Type := Cache.CacheService string.

Definition new_ImageCacheService : ImageCacheService :=
  Cache.new_CacheService string
    {| Cache.p_maxSize := Some (inject_Z (200 * 1024 * 1024));
       Cache.p_defaultTTL := Some (2 * 60 * 60 * 1000);
       Cache.p_cleanupInterval := Some (10 * 60 * 1000) |}.

Definition estimateImageSize (dataUrl : string) : Q :=
  match nth_error (Js.split "," dataUrl) 1 with
  | Some base64String =>
      if String.eqb base64String "" then inject_Z 1024
      else Qmake (Z.of_nat (String.length base64String) * 3) 4
  | None => inject_Z 1024
  end.

Definition cacheKey (url : string) (quality : Q) : string :=
  url ++ "-" ++ Number_toString quality.

(** [cacheImage(url, quality = 0.8)].  [g1 g2] are the clock reads of the
    [get], [s1 s2] those of the [set].  [if (cached)] is a truthiness
    test, so a cached empty string counts as a miss.  The whole body after
    the lookup sits in a [try] whose [catch] logs and returns [url]. *)
Definition cacheImage (fuel : nat) (g1 g2 s1 s2 : Z) (url : string)
           (quality : option Q) (st : ImageCacheService)
  : option (Js.Settled string * ImageCacheService) :=
  let q := Cache.orElse quality (8 # 10) in
  let key := cacheKey url q in
  let '(cached, st1) := Cache.get g1 g2 key st in
  let on_miss :=
    match compressImage url q with
    | Js.Rejected _ => Some (Js.Resolved url, st1)
    | Js.Resolved compressedDataUrl =>
        let sz := estimateImageSize compressedDataUrl in
        match Cache.set JSON_stringify fuel s1 s2 key compressedDataUrl
                        None (Some sz) st1 with
        | Some st2 => Some (Js.Resolved compressedDataUrl, st2)
        | None => None
        end
    end in
  match cached with
  | Some v => if String.eqb v "" then on_miss else Some (Js.Resolved v, st1)
  | None => on_miss
  end.
End Service.
End ImageCache.

(** ** [class TranslationService] *)

Module Translation.
Import PrimFloat.
#[local] Set Warnings "-inexact-float".

(** [confidence] is a JavaScript number, a binary64 double. *)
Record TranslationResult : Type := mkResult {
  translatedText : string;
  provider : string;
  confidence : float
}.

(** A provider is its name and the outcome of its [translate] call. *)
Record TranslationProvider : Type := mkProvider {
  name : string;
  provider_translate : string -> string -> string -> Js.Settled string
}.

Record TranslationService : Type := mkService {
  providers : list TranslationProvider;
  cache : JsMap.t TranslationResult;
  cacheExpiry : JsMap.t Z
}.

Definition cacheTimeout : Z := 24 * 60 * 60 * 1000.

Definition addProvider (p : TranslationProvider) (st : TranslationService)
  : TranslationService :=
  {| providers := p :: providers st;
     cache := cache st; cacheExpiry := cacheExpiry st |}.

(** [isInCache(key)]: [!expiry] holds for a missing and for a zero expiry;
    the clock is read only when the expiry is truthy. *)
Definition isInCache (now : Z) (key : string) (st : TranslationService)
  : bool * TranslationService :=
  let stale :=
    match JsMap.get key (cacheExpiry st) with
    | None => true
    | Some expiry => (expiry =? 0) || (now >? expiry)
    end in
  if stale then
    (false, {| providers := providers st;
               cache := JsMap.delete key (cache st);
               cacheExpiry := JsMap.delete key (cacheExpiry st) |})
  else (JsMap.has key (cache st), st).

(** What [providerScores[providerName]] finds: one of the four numbers of
    the object literal, a function or object that the literal inherits
    from [Object.prototype], or [undefined]. *)
Inductive Looked : Type :=
| Score (x : float)
| Inherited
| Undefined.

(** The property names of [Object.prototype], those of Annex B of the
    language standard included; all of them hold functions, but for
    [__proto__], which reads as [Object.prototype] itself. *)
Definition inherited_names : list string :=
  ["constructor"; "hasOwnProperty"; "isPrototypeOf"; "propertyIsEnumerable";
   "toLocaleString"; "toString"; "valueOf"; "__proto__";
   "__defineGetter__"; "__defineSetter__"; "__lookupGetter__";
   "__lookupSetter__"].

Definition providerScores (providerName : string) : Looked :=
  if String.eqb providerName "Google Translate" then Score 0.95
  else if String.eqb providerName "DeepL" then Score 0.92
  else if String.eqb providerName "LibreTranslate" then Score 0.85
  else if String.eqb providerName "Offline Dictionary" then Score 0.99
  else if existsb (String.eqb providerName) inherited_names then Inherited
  else Undefined.

(** [Math.min] and [Math.max] of two numbers: [NaN] if either is. *)
Definition Math_min (a b : float) : float :=
  if is_nan a || is_nan b then nan else if (b <? a)%float then b else a.

Definition Math_max (a b : float) : float :=
  if is_nan a || is_nan b then nan else if (a <? b)%float then b else a.

(** [calculateConfidence].  With a function or an object for [baseScore],
    [baseScore + adjustment] is a string concatenation, the source text of
    the function followed by the number, which [Math.min] converts to
    [NaN]. *)
Definition calculateConfidence (providerName translated : string) : float :=
  let adjustment := 0%float in
  let adjustment :=
    if Js.includes "[" translated then (adjustment - 0.1)%float
    else adjustment in
  let adjustment :=
    if (0 <? Z.of_nat (String.length translated))%Z
    then (adjustment + 0.05)%float else adjustment in
  match providerScores providerName with
  | Score x =>
      let baseScore := if is_zero x || is_nan x then 0.7%float else x in
      Math_max 0 (Math_min 1 (baseScore + adjustment))
  | Undefined => Math_max 0 (Math_min 1 (0.7 + adjustment))
  | Inherited => nan
  end.

(** The [for (const provider of this.providers)] loop: the first provider
    that succeeds is cached and returned, a failing one is logged and
    skipped. *)
Fixpoint try_providers (ps : list TranslationProvider) (now : Z)
         (key text from to : string) (st : TranslationService)
  : Js.Settled TranslationResult * TranslationService :=
  match ps with
  | [] => (Js.Rejected (Js.JsError "All translation providers failed"), st)
  | p :: rest =>
      match provider_translate p text from to with
      | Js.Resolved translated =>
          let result := {| translatedText := translated;
                           provider := name p;
                           confidence := calculateConfidence (name p) translated |} in
          (Js.Resolved result,
           {| providers := providers st;
              cache := JsMap.set key result (cache st);
              cacheExpiry := JsMap.set key (now + cacheTimeout) (cacheExpiry st) |})
      | Js.Rejected _ => try_providers rest now key text from to st
      end
  end.

(** [translate(text, from, to)]; [now1] is read by [isInCache], [now2]
    when the result is stored.  A hit returns [this.cache.get(cacheKey)!];
    [isInCache] answers [true] only when that lookup succeeds, so the
    [None] case below the hit is never taken. *)
Definition translate (now1 now2 : Z) (text from to : string)
           (st : TranslationService)
  : Js.Settled TranslationResult * TranslationService :=
  let key := from ++ "-" ++ to ++ "-" ++ text in
  let '(hit, st1) := isInCache now1 key st in
  if hit then
    match JsMap.get key (cache st1) with
    | Some r => (Js.Resolved r, st1)
    | None => try_providers (providers st1) now2 key text from to st1
    end
  else try_providers (providers st1) now2 key text from to st1.
End Translation.

(** ** The store [useAppStore]: document, settings and edit history *)

Module History.
Section Store.
(** The browser's [File] objects are opaque. *)
Variable File : Type.

Inductive FontWeight : Type := WeightNormal | WeightBold.
Inductive FontStyle : Type := StyleNormal | StyleItalic.
Inductive PageStatus : Type := Processing | Completed | PageError.
Inductive ActionType : Type := Move | Resize | Edit | Add | Delete.
Inductive Theme : Type := Light | Dark | System.

Record TextBox : Type := mkTextBox {
  tb_id : string;
  x : Q; y : Q; width : Q; height : Q;
  text : string;
  originalText : string;
  fontSize : Q;
  fontWeight : FontWeight;
  fontStyle : FontStyle;
  color : string;
  backgroundColor : string;
  tb_confidence : Q;
  sourceLanguage : string;
  targetLanguage : string
}.

(** [Partial<TextBox>]. *)
Record PartialTextBox : Type := mkPartialTextBox {
  o_id : option string;
  o_x : option Q; o_y : option Q; o_width : option Q; o_height : option Q;
  o_text : option string;
  o_originalText : option string;
  o_fontSize : option Q;
  o_fontWeight : option FontWeight;
  o_fontStyle : option FontStyle;
  o_color : option string;
  o_backgroundColor : option string;
  o_confidence : option Q;
  o_sourceLanguage : option string;
  o_targetLanguage : option string
}.

Record MangaPage : Type := mkPage {
  page_id : string;
  file : File;
  imageUrl : string;
  textBoxes : list TextBox;
  originalTextBoxes : list TextBox;
  page_name : string;
  status : PageStatus
}.

Record TranslationProject : Type := mkProject {
  project_id : string;
  project_name : string;
  pages : list MangaPage;
  project_targetLanguage : string;
  project_sourceLanguage : string;
  createdAt : Z;
  lastModified : Z
}.

Record EditAction : Type := mkAction {
  action_id : string;
  action_type : ActionType;
  pageId : string;
  textBoxId : string;
  before : PartialTextBox;
  after : PartialTextBox;
  action_timestamp : Z;
  description : string
}.

Record AppSettings : Type := mkSettings {
  autoSave : bool;
  maxHistorySteps : Z;
  defaultTargetLanguage : string;
  theme : Theme
}.

(** [Partial<AppSettings>]. *)
Record PartialAppSettings : Type := mkPartialSettings {
  o_autoSave : option bool;
  o_maxHistorySteps : option Z;
  o_defaultTargetLanguage : option string;
  o_theme : option Theme
}.

Record AppState : Type := mkState {
  project : option TranslationProject;
  currentPageIndex : Z;
  selectedTextBox : option (string * string);
  isProcessing : bool;
  showHistoryPanel : bool;
  showExportPanel : bool;
  showSettingsPanel : bool;
  history : list EditAction;
  historyIndex : Z;
  settings : AppSettings
}.

Definition defaultSettings : AppSettings :=
  {| autoSave := true; maxHistorySteps := 50;
     defaultTargetLanguage := "en"; theme := System |}.

Definition initialState : AppState :=
  {| project := None; currentPageIndex := 0; selectedTextBox := None;
     isProcessing := false; showHistoryPanel := false;
     showExportPanel := false; showSettingsPanel := false;
     history := []; historyIndex := -1; settings := defaultSettings |}.

(** What a store action hands back: [null], [undefined] (an array read out
    of range) or an action. *)
Inductive Returned : Type :=
| RNull
| RUndefined
| RAction (a : EditAction).

(** *** Array primitives *)

Definition len {A} (l : list A) : Z := Z.of_nat (List.length l).

(** [l.slice(0, e)]: a negative [e] counts from the end. *)
Definition slice0 {A} (e : Z) (l : list A) : list A :=
  let stop := if e <? 0 then Z.max (len l + e) 0 else Z.min e (len l) in
  firstn (Z.to_nat stop) l.

Definition push {A} (a : A) (l : list A) : list A := (l ++ [a])%list.

Definition shift {A} (l : list A) : list A := List.tl l.

(** [l[i]]. *)
Definition index (l : list EditAction) (i : Z) : Returned :=
  if i <? 0 then RUndefined
  else match nth_error l (Z.to_nat i) with
       | Some a => RAction a
       | None => RUndefined
       end.

(** *** Zustand's [set], one partial update per shape used *)

Definition set_history (s : AppState) (h : list EditAction) (i : Z) : AppState :=
  {| project := project s; currentPageIndex := currentPageIndex s;
     selectedTextBox := selectedTextBox s; isProcessing := isProcessing s;
     showHistoryPanel := showHistoryPanel s;
     showExportPanel := showExportPanel s;
     showSettingsPanel := showSettingsPanel s;
     history := h; historyIndex := i; settings := settings s |}.

Definition set_historyIndex (s : AppState) (i : Z) : AppState :=
  set_history s (history s) i.

Definition set_settings (s : AppState) (st : AppSettings) : AppState :=
  {| project := project s; currentPageIndex := currentPageIndex s;
     selectedTextBox := selectedTextBox s; isProcessing := isProcessing s;
     showHistoryPanel := showHistoryPanel s;
     showExportPanel := showExportPanel s;
     showSettingsPanel := showSettingsPanel s;
     history := history s; historyIndex := historyIndex s; settings := st |}.

(** *** History and settings actions *)

Definition addToHistory (action : EditAction) (s : AppState) : AppState :=
  let newHistory := push action (slice0 (historyIndex s + 1) (history s)) in
  let newHistory :=
    if len newHistory >? maxHistorySteps (settings s)
    then shift newHistory else newHistory in
  set_history s newHistory (len newHistory - 1).

Definition undo (s : AppState) : Returned * AppState :=
  if historyIndex s <? 0 then (RNull, s)
  else (index (history s) (historyIndex s),
        set_historyIndex s (historyIndex s - 1)).

Definition redo (s : AppState) : Returned * AppState :=
  if historyIndex s >=? len (history s) - 1 then (RNull, s)
  else (index (history s) (historyIndex s + 1),
        set_historyIndex s (historyIndex s + 1)).

Definition clearHistory (s : AppState) : AppState := set_history s [] (-1).

Definition canUndo (s : AppState) : bool := historyIndex s >=? 0.

Definition canRedo (s : AppState) : bool :=
  historyIndex s <? len (history s) - 1.

(** [{ ...state.settings, ...newSettings }]. *)
Definition merge_settings (old : AppSettings) (p : PartialAppSettings)
  : AppSettings :=
  {| autoSave := match o_autoSave p with Some v => v | None => autoSave old end;
     maxHistorySteps :=
       match o_maxHistorySteps p with Some v => v | None => maxHistorySteps old end;
     defaultTargetLanguage :=
       match o_defaultTargetLanguage p with
       | Some v => v | None => defaultTargetLanguage old end;
     theme := match o_theme p with Some v => v | None => theme old end |}.

Definition updateSettings (newSettings : PartialAppSettings) (s : AppState)
  : AppState :=
  set_settings s (merge_settings (settings s) newSettings).

(** *** Vocabulary of the properties *)

Inductive Call : Type :=
| CallAdd (a : EditAction)
| CallUndo
| CallRedo
| CallClear
| CallUpdateSettings (p : PartialAppSettings).

Definition run_call (c : Call) (s : AppState) : AppState :=
  match c with
  | CallAdd a => addToHistory a s
  | CallUndo => snd (undo s)
  | CallRedo => snd (redo s)
  | CallClear => clearHistory s
  | CallUpdateSettings p => updateSettings p s
  end.

Definition run_calls (cs : list Call) (s : AppState) : AppState :=
  fold_left (fun acc c => run_call c acc) cs s.

Inductive reachable : AppState -> Prop :=
| reach_init : reachable initialState
| reach_call : forall s c, reachable s -> reachable (run_call c s).

(** A settings update keeps the depth bound at or above the current length
    of the log; every other call qualifies. *)
Definition keeps_bound (c : Call) (s : AppState) : Prop :=
  match c with
  | CallUpdateSettings p =>
      match o_maxHistorySteps p with
      | Some m => len (history s) <= m
      | None => True
      end
  | _ => True
  end.

Inductive reachable_keeping_bound : AppState -> Prop :=
| reachk_init : reachable_keeping_bound initialState
| reachk_call : forall s c,
    reachable_keeping_bound s -> keeps_bound c s ->
    reachable_keeping_bound (run_call c s).

(** Two states that differ at most in the cursor. *)
Definition same_but_cursor (s s' : AppState) : Prop :=
  project s' = project s /\
  currentPageIndex s' = currentPageIndex s /\
  selectedTextBox s' = selectedTextBox s /\
  isProcessing s' = isProcessing s /\
  showHistoryPanel s' = showHistoryPanel s /\
  showExportPanel s' = showExportPanel s /\
  showSettingsPanel s' = showSettingsPanel s /\
  history s' = history s /\
  settings s' = settings s.

(** The log fits the depth bound and the cursor is inside the log. *)
Definition well_formed (s : AppState) : Prop :=
  len (history s) <= maxHistorySteps (settings s) /\
  -1 <= historyIndex s < len (history s).
End Store.
End History.

(** ** [class TranslationCacheService extends CacheService<string>] *)

Module TranslationCache.
Section Service.
Variable JSON_stringify : string -> option string.

Definition TranslationCacheService : Type := Cache.CacheService string.

Definition new_TranslationCacheService : TranslationCacheService :=
  Cache.new_CacheService string
    {| Cache.p_maxSize := Some (inject_Z (10 * 1024 * 1024));
       Cache.p_defaultTTL := Some (7 * 24 * 60 * 60 * 1000);
       Cache.p_cleanupInterval := Some (30 * 60 * 1000) |}.

Definition getCacheKey (text fromLang toLang : string) : string :=
  fromLang ++ "-" ++ toLang ++ "-" ++ text.

Definition cacheTranslation (fuel : nat) (now1 now2 : Z)
           (text fromLang toLang translation : string)
           (st : TranslationCacheService) : option TranslationCacheService :=
  Cache.set JSON_stringify fuel now1 now2 (getCacheKey text fromLang toLang)
            translation None None st.

Definition getCachedTranslation (now1 now2 : Z) (text fromLang toLang : string)
           (st : TranslationCacheService)
  : option string * TranslationCacheService :=
  Cache.get now1 now2 (getCacheKey text fromLang toLang) st.
End Service.
End TranslationCache.

(** ** [TranslationService]: cache administration and provider setup,
       and [ConfigService] which drives them *)

Module TranslationAdmin.
Definition clearCache (st : Translation.TranslationService)
  : Translation.TranslationService :=
  {| Translation.providers := Translation.providers st;
     Translation.cache := JsMap.empty Translation.TranslationResult;
     Translation.cacheExpiry := JsMap.empty Z |}.

Definition getCacheSize (st : Translation.TranslationService) : Z :=
  JsMap.size (Translation.cache st).

Inductive ExportFormat : Type := Png | Jpeg | Pdf.
Inductive ConfigTheme : Type := ThemeLight | ThemeDark | ThemeSystem.

Record AppConfig : Type := mkConfig {
  googleTranslateApiKey : option string;
  deepLApiKey : option string;
  libreTranslateUrl : option string;
  libreTranslateApiKey : option string;
  ocrLanguages : string;
  ocrConfidenceThreshold : Q;
  useWebWorkers : bool;
  maxImageSize : Q;
  compressionQuality : Q;
  config_theme : ConfigTheme;
  config_autoSave : bool;
  showConfidenceScores : bool;
  defaultExportFormat : ExportFormat;
  includeOriginalInExport : bool;
  includeMetadataInExport : bool
}.

Definition getDefaultConfig : AppConfig :=
  {| googleTranslateApiKey := None;
     deepLApiKey := None;
     libreTranslateUrl := Some "https://libretranslate.de/translate";
     libreTranslateApiKey := None;
     ocrLanguages := "eng+jpn+chi_sim+chi_tra+kor";
     ocrConfidenceThreshold := 30;
     useWebWorkers := true;
     maxImageSize := inject_Z (1920 * 1080);
     compressionQuality := 8 # 10;
     config_theme := ThemeSystem;
     config_autoSave := true;
     showConfidenceScores := true;
     defaultExportFormat := Png;
     includeOriginalInExport := false;
     includeMetadataInExport := true |}.

(** Truthiness of an optional string: defined and not empty. *)
Definition truthy (s : option string) : bool :=
  match s with
  | Some v => negb (String.eqb v "")
  | None => false
  end.

Definition hasTranslationProvider (c : AppConfig) : bool :=
  truthy (googleTranslateApiKey c) || truthy (deepLApiKey c)
  || truthy (libreTranslateUrl c).

(** [getTranslationProviders()]: [unshift] puts a name in front, [push] at
    the end. *)
Definition getTranslationProviders (c : AppConfig) : list string :=
  let providers := ["Offline Dictionary"] in
  let providers :=
    if truthy (googleTranslateApiKey c)
    then "Google Translate" :: providers else providers in
  let providers :=
    if truthy (deepLApiKey c) then "DeepL" :: providers else providers in
  if truthy (libreTranslateUrl c)
  then (providers ++ ["LibreTranslate"])%list else providers.

Section Setup.
(** The provider classes wrap network calls; each constructor is taken as
    given, with the [name] its class declares. *)
Variable GoogleTranslateProvider : string -> Translation.TranslationProvider.
Variable DeepLProvider : string -> Translation.TranslationProvider.
Variable LibreTranslateProvider :
  option string -> option string -> Translation.TranslationProvider.
Variable OfflineTranslationProvider : Translation.TranslationProvider.

(** [new TranslationService()]: the offline provider is always there. *)
Definition new_TranslationService : Translation.TranslationService :=
  {| Translation.providers := [OfflineTranslationProvider];
     Translation.cache := JsMap.empty Translation.TranslationResult;
     Translation.cacheExpiry := JsMap.empty Z |}.

Definition setupGoogleTranslate (apiKey : string)
           (st : Translation.TranslationService) :=
  Translation.addProvider (GoogleTranslateProvider apiKey) st.

Definition setupDeepL (apiKey : string) (st : Translation.TranslationService) :=
  Translation.addProvider (DeepLProvider apiKey) st.

Definition setupLibreTranslate (baseUrl apiKey : option string)
           (st : Translation.TranslationService) :=
  Translation.addProvider (LibreTranslateProvider baseUrl apiKey) st.

(** [ConfigService.setupTranslationServices()]. *)
Definition setupTranslationServices (c : AppConfig)
           (st : Translation.TranslationService)
  : Translation.TranslationService :=
  let st := clearCache st in
  let st :=
    match googleTranslateApiKey c with
    | Some k => if truthy (Some k) then setupGoogleTranslate k st else st
    | None => st
    end in
  let st :=
    match deepLApiKey c with
    | Some k => if truthy (Some k) then setupDeepL k st else st
    | None => st
    end in
  if truthy (libreTranslateUrl c)
  then setupLibreTranslate (libreTranslateUrl c) (libreTranslateApiKey c) st
  else st.
End Setup.
End TranslationAdmin.

(** ** The store [useAppStore]: setters and text box actions *)

Module Project.
Section Actions.
Variable File : Type.
(** The decimal rendering of [Date.now()] inside a template literal. *)
Variable Number_toString : Z -> string.

#[local] Abbreviation State := (History.AppState File).
#[local] Abbreviation ProjectT := (History.TranslationProject File).
#[local] Abbreviation Page := (History.MangaPage File).

(** Zustand's [set] for the shapes these actions use. *)
Definition set_project_fields (s : State) (p : option ProjectT) (i : Z)
           (sel : option (string * string)) : State :=
  {| History.project := p; History.currentPageIndex := i;
     History.selectedTextBox := sel;
     History.isProcessing := History.isProcessing s;
     History.showHistoryPanel := History.showHistoryPanel s;
     History.showExportPanel := History.showExportPanel s;
     History.showSettingsPanel := History.showSettingsPanel s;
     History.history := History.history s;
     History.historyIndex := History.historyIndex s;
     History.settings := History.settings s |}.

Definition setProject (p : option ProjectT) (s : State) : State :=
  set_project_fields s p 0 None.

Definition setCurrentPageIndex (i : Z) (s : State) : State :=
  set_project_fields s (History.project s) i (History.selectedTextBox s).

Definition setSelectedTextBox (sel : option (string * string)) (s : State)
  : State :=
  set_project_fields s (History.project s) (History.currentPageIndex s) sel.

(** [{ ...oldTextBox, ...updates }]. *)
Definition merge (old : History.TextBox) (u : History.PartialTextBox)
  : History.TextBox :=
  let pick {A} (o : option A) (d : A) := match o with Some v => v | None => d end in
  {| History.tb_id := pick (History.o_id u) (History.tb_id old);
     History.x := pick (History.o_x u) (History.x old);
     History.y := pick (History.o_y u) (History.y old);
     History.width := pick (History.o_width u) (History.width old);
     History.height := pick (History.o_height u) (History.height old);
     History.text := pick (History.o_text u) (History.text old);
     History.originalText :=
       pick (History.o_originalText u) (History.originalText old);
     History.fontSize := pick (History.o_fontSize u) (History.fontSize old);
     History.fontWeight := pick (History.o_fontWeight u) (History.fontWeight old);
     History.fontStyle := pick (History.o_fontStyle u) (History.fontStyle old);
     History.color := pick (History.o_color u) (History.color old);
     History.backgroundColor :=
       pick (History.o_backgroundColor u) (History.backgroundColor old);
     History.tb_confidence :=
       pick (History.o_confidence u) (History.tb_confidence old);
     History.sourceLanguage :=
       pick (History.o_sourceLanguage u) (History.sourceLanguage old);
     History.targetLanguage :=
       pick (History.o_targetLanguage u) (History.targetLanguage old) |}.

(** A whole text box where a [Partial<TextBox>] is expected. *)
Definition whole (b : History.TextBox) : History.PartialTextBox :=
  {| History.o_id := Some (History.tb_id b);
     History.o_x := Some (History.x b); History.o_y := Some (History.y b);
     History.o_width := Some (History.width b);
     History.o_height := Some (History.height b);
     History.o_text := Some (History.text b);
     History.o_originalText := Some (History.originalText b);
     History.o_fontSize := Some (History.fontSize b);
     History.o_fontWeight := Some (History.fontWeight b);
     History.o_fontStyle := Some (History.fontStyle b);
     History.o_color := Some (History.color b);
     History.o_backgroundColor := Some (History.backgroundColor b);
     History.o_confidence := Some (History.tb_confidence b);
     History.o_sourceLanguage := Some (History.sourceLanguage b);
     History.o_targetLanguage := Some (History.targetLanguage b) |}.

(** The object literal [{}]. *)
Definition no_fields : History.PartialTextBox :=
  History.mkPartialTextBox None None None None None None None None
                           None None None None None None None.

(** [pages.find(p => p.id === pageId)?.textBoxes.find(tb => tb.id === id)]. *)
Definition findTextBox (pages : list Page) (pageId textBoxId : string)
  : option History.TextBox :=
  match find (fun p => String.eqb (History.page_id p) pageId) pages with
  | Some page =>
      find (fun tb => String.eqb (History.tb_id tb) textBoxId)
           (History.textBoxes page)
  | None => None
  end.

Definition with_textBoxes (page : Page) (bs : list History.TextBox) : Page :=
  {| History.page_id := History.page_id page;
     History.file := History.file page;
     History.imageUrl := History.imageUrl page;
     History.textBoxes := bs;
     History.originalTextBoxes := History.originalTextBoxes page;
     History.page_name := History.page_name page;
     History.status := History.status page |}.

(** [{ ...state.project, pages, lastModified: Date.now() }]. *)
Definition with_pages (p : ProjectT) (ps : list Page) (now : Z) : ProjectT :=
  {| History.project_id := History.project_id p;
     History.project_name := History.project_name p;
     History.pages := ps;
     History.project_targetLanguage := History.project_targetLanguage p;
     History.project_sourceLanguage := History.project_sourceLanguage p;
     History.createdAt := History.createdAt p;
     History.lastModified := now |}.

(** [pages.map(page => page.id === pageId ? { ...page, textBoxes: f(..) } : page)]. *)
Definition on_page (pageId : string)
           (f : list History.TextBox -> list History.TextBox)
           (ps : list Page) : list Page :=
  List.map (fun page =>
              if String.eqb (History.page_id page) pageId
              then with_textBoxes page (f (History.textBoxes page))
              else page) ps.

Definition action (now_id now_ts : Z) (ty : History.ActionType)
           (pageId textBoxId : string) (b a : History.PartialTextBox)
           (descr : string) : History.EditAction :=
  {| History.action_id := "action-" ++ Number_toString now_id;
     History.action_type := ty;
     History.pageId := pageId; History.textBoxId := textBoxId;
     History.before := b; History.after := a;
     History.action_timestamp := now_ts; History.description := descr |}.

(** [updateTextBox(pageId, textBoxId, updates)]; [t1 t2 t3] are the clock
    reads for [lastModified], the action id and the action timestamp. *)
Definition updateTextBox (t1 t2 t3 : Z) (pageId textBoxId : string)
           (updates : History.PartialTextBox) (s : State) : State :=
  match History.project s with
  | None => s
  | Some proj =>
      match findTextBox (History.pages proj) pageId textBoxId with
      | None => s
      | Some oldTextBox =>
          let newTextBox := merge oldTextBox updates in
          let pages' :=
            on_page pageId
              (List.map (fun textBox =>
                           if String.eqb (History.tb_id textBox) textBoxId
                           then newTextBox else textBox))
              (History.pages proj) in
          let s1 := set_project_fields s (Some (with_pages proj pages' t1))
                      (History.currentPageIndex s) (History.selectedTextBox s) in
          History.addToHistory
            (action t2 t3 History.Edit pageId textBoxId
                    (whole oldTextBox) (whole newTextBox) "Edited text box")
            s1
      end
  end.

Definition deleteTextBox (t1 t2 t3 : Z) (pageId textBoxId : string) (s : State)
  : State :=
  match History.project s with
  | None => s
  | Some proj =>
      match findTextBox (History.pages proj) pageId textBoxId with
      | None => s
      | Some textBox =>
          let pages' :=
            on_page pageId
              (filter (fun tb => negb (String.eqb (History.tb_id tb) textBoxId)))
              (History.pages proj) in
          let s1 := set_project_fields s (Some (with_pages proj pages' t1))
                      (History.currentPageIndex s) None in
          History.addToHistory
            (action t2 t3 History.Delete pageId textBoxId
                    (whole textBox) no_fields "Deleted text box")
            s1
      end
  end.

Definition addTextBox (t1 t2 t3 : Z) (pageId : string) (textBox : History.TextBox)
           (s : State) : State :=
  match History.project s with
  | None => s
  | Some proj =>
      let pages' :=
        on_page pageId (fun bs => (bs ++ [textBox])%list) (History.pages proj) in
      let s1 := set_project_fields s (Some (with_pages proj pages' t1))
                  (History.currentPageIndex s) (History.selectedTextBox s) in
      History.addToHistory
        (action t2 t3 History.Add pageId (History.tb_id textBox)
                no_fields (whole textBox) "Added text box")
        s1
  end.
End Actions.
End Project.

(** ** The immer-based store of [useAppStore.optimized]: history actions *)

Module OptimizedStore.
Section Store.
Variable File : Type.

#[local] Abbreviation State := (History.AppState File).

(** The recipe mutates a draft; the fields it assigns are [history] and
    [historyIndex]. *)
Definition addToHistory (action : History.EditAction) (s : State) : State :=
  let h :=
    if History.historyIndex s <? History.len (History.history s) - 1
    then History.slice0 (History.historyIndex s + 1) (History.history s)
    else History.history s in
  let h := History.push action h in
  if History.len h >? History.maxHistorySteps (History.settings s)
  then History.set_history s (History.shift h) (History.historyIndex s)
  else History.set_history s h (History.len h - 1).

Definition canUndo (s : State) : bool := History.historyIndex s >=? 0.

Definition canRedo (s : State) : bool :=
  History.historyIndex s <? History.len (History.history s) - 1.

Definition undo (s : State) : History.Returned * State :=
  if negb (canUndo s) then (History.RNull, s)
  else (History.index (History.history s) (History.historyIndex s),
        History.set_historyIndex s (History.historyIndex s - 1)).

Definition redo (s : State) : History.Returned * State :=
  if negb (canRedo s) then (History.RNull, s)
  else let nextIndex := History.historyIndex s + 1 in
       (History.index (History.history s) nextIndex,
        History.set_historyIndex s nextIndex).
End Store.
End OptimizedStore.

(** * Test points *)

(** ** Concrete caches used as test points *)

Module CacheScenarios.
Definition stringify (s : string) : option string := Some s.

Definition budget (n : Z) : Cache.PartialCacheOptions :=
  {| Cache.p_maxSize := Some (inject_Z n);
     Cache.p_defaultTTL := None;
     Cache.p_cleanupInterval := None |}.

Definition put (now : Z) (key : string) (sz : Z) (st : Cache.CacheService string)
  : option (Cache.CacheService string) :=
  Cache.set stringify 8 now now key key None (Some (inject_Z sz)) st.

Definition unwrap (o : option (Cache.CacheService string))
           (d : Cache.CacheService string) : Cache.CacheService string :=
  match o with Some s => s | None => d end.

(** Budget 1000, entries of 400 bytes under k1 and k2, then k3. *)
Definition fresh1000 : Cache.CacheService string :=
  Cache.new_CacheService string (budget 1000).
Definition with_k1 : Cache.CacheService string :=
  Eval vm_compute in unwrap (put 1 "k1" 400 fresh1000) fresh1000.
Definition with_k1_k2 : Cache.CacheService string :=
  Eval vm_compute in unwrap (put 2 "k2" 400 with_k1) with_k1.
Definition with_k2_k3 : Cache.CacheService string :=
  Eval vm_compute in unwrap (put 3 "k3" 400 with_k1_k2) with_k1_k2.

(** Budget 10, one entry stored under the empty string. *)
Definition fresh10 : Cache.CacheService string :=
  Cache.new_CacheService string (budget 10).
Definition with_empty_key_6 : Cache.CacheService string :=
  Eval vm_compute in unwrap (put 1 "" 6 fresh10) fresh10.
Definition with_empty_key_4 : Cache.CacheService string :=
  Eval vm_compute in unwrap (put 1 "" 4 fresh10) fresh10.

(** Budget 10, A stored at time 1 and B at time 2, A read at time 2. *)
Definition with_A : Cache.CacheService string :=
  Eval vm_compute in unwrap (put 1 "A" 5 fresh10) fresh10.
Definition with_A_B : Cache.CacheService string :=
  Eval vm_compute in unwrap (put 2 "B" 5 with_A) with_A.
Definition after_read_A_at_2 : Cache.CacheService string :=
  Eval vm_compute in snd (Cache.get 2 2 "A" with_A_B).
Definition after_read_A_at_3 : Cache.CacheService string :=
  Eval vm_compute in snd (Cache.get 3 3 "A" with_A_B).

Definition after_tie_insert : Cache.CacheService string :=
  Eval vm_compute in unwrap (put 3 "C" 5 after_read_A_at_2) after_read_A_at_2.

(** Budget 10, entries of 3 bytes: A stored at time 1, B at 2 and C at 3,
    then A read at time 3, the time C was stored. *)
Definition three_A : Cache.CacheService string :=
  Eval vm_compute in unwrap (put 1 "A" 3 fresh10) fresh10.
Definition three_A_B : Cache.CacheService string :=
  Eval vm_compute in unwrap (put 2 "B" 3 three_A) three_A.
Definition three_A_B_C : Cache.CacheService string :=
  Eval vm_compute in unwrap (put 3 "C" 3 three_A_B) three_A_B.
Definition three_read_A : Cache.CacheService string :=
  Eval vm_compute in snd (Cache.get 3 3 "A" three_A_B_C).

(** Then E, of 1 byte, which fits, and D, of 3 bytes, which does not. *)
Definition call (now : Z) (key : string) (sz : Z) : Cache.SetCall string :=
  Cache.mkSetCall 8 now now key key None (Some (inject_Z sz)).
Definition three_E_D : Cache.CacheService string :=
  Eval vm_compute in
    unwrap (Cache.insert_new stringify [call 4 "E" 1; call 5 "D" 3] three_read_A)
           three_read_A.
End CacheScenarios.

(** ** Caches with sizes that are not whole quarter-bytes *)

Module Cache64Scenarios.
Import PrimFloat.
#[local] Set Warnings "-inexact-float".

Definition stringify (s : string) : option string := Some s.

Definition budget (x : float) : Cache64.PartialCacheOptions :=
  {| Cache64.p_maxSize := Some x;
     Cache64.p_defaultTTL := None;
     Cache64.p_cleanupInterval := None |}.

Definition put (now : Z) (key : string) (sz : float)
           (st : Cache64.CacheService string)
  : option (Cache64.CacheService string) :=
  Cache64.set stringify 8 now now key key None (Some sz) st.

Definition unwrap (o : option (Cache64.CacheService string))
           (d : Cache64.CacheService string) : Cache64.CacheService string :=
  match o with Some s => s | None => d end.

Definition tenth : float := 0.1.
Definition two_tenths : float := 0.2.
Definition three_tenths : float := 0.3.
(** The double after [three_tenths]. *)
Definition above_three_tenths : float := 0.30000000000000004.
(** The double after [two_tenths]. *)
Definition above_two_tenths : float := 0.20000000000000004.

(** Budget 0.35: a of 0.1 and b of 0.2 fit together, c of 0.3 evicts
    both. *)
Definition fresh : Cache64.CacheService string :=
  Cache64.new_CacheService string (budget 0.35).
Definition with_a : Cache64.CacheService string :=
  Eval vm_compute in unwrap (put 1 "a" tenth fresh) fresh.
Definition with_a_b : Cache64.CacheService string :=
  Eval vm_compute in unwrap (put 2 "b" two_tenths with_a) with_a.
Definition with_c : Cache64.CacheService string :=
  Eval vm_compute in unwrap (put 3 "c" three_tenths with_a_b) with_a_b.

(** The same a and b, then a deleted. *)
Definition with_b : Cache64.CacheService string :=
  Eval vm_compute in snd (Cache64.delete "a" with_a_b).

(** A whole number of quarter-bytes as a double. *)
Definition of_quarters (k : Z) : float := (Cache64.number k / 4)%float.

(** Budget 10 and two entries of 5.25 bytes, once over doubles and once
    over rationals. *)
Definition fresh10 : Cache64.CacheService string :=
  Cache64.new_CacheService string (budget (Cache64.number 10)).
Definition with_p : Cache64.CacheService string :=
  Eval vm_compute in unwrap (put 1 "p" (of_quarters 21) fresh10) fresh10.
Definition with_q : Cache64.CacheService string :=
  Eval vm_compute in unwrap (put 2 "q" (of_quarters 21) with_p) with_p.

Definition put_exact (now : Z) (key : string) (sz : Q)
           (st : Cache.CacheService string)
  : option (Cache.CacheService string) :=
  Cache.set stringify 8 now now key key None (Some sz) st.
Definition exact_with_p : Cache.CacheService string :=
  Eval vm_compute in
    CacheScenarios.unwrap (put_exact 1 "p" (21 # 4) CacheScenarios.fresh10)
                          CacheScenarios.fresh10.
Definition exact_with_q : Cache.CacheService string :=
  Eval vm_compute in
    CacheScenarios.unwrap (put_exact 2 "q" (21 # 4) exact_with_p) exact_with_p.
End Cache64Scenarios.

(** ** Concrete histories used as test points *)

Module HistoryScenarios.
Definition no_fields : History.PartialTextBox :=
  History.mkPartialTextBox None None None None None None None None
                           None None None None None None None.

Definition act (id : string) : History.EditAction :=
  {| History.action_id := id; History.action_type := History.Edit;
     History.pageId := "page-1"; History.textBoxId := "tb-1";
     History.before := no_fields; History.after := no_fields;
     History.action_timestamp := 0; History.description := "Edited text box" |}.

Definition depth (n : Z) : History.PartialAppSettings :=
  {| History.o_autoSave := None; History.o_maxHistorySteps := Some n;
     History.o_defaultTargetLanguage := None; History.o_theme := None |}.

Definition State : Type := History.AppState unit.

Definition fresh : State := History.initialState unit.

(** The default depth of 50, log [a, b, c], cursor on c. *)
Definition abc : State :=
  History.run_calls
    [History.CallAdd (act "a"); History.CallAdd (act "b");
     History.CallAdd (act "c")] fresh.

(** Depth 2, log [a, b], cursor on b. *)
Definition depth2 : State := History.updateSettings (depth 2) fresh.
Definition depth2_ab : State :=
  History.addToHistory (act "b") (History.addToHistory (act "a") depth2).

(** The depth lowered to 2 under a log of three actions. *)
Definition abc_lowered : State := History.updateSettings (depth 2) abc.

(** Depth 0. *)
Definition depth0 : State := History.updateSettings (depth 0) fresh.

(** The depth lowered to 1 under the log [a, b, c]. *)
Definition abc_depth1 : State := History.updateSettings (depth 1) abc.

(** The log [a] with the cursor taken off it by [undo], then depth 0. *)
Definition a_undone_depth0 : State :=
  History.run_calls
    [History.CallAdd (act "a"); History.CallUndo;
     History.CallUpdateSettings (depth 0)] fresh.
End HistoryScenarios.

(** ** Concrete services used as test points *)

Module PopulateScenarios.
Definition render (q : Q) : string := "0.8".

Definition broken_image (url : string) (quality : Q) : Js.Settled string :=
  Js.Rejected (Js.OtherThrown "image error event").

Definition libre_down : Translation.TranslationProvider :=
  {| Translation.name := "LibreTranslate";
     Translation.provider_translate :=
       fun _ _ _ => Js.Rejected (Js.JsError "LibreTranslate failed") |}.

Definition offline_hello : Translation.TranslationProvider :=
  {| Translation.name := "Offline Dictionary";
     Translation.provider_translate := fun _ _ _ => Js.Resolved "Hello" |}.

Definition service (ps : list Translation.TranslationProvider)
  : Translation.TranslationService :=
  {| Translation.providers := ps;
     Translation.cache := JsMap.empty Translation.TranslationResult;
     Translation.cacheExpiry := JsMap.empty Z |}.
End PopulateScenarios.

(** ** Further test points *)

Module ExtraScenarios.
Definition data_url : string := "data:image/jpeg;base64,AAAA".

Definition good_image (url : string) (quality : Q) : Js.Settled string :=
  Js.Resolved data_url.

(** The image cache after a first [cacheImage] of page.png at time 1. *)
Definition image_cached : Cache.CacheService string :=
  Eval vm_compute in
    match ImageCache.cacheImage CacheScenarios.stringify PopulateScenarios.render
                                good_image 8 1 1 1 1 "page.png" None
                                ImageCache.new_ImageCacheService with
    | Some (_, st) => st
    | None => ImageCache.new_ImageCacheService
    end.

(** The translation cache after storing hello, en to zh-TW, at time 1. *)
Definition translation_cached : Cache.CacheService string :=
  Eval vm_compute in
    CacheScenarios.unwrap
      (TranslationCache.cacheTranslation CacheScenarios.stringify 8 1 1
         "hello" "en" "zh-TW" "nihao"
         TranslationCache.new_TranslationCacheService)
      TranslationCache.new_TranslationCacheService.

(** A service whose first provider is down and whose second answers. *)
Definition two_providers : Translation.TranslationService :=
  PopulateScenarios.service
    [PopulateScenarios.libre_down; PopulateScenarios.offline_hello].

Definition hello_result : Translation.TranslationResult :=
  Eval vm_compute in
    Translation.mkResult "Hello" "Offline Dictionary"
      (Translation.calculateConfidence "Offline Dictionary" "Hello").

Definition after_hi : Translation.TranslationService :=
  Eval vm_compute in snd (Translation.translate 1 1 "hi" "ja" "en" two_providers).

Definition down (n : string) : Translation.TranslationProvider :=
  {| Translation.name := n;
     Translation.provider_translate :=
       fun _ _ _ => Js.Rejected (Js.JsError "unreachable") |}.

Definition all_keys : TranslationAdmin.AppConfig :=
  {| TranslationAdmin.googleTranslateApiKey := Some "g-key";
     TranslationAdmin.deepLApiKey := Some "d-key";
     TranslationAdmin.libreTranslateUrl := Some "https://libretranslate.de/translate";
     TranslationAdmin.libreTranslateApiKey := None;
     TranslationAdmin.ocrLanguages := "eng+jpn+chi_sim+chi_tra+kor";
     TranslationAdmin.ocrConfidenceThreshold := 30;
     TranslationAdmin.useWebWorkers := true;
     TranslationAdmin.maxImageSize := inject_Z (1920 * 1080);
     TranslationAdmin.compressionQuality := 8 # 10;
     TranslationAdmin.config_theme := TranslationAdmin.ThemeSystem;
     TranslationAdmin.config_autoSave := true;
     TranslationAdmin.showConfidenceScores := true;
     TranslationAdmin.defaultExportFormat := TranslationAdmin.Png;
     TranslationAdmin.includeOriginalInExport := false;
     TranslationAdmin.includeMetadataInExport := true |}.

Definition show (z : Z) : string := "0".

Definition box (id txt : string) : History.TextBox :=
  {| History.tb_id := id;
     History.x := 0; History.y := 0;
     History.width := 1 # 10; History.height := 1 # 10;
     History.text := txt; History.originalText := txt;
     History.fontSize := 16;
     History.fontWeight := History.WeightNormal;
     History.fontStyle := History.StyleNormal;
     History.color := "#000000"; History.backgroundColor := "#ffffff";
     History.tb_confidence := 9 # 10;
     History.sourceLanguage := "ja"; History.targetLanguage := "en" |}.

Definition page1 : History.MangaPage unit :=
  {| History.page_id := "page-1"; History.file := tt;
     History.imageUrl := "blob:page-1";
     History.textBoxes := [box "tb-1" "a"];
     History.originalTextBoxes := [box "tb-1" "a"];
     History.page_name := "1.png"; History.status := History.Completed |}.

Definition project1 : History.TranslationProject unit :=
  {| History.project_id := "project-1"; History.project_name := "demo";
     History.pages := [page1];
     History.project_targetLanguage := "en";
     History.project_sourceLanguage := "ja";
     History.createdAt := 0; History.lastModified := 0 |}.

(** The initial store with [project1] loaded. *)
Definition loaded : History.AppState unit :=
  Project.setProject (Some project1) (History.initialState unit).

(** The update [{ text: t }]. *)
Definition new_text (t : string) : History.PartialTextBox :=
  History.mkPartialTextBox None None None None None (Some t) None None
                           None None None None None None None.
End ExtraScenarios.

(** * Properties *)

Unset Implicit Arguments.

(** ** Facts about the [Map] model *)

Module JsMapFacts.
Section Facts.
Variable V : Type.
Implicit Types (m : JsMap.t V) (k : string) (v : V).

Lemma get_In m k v : JsMap.get k m = Some v -> In (k, v) m.
Proof.
  induction m as [|[k' v'] rest IH]; simpl; [discriminate|].
  destruct (String.eqb_spec k k') as [->|Hne].
  - intros [= ->]. now left.
  - intros H. right. now apply IH.
Qed.

Lemma get_None_keys m k : JsMap.get k m = None <-> ~ In k (JsMap.keys m).
Proof.
  induction m as [|[k' v'] rest IH]; simpl.
  - tauto.
  - destruct (String.eqb_spec k k') as [->|Hne].
    + split; [discriminate|]. intros H. exfalso. apply H. now left.
    + rewrite IH. unfold JsMap.keys. split.
      * intros H [E|HI]; [now apply Hne|now apply H].
      * intros H HI. apply H. now right.
Qed.

Lemma In_get m k v : JsMap.wf m -> In (k, v) m -> JsMap.get k m = Some v.
Proof.
  unfold JsMap.wf.
  induction m as [|[k' v'] rest IH]; simpl; [tauto|].
  intros Hnd [E|HI]; inversion Hnd as [|? ? Hnot Hnd']; subst.
  - inversion E; subst. now rewrite String.eqb_refl.
  - destruct (String.eqb_spec k k') as [->|Hne].
    + exfalso. apply Hnot. change k' with (fst (k', v)). now apply in_map.
    + now apply IH.
Qed.

Lemma get_delete_same m k : JsMap.get k (JsMap.delete k m) = None.
Proof.
  induction m as [|[k' v'] rest IH]; simpl; [reflexivity|].
  destruct (String.eqb_spec k k') as [->|Hne]; simpl; [exact IH|].
  destruct (String.eqb_spec k k'); [contradiction|exact IH].
Qed.

Lemma get_delete_other m k k' :
  k <> k' -> JsMap.get k' (JsMap.delete k m) = JsMap.get k' m.
Proof.
  intros Hne.
  induction m as [|[k0 v0] rest IH]; simpl; [reflexivity|].
  destruct (String.eqb_spec k k0) as [->|Hne0]; simpl.
  - destruct (String.eqb_spec k' k0) as [->|]; [contradiction Hne; reflexivity|exact IH].
  - now rewrite IH.
Qed.

Lemma delete_absent m k : JsMap.get k m = None -> JsMap.delete k m = m.
Proof.
  induction m as [|[k' v'] rest IH]; simpl; [reflexivity|].
  destruct (String.eqb_spec k k') as [->|Hne]; [discriminate|].
  intros H. simpl. now rewrite IH.
Qed.

Lemma keys_delete_incl m k k' :
  In k' (JsMap.keys (JsMap.delete k m)) -> In k' (JsMap.keys m).
Proof.
  unfold JsMap.keys, JsMap.delete. rewrite !in_map_iff.
  intros [kv [E HI]]. apply filter_In in HI. exists kv. tauto.
Qed.

Lemma delete_wf m k : JsMap.wf m -> JsMap.wf (JsMap.delete k m).
Proof.
  unfold JsMap.wf.
  induction m as [|[k' v'] rest IH]; simpl; [trivial|].
  intros Hnd. inversion Hnd as [|? ? Hnot Hnd']; subst.
  destruct (String.eqb k k'); simpl.
  - now apply IH.
  - constructor; [|now apply IH].
    intros HI. apply Hnot. eapply keys_delete_incl. exact HI.
Qed.

Lemma delete_length_nat m k v :
  JsMap.wf m -> JsMap.get k m = Some v ->
  List.length m = S (List.length (JsMap.delete k m)).
Proof.
  unfold JsMap.wf.
  induction m as [|[k' v'] rest IH]; simpl; [discriminate|].
  intros Hnd. inversion Hnd as [|? ? Hnot Hnd']; subst.
  destruct (String.eqb_spec k k') as [->|Hne]; simpl.
  - intros _. fold (JsMap.delete k' rest).
    rewrite delete_absent; [reflexivity|].
    now apply get_None_keys.
  - intros H. f_equal. now apply IH.
Qed.

Lemma delete_length m k v :
  JsMap.wf m -> JsMap.get k m = Some v ->
  JsMap.size (JsMap.delete k m) = JsMap.size m - 1.
Proof.
  intros Hwf H. unfold JsMap.size.
  rewrite (delete_length_nat m k v Hwf H). lia.
Qed.

Lemma set_absent m k v :
  JsMap.get k m = None -> JsMap.set k v m = (m ++ [(k, v)])%list.
Proof.
  induction m as [|[k' v'] rest IH]; simpl; [reflexivity|].
  destruct (String.eqb_spec k k') as [->|Hne]; [discriminate|].
  intros H. now rewrite IH.
Qed.

Lemma get_set_same m k v : JsMap.get k (JsMap.set k v m) = Some v.
Proof.
  induction m as [|[k' v'] rest IH]; simpl.
  - now rewrite String.eqb_refl.
  - destruct (String.eqb_spec k k') as [->|Hne]; simpl.
    + now rewrite String.eqb_refl.
    + destruct (String.eqb_spec k k'); [contradiction|exact IH].
Qed.

Lemma get_set_other m k k' v :
  k <> k' -> JsMap.get k' (JsMap.set k v m) = JsMap.get k' m.
Proof.
  intros Hne.
  induction m as [|[k0 v0] rest IH]; simpl.
  - destruct (String.eqb_spec k' k) as [->|]; [contradiction Hne; reflexivity|reflexivity].
  - destruct (String.eqb_spec k k0) as [->|Hne0]; simpl.
    + destruct (String.eqb_spec k' k0) as [->|]; [contradiction Hne|]; reflexivity.
    + now rewrite IH.
Qed.

Lemma keys_set_present m k v v' :
  JsMap.get k m = Some v' -> JsMap.keys (JsMap.set k v m) = JsMap.keys m.
Proof.
  unfold JsMap.keys.
  induction m as [|[k0 v0] rest IH]; simpl; [discriminate|].
  destruct (String.eqb_spec k k0) as [->|Hne0]; simpl; [reflexivity|].
  intros H. now rewrite IH.
Qed.

Lemma NoDup_snoc (l : list string) (a : string) :
  NoDup l -> ~ In a l -> NoDup (l ++ [a])%list.
Proof.
  induction l as [|b l IH]; simpl; intros Hnd Hni.
  - constructor; [tauto|constructor].
  - inversion Hnd as [|? ? Hnot Hnd']; subst. constructor.
    + rewrite in_app_iff. simpl. intros [H|[H|[]]]; [tauto|].
      apply Hni. now left.
    + apply IH; tauto.
Qed.

Lemma set_wf m k v : JsMap.wf m -> JsMap.wf (JsMap.set k v m).
Proof.
  intros Hwf. unfold JsMap.wf.
  destruct (JsMap.get k m) as [v'|] eqn:E.
  - now rewrite (keys_set_present m k v v' E).
  - rewrite (set_absent m k v E). unfold JsMap.keys. rewrite map_app. simpl.
    apply NoDup_snoc; [exact Hwf|]. now apply get_None_keys.
Qed.

Lemma get_app m m' k :
  JsMap.get k (m ++ m')%list
  = match JsMap.get k m with Some v => Some v | None => JsMap.get k m' end.
Proof.
  induction m as [|[k0 v0] rest IH]; simpl; [reflexivity|].
  destruct (String.eqb k k0); [reflexivity|exact IH].
Qed.

(** With one entry per key, the place of a key in the map is unique. *)
Lemma split_unique pre k v post pre' v' post' :
  (pre ++ (k, v) :: post)%list = (pre' ++ (k, v') :: post')%list ->
  NoDup (JsMap.keys (pre ++ (k, v) :: post)%list) ->
  pre = pre' /\ v = v' /\ post = post'.
Proof.
  unfold JsMap.keys. revert pre'.
  induction pre as [|[k0 v0] pre IH]; intros [|[k1 v1] pre'] E Hnd;
    cbn [app] in E; cbn [app List.map fst] in Hnd.
  - inversion E; subst. auto.
  - inversion E; subst.
    inversion Hnd as [|? ? Hnot _]; subst. exfalso. apply Hnot.
    rewrite map_app, in_app_iff. right. now left.
  - inversion E; subst.
    inversion Hnd as [|? ? Hnot _]; subst. exfalso. apply Hnot.
    rewrite map_app, in_app_iff. right. now left.
  - inversion E as [[E1 E2 E3]]; subst.
    inversion Hnd as [|? ? _ Hnd']; subst.
    destruct (IH pre' E3 Hnd') as [-> [-> ->]]. auto.
Qed.

Lemma In_set m k v k' v' :
  In (k', v') (JsMap.set k v m) -> (k' = k /\ v' = v) \/ In (k', v') m.
Proof.
  induction m as [|[k0 v0] rest IH]; simpl.
  - intros [[= <- <-]|[]]. now left.
  - destruct (String.eqb_spec k k0) as [->|Hne]; simpl.
    + intros [[= <- <-]|HI]; [now left|right; now right].
    + intros [E|HI]; [right; now left|].
      destruct (IH HI) as [H|H]; [now left|right; now right].
Qed.

Lemma set_length_present m k v v' :
  JsMap.get k m = Some v' -> JsMap.size (JsMap.set k v m) = JsMap.size m.
Proof.
  intros H. unfold JsMap.size.
  assert (E : List.length (JsMap.keys (JsMap.set k v m)) = List.length (JsMap.keys m))
    by now rewrite (keys_set_present m k v v' H).
  unfold JsMap.keys in E. rewrite !length_map in E. now rewrite E.
Qed.
End Facts.
End JsMapFacts.

(** ** Facts about the cache engine *)

Module CacheFacts.
Section Facts.
Variable T : Type.
Variable JSON_stringify : T -> option string.

#[local] Abbreviation Entry := (Cache.CacheEntry T).
#[local] Abbreviation Service := (Cache.CacheService T).
Implicit Types (st : Service) (m : JsMap.t Entry) (key k : string).

(** *** The sum of the sizes *)

Lemma sum_sizes_app m1 m2 :
  (Cache.sum_sizes (m1 ++ m2)%list == Cache.sum_sizes m1 + Cache.sum_sizes m2)%Q.
Proof.
  induction m1 as [|kv rest IH]; simpl; [lra|]. rewrite IH. lra.
Qed.

Lemma sum_sizes_delete m k e :
  JsMap.wf m -> JsMap.get k m = Some e ->
  (Cache.sum_sizes (JsMap.delete k m) == Cache.sum_sizes m - Cache.size e)%Q.
Proof.
  unfold JsMap.wf.
  induction m as [|[k' e'] rest IH]; simpl; [discriminate|].
  intros Hnd. inversion Hnd as [|? ? Hnot Hnd']; subst.
  destruct (String.eqb_spec k k') as [->|Hne]; simpl.
  - intros [= ->]. fold (JsMap.delete k' rest).
    rewrite JsMapFacts.delete_absent; [lra|].
    now apply JsMapFacts.get_None_keys.
  - intros H. fold (JsMap.delete k rest). rewrite (IH Hnd' H). lra.
Qed.

Lemma sum_sizes_set_same_size m k e e' :
  JsMap.get k m = Some e -> Cache.size e' = Cache.size e ->
  (Cache.sum_sizes (JsMap.set k e' m) == Cache.sum_sizes m)%Q.
Proof.
  induction m as [|[k0 e0] rest IH]; simpl; [discriminate|].
  destruct (String.eqb_spec k k0) as [->|Hne]; simpl.
  - intros [= ->] ->. lra.
  - intros H Hs. rewrite (IH H Hs). lra.
Qed.

(** *** [delete] *)

Lemma delete_options key st :
  Cache.options (snd (Cache.delete key st)) = Cache.options st.
Proof.
  unfold Cache.delete. now destruct (JsMap.get key (Cache.cache st)).
Qed.

Lemma delete_cache key st :
  Cache.cache (snd (Cache.delete key st)) = JsMap.delete key (Cache.cache st).
Proof.
  unfold Cache.delete.
  destruct (JsMap.get key (Cache.cache st)) eqn:E; simpl; [reflexivity|].
  symmetry. now apply JsMapFacts.delete_absent.
Qed.

Lemma delete_consistent key st :
  Cache.consistent st -> Cache.consistent (snd (Cache.delete key st)).
Proof.
  intros [Hwf Hsum]. unfold Cache.delete.
  destruct (JsMap.get key (Cache.cache st)) as [e|] eqn:E; simpl.
  - split; simpl.
    + now apply JsMapFacts.delete_wf.
    + rewrite (sum_sizes_delete _ _ _ Hwf E). lra.
  - now split.
Qed.

Lemma delete_keeps_absent key k st :
  JsMap.get k (Cache.cache st) = None ->
  JsMap.get k (Cache.cache (snd (Cache.delete key st))) = None.
Proof.
  rewrite delete_cache. intros H.
  destruct (String.eqb_spec key k) as [->|Hne].
  - apply JsMapFacts.get_delete_same.
  - now rewrite JsMapFacts.get_delete_other.
Qed.

(** *** [evictLeastRecentlyUsed] and the loop of [set] *)

Lemma evict_cases st :
  Cache.evictLeastRecentlyUsed st = st \/
  exists k, Cache.oldestKey (Cache.cache st) = Some k /\ k <> "" /\
            Cache.evictLeastRecentlyUsed st = snd (Cache.delete k st).
Proof.
  unfold Cache.evictLeastRecentlyUsed.
  destruct (Cache.oldestKey (Cache.cache st)) as [k|]; [|now left].
  simpl. destruct (String.eqb_spec k "") as [->|Hne]; simpl; [now left|].
  right. exists k. auto.
Qed.

(** Anything every [delete] preserves is preserved by the loop. *)
Lemma evict_loop_preserves (P : Service -> Prop) :
  (forall k st, P st -> P (snd (Cache.delete k st))) ->
  forall fuel entrySize st st',
    P st -> Cache.evict_loop fuel entrySize st = Some st' -> P st'.
Proof.
  intros HP fuel entrySize.
  induction fuel as [|fuel IH]; intros st st' Hst; simpl;
    destruct (Cache.must_evict entrySize st); try discriminate;
    try (intros [= <-]; exact Hst).
  apply IH.
  destruct (evict_cases st) as [->|[k [_ [_ ->]]]]; [exact Hst|now apply HP].
Qed.

Lemma evict_loop_exit fuel entrySize st st' :
  Cache.evict_loop fuel entrySize st = Some st' ->
  Cache.must_evict entrySize st' = false.
Proof.
  revert st. induction fuel as [|fuel IH]; intros st; simpl;
    destruct (Cache.must_evict entrySize st) eqn:E; try discriminate;
    try (intros [= <-]; exact E).
  apply IH.
Qed.

(** The result of the loop does not depend on the fuel, once there is
    enough of it. *)
Lemma evict_loop_more_fuel fuel fuel' entrySize st st' :
  (fuel <= fuel')%nat ->
  Cache.evict_loop fuel entrySize st = Some st' ->
  Cache.evict_loop fuel' entrySize st = Some st'.
Proof.
  revert fuel' st. induction fuel as [|fuel IH]; intros fuel' st Hle; simpl.
  - destruct fuel'; simpl; destruct (Cache.must_evict entrySize st);
      try discriminate; auto.
  - destruct fuel' as [|fuel']; [lia|]. simpl.
    destruct (Cache.must_evict entrySize st); [|auto].
    apply IH. lia.
Qed.

Lemma evict_loop_done fuel entrySize st :
  Cache.must_evict entrySize st = false ->
  Cache.evict_loop fuel entrySize st = Some st.
Proof. intros H. destruct fuel; simpl; now rewrite H. Qed.

(** A pass of the loop that removes nothing repeats forever. *)
Lemma evict_loop_stuck entrySize st :
  Cache.must_evict entrySize st = true ->
  Cache.evictLeastRecentlyUsed st = st ->
  forall fuel, Cache.evict_loop fuel entrySize st = None.
Proof.
  intros Hg Hfix fuel. induction fuel as [|fuel IH]; simpl; rewrite Hg.
  - reflexivity.
  - now rewrite Hfix.
Qed.

(** *** What the scan of the eviction finds *)

Lemma scan_from m k0 t0 :
  exists k t,
    fold_left (@Cache.scan_step T) m (Some k0, Some t0) = (Some k, Some t) /\
    t <= t0 /\
    (forall k' e', In (k', e') m -> t <= Cache.timestamp e') /\
    ((k = k0 /\ t = t0) \/ exists e, In (k, e) m /\ Cache.timestamp e = t).
Proof.
  revert k0 t0. induction m as [|[k1 e1] rest IH]; intros k0 t0; simpl.
  - exists k0, t0. repeat split; [lia|tauto|now left].
  - destruct (Z.ltb_spec (Cache.timestamp e1) t0) as [Hlt|Hge].
    + destruct (IH k1 (Cache.timestamp e1)) as [k [t [E [Hle [Hmin Hwho]]]]].
      exists k, t. repeat split; [exact E|lia| |].
      * intros k' e' [[= <- <-]|HI]; [exact Hle|now apply (Hmin k')].
      * right. destruct Hwho as [[-> ->]|[e [HI Ht]]].
        -- exists e1. split; [now left|reflexivity].
        -- exists e. split; [now right|exact Ht].
    + destruct (IH k0 t0) as [k [t [E [Hle [Hmin Hwho]]]]].
      exists k, t. repeat split; [exact E|exact Hle| |].
      * intros k' e' [[= <- <-]|HI]; [lia|now apply (Hmin k')].
      * destruct Hwho as [H|[e [HI Ht]]]; [now left|].
        right. exists e. split; [now right|exact Ht].
Qed.

(** On a non-empty map the scan names an entry whose timestamp is the
    least of all. *)
Lemma oldestKey_spec m :
  m <> [] ->
  exists k e,
    Cache.oldestKey m = Some k /\ In (k, e) m /\
    forall k' e', In (k', e') m -> Cache.timestamp e <= Cache.timestamp e'.
Proof.
  destruct m as [|[k0 e0] rest]; [congruence|]. intros _.
  unfold Cache.oldestKey, Cache.scan_oldest. simpl.
  destruct (scan_from rest k0 (Cache.timestamp e0)) as [k [t [E [Hle [Hmin Hwho]]]]].
  rewrite E. simpl.
  destruct Hwho as [[-> ->]|[e [HI Ht]]].
  - exists k0, e0. repeat split; [now left|].
    intros k' e' [[= <- <-]|HI]; [lia|now apply (Hmin k')].
  - exists k, e. repeat split; [now right|].
    intros k' e' [[= <- <-]|HI']; [lia|]. rewrite Ht. now apply (Hmin k').
Qed.

Lemma must_evict_nonempty entrySize st :
  Cache.must_evict entrySize st = true -> Cache.cache st <> [].
Proof.
  unfold Cache.must_evict, Cache.size_, JsMap.size.
  rewrite andb_true_iff. intros [_ H] E. rewrite E in H. discriminate.
Qed.

(** *** Termination of the loop when no key is the empty string *)

Lemma evict_loop_terminates fuel entrySize st :
  JsMap.wf (Cache.cache st) ->
  ~ In "" (Cache.keys st) ->
  (List.length (Cache.cache st) <= fuel)%nat ->
  exists st', Cache.evict_loop fuel entrySize st = Some st'.
Proof.
  revert st. induction fuel as [|fuel IH]; intros st Hwf Hne Hlen; simpl;
    destruct (Cache.must_evict entrySize st) eqn:Hg; try (now eexists).
  - apply must_evict_nonempty in Hg.
    destruct (Cache.cache st); [congruence|simpl in Hlen; lia].
  - destruct (oldestKey_spec (Cache.cache st) (must_evict_nonempty _ _ Hg))
      as [k [e [Hk [HI _]]]].
    assert (Hget : JsMap.get k (Cache.cache st) = Some e)
      by now apply JsMapFacts.In_get.
    assert (Hk' : k <> "").
    { intros ->. apply Hne. unfold Cache.keys, JsMap.keys.
      change "" with (fst ("", e)). now apply in_map. }
    unfold Cache.evictLeastRecentlyUsed. rewrite Hk. simpl.
    destruct (String.eqb_spec k ""); [contradiction|]. simpl.
    apply IH.
    + rewrite delete_cache. now apply JsMapFacts.delete_wf.
    + unfold Cache.keys. rewrite delete_cache. intros HI'.
      apply Hne. eapply JsMapFacts.keys_delete_incl. exact HI'.
    + rewrite delete_cache.
      pose proof (JsMapFacts.delete_length_nat _ _ _ _ Hwf Hget). lia.
Qed.

(** *** What a returning [set] has done *)

Lemma set_inversion_with (P : Service -> Prop)
      fuel now1 now2 key d ttl sz st st' :
  (forall k s, P s -> P (snd (Cache.delete k s))) ->
  P st ->
  Cache.consistent st ->
  Cache.set JSON_stringify fuel now1 now2 key d ttl sz st = Some st' ->
  let entrySize := Cache.Q_or sz (Cache.estimateSize JSON_stringify d) in
  let entry :=
    Cache.mkEntry d now2 entrySize
      (now1 + Cache.Z_or ttl (Cache.defaultTTL (Cache.options st))) in
  exists st2,
    P st2 /\
    Cache.consistent st2 /\
    JsMap.get key (Cache.cache st2) = None /\
    Cache.options st2 = Cache.options st /\
    Cache.must_evict entrySize st2 = false /\
    Cache.cache st' = (Cache.cache st2 ++ [(key, entry)])%list /\
    Cache.currentSize st' = (Cache.currentSize st2 + entrySize)%Q /\
    Cache.options st' = Cache.options st.
Proof.
  intros HP HPst Hc. unfold Cache.set.
  set (entrySize := Cache.Q_or sz (Cache.estimateSize JSON_stringify d)).
  set (st1 := if JsMap.has key (Cache.cache st)
              then snd (Cache.delete key st) else st).
  destruct (Cache.evict_loop fuel entrySize st1) as [st2|] eqn:Hl;
    [|discriminate].
  intros [= <-]. simpl.
  pose (R := fun s : Service =>
               P s /\ Cache.consistent s /\
               JsMap.get key (Cache.cache s) = None /\
               Cache.options s = Cache.options st).
  assert (H1 : R st1).
  { unfold R, st1, JsMap.has.
    destruct (JsMap.get key (Cache.cache st)) eqn:E.
    - split; [now apply HP|]. split; [now apply delete_consistent|]. split.
      + rewrite delete_cache. apply JsMapFacts.get_delete_same.
      + apply delete_options.
    - auto. }
  assert (H2 : R st2).
  { apply (evict_loop_preserves R) with (fuel := fuel) (entrySize := entrySize)
                                        (st := st1); auto.
    intros k s [Hs0 [Hs1 [Hs2 Hs3]]].
    split; [now apply HP|]. split; [now apply delete_consistent|]. split.
    - now apply delete_keeps_absent.
    - now rewrite delete_options. }
  destruct H2 as [HP2 [Hc2 [Habs Hopt]]].
  exists st2. repeat split; try apply Hc2; auto.
  - eapply evict_loop_exit. exact Hl.
  - now apply JsMapFacts.set_absent.
Qed.

Lemma set_inversion fuel now1 now2 key d ttl sz st st' :
  Cache.consistent st ->
  Cache.set JSON_stringify fuel now1 now2 key d ttl sz st = Some st' ->
  let entrySize := Cache.Q_or sz (Cache.estimateSize JSON_stringify d) in
  let entry :=
    Cache.mkEntry d now2 entrySize
      (now1 + Cache.Z_or ttl (Cache.defaultTTL (Cache.options st))) in
  exists st2,
    Cache.consistent st2 /\
    JsMap.get key (Cache.cache st2) = None /\
    Cache.options st2 = Cache.options st /\
    Cache.must_evict entrySize st2 = false /\
    Cache.cache st' = (Cache.cache st2 ++ [(key, entry)])%list /\
    Cache.currentSize st' = (Cache.currentSize st2 + entrySize)%Q /\
    Cache.options st' = Cache.options st.
Proof.
  intros Hc Hs.
  destruct (set_inversion_with (fun _ => True)
              fuel now1 now2 key d ttl sz st st' (fun _ _ _ => I) I Hc Hs)
    as [st2 [_ H]].
  exists st2. exact H.
Qed.

Lemma set_consistent fuel now1 now2 key d ttl sz st st' :
  Cache.consistent st ->
  Cache.set JSON_stringify fuel now1 now2 key d ttl sz st = Some st' ->
  Cache.consistent st'.
Proof.
  intros Hc Hs.
  destruct (set_inversion _ _ _ _ _ _ _ _ _ Hc Hs)
    as [st2 [[Hwf Hsum] [Habs [_ [_ [Hcache [Hsize _]]]]]]].
  split.
  - rewrite Hcache. unfold JsMap.wf, JsMap.keys. rewrite map_app. simpl.
    apply JsMapFacts.NoDup_snoc; [exact Hwf|].
    now apply JsMapFacts.get_None_keys.
  - rewrite Hcache, Hsize, sum_sizes_app. simpl. rewrite Hsum. lra.
Qed.

(** *** The other operations keep the counter right *)

Lemma new_consistent o : Cache.consistent (Cache.new_CacheService T o).
Proof. split; simpl; [constructor|reflexivity]. Qed.

Lemma clear_consistent st : Cache.consistent (Cache.clear st).
Proof. split; simpl; [constructor|reflexivity]. Qed.

Lemma get_consistent now1 now2 key st :
  Cache.consistent st -> Cache.consistent (snd (Cache.get now1 now2 key st)).
Proof.
  intros Hc. unfold Cache.get.
  destruct (JsMap.get key (Cache.cache st)) as [e|] eqn:E; [|exact Hc].
  destruct (now1 >? Cache.expires e); [now apply delete_consistent|].
  destruct Hc as [Hwf Hsum]. split; simpl.
  - now apply JsMapFacts.set_wf.
  - rewrite (sum_sizes_set_same_size _ _ e); auto.
Qed.

Lemma has_consistent now key st :
  Cache.consistent st -> Cache.consistent (snd (Cache.has now key st)).
Proof.
  intros Hc. unfold Cache.has.
  destruct (JsMap.get key (Cache.cache st)) as [e|]; [|exact Hc].
  destruct (now >? Cache.expires e); [now apply delete_consistent|exact Hc].
Qed.

Lemma cleanup_consistent now st :
  Cache.consistent st -> Cache.consistent (Cache.cleanup now st).
Proof.
  unfold Cache.cleanup.
  generalize (List.map fst (filter (fun kv : string * Entry =>
                                 now >? Cache.expires (snd kv)) (Cache.cache st))).
  intros ks. revert st. induction ks as [|k ks IH]; intros st Hc; simpl.
  - exact Hc.
  - apply IH. now apply delete_consistent.
Qed.

Lemma reachable_consistent o st :
  Cache.reachable JSON_stringify o st -> Cache.consistent st.
Proof.
  induction 1 as [|st op st' _ IH Hrun].
  - apply new_consistent.
  - destruct op; simpl in Hrun;
      try (injection Hrun as <-).
    + eapply set_consistent; eauto.
    + now apply get_consistent.
    + now apply has_consistent.
    + now apply delete_consistent.
    + apply clear_consistent.
    + now apply cleanup_consistent.
Qed.

(** After a returning [set] on a consistent cache the total fits, or the
    new entry is alone and larger than the budget. *)
Lemma set_bound fuel now1 now2 key d ttl sz st st' :
  Cache.consistent st ->
  Cache.set JSON_stringify fuel now1 now2 key d ttl sz st = Some st' ->
  (Cache.currentSize st' <= Cache.maxSize (Cache.options st'))%Q \/
  exists e, Cache.cache st' = [(key, e)] /\
            (Cache.maxSize (Cache.options st') < Cache.size e)%Q.
Proof.
  intros Hc Hs.
  destruct (set_inversion _ _ _ _ _ _ _ _ _ Hc Hs)
    as [st2 [[Hwf Hsum] [Habs [Hopt2 [Hexit [Hcache [Hsize Hopt]]]]]]].
  unfold Cache.must_evict, Cache.Qgtb in Hexit.
  apply andb_false_iff in Hexit. destruct Hexit as [Hfit|Hempty].
  - left. apply negb_false_iff in Hfit. apply Qle_bool_iff in Hfit.
    rewrite Hsize, Hopt, <- Hopt2. exact Hfit.
  - assert (E : Cache.cache st2 = []).
    { unfold Cache.size_, JsMap.size in Hempty.
      destruct (Cache.cache st2); [reflexivity|simpl in Hempty; discriminate]. }
    rewrite E in Hcache, Hsum. simpl in Hcache, Hsum.
    set (entrySize := Cache.Q_or sz (Cache.estimateSize JSON_stringify d)) in *.
    destruct (Qlt_le_dec (Cache.maxSize (Cache.options st')) entrySize) as [Hbig|Hfit].
    + right. eexists. split; [exact Hcache|exact Hbig].
    + left. rewrite Hsize, Hsum. lra.
Qed.

(** *** Returning and not returning *)

Lemma set_present fuel now1 now2 key d ttl sz st st' :
  Cache.set JSON_stringify fuel now1 now2 key d ttl sz st = Some st' ->
  exists e, JsMap.get key (Cache.cache st') = Some e /\ Cache.data e = d /\
            Cache.timestamp e = now2.
Proof.
  unfold Cache.set.
  destruct (Cache.evict_loop fuel _ _) as [st2|]; [|discriminate].
  intros [= <-]. simpl. eexists. split; [apply JsMapFacts.get_set_same|].
  split; reflexivity.
Qed.

(** Without an entry under the empty string, [set] returns. *)
Lemma set_returns_without_empty_key now1 now2 key d ttl sz st :
  JsMap.wf (Cache.cache st) ->
  ~ In "" (Cache.keys st) ->
  exists st', Cache.set_returns JSON_stringify now1 now2 key d ttl sz st st'.
Proof.
  intros Hwf Hne. unfold Cache.set_returns, Cache.set.
  set (entrySize := Cache.Q_or sz (Cache.estimateSize JSON_stringify d)).
  set (st1 := if JsMap.has key (Cache.cache st)
              then snd (Cache.delete key st) else st).
  assert (H1 : JsMap.wf (Cache.cache st1) /\ ~ In "" (Cache.keys st1)).
  { unfold st1. destruct (JsMap.has key (Cache.cache st)); [|auto].
    unfold Cache.keys. rewrite delete_cache. split.
    - now apply JsMapFacts.delete_wf.
    - intros HI. apply Hne. eapply JsMapFacts.keys_delete_incl. exact HI. }
  destruct H1 as [Hwf1 Hne1].
  destruct (evict_loop_terminates (List.length (Cache.cache st1)) entrySize st1
              Hwf1 Hne1 (le_n _)) as [st2 Hl].
  eexists. exists (List.length (Cache.cache st1)). rewrite Hl. reflexivity.
Qed.

(** A new key, a full cache and the empty string as the oldest key: the
    loop of [set] never ends. *)
Lemma set_diverges_behind_empty_key now1 now2 key d ttl sz st :
  JsMap.has key (Cache.cache st) = false ->
  Cache.oldestKey (Cache.cache st) = Some "" ->
  Cache.must_evict (Cache.Q_or sz (Cache.estimateSize JSON_stringify d)) st = true ->
  Cache.set_diverges JSON_stringify now1 now2 key d ttl sz st.
Proof.
  intros Hnew Hold Hg fuel. unfold Cache.set. rewrite Hnew.
  rewrite evict_loop_stuck; auto.
  unfold Cache.evictLeastRecentlyUsed. now rewrite Hold.
Qed.

Lemma sum_sizes_nonneg m :
  (forall k e, In (k, e) m -> (0 <= Cache.size e)%Q) ->
  (0 <= Cache.sum_sizes m)%Q.
Proof.
  induction m as [|[k e] rest IH]; simpl; intros H; [lra|].
  assert (0 <= Cache.size e)%Q by (apply (H k); now left).
  assert (0 <= Cache.sum_sizes rest)%Q
    by (apply IH; intros k' e' HI; apply (H k'); now right).
  lra.
Qed.

(** With sizes that are not negative, a returning [set] of an entry larger
    than the budget leaves that entry alone in the cache. *)
Lemma oversized_set_alone fuel now1 now2 key d ttl sz st st' :
  Cache.consistent st ->
  (forall k e, In (k, e) (Cache.cache st) -> (0 <= Cache.size e)%Q) ->
  (Cache.maxSize (Cache.options st)
   < Cache.Q_or sz (Cache.estimateSize JSON_stringify d))%Q ->
  Cache.set JSON_stringify fuel now1 now2 key d ttl sz st = Some st' ->
  exists e, Cache.cache st' = [(key, e)] /\ Cache.data e = d.
Proof.
  intros Hc Hpos Hbig Hs.
  pose (P := fun s : Service =>
               forall k e, In (k, e) (Cache.cache s) -> (0 <= Cache.size e)%Q).
  destruct (set_inversion_with P fuel now1 now2 key d ttl sz st st')
    as [st2 [HP2 [[Hwf Hsum] [Habs [Hopt2 [Hexit [Hcache [Hsize Hopt]]]]]]]];
    auto.
  { intros k s Hs0 k' e' HI. rewrite delete_cache in HI.
    apply filter_In in HI. apply (Hs0 k'). tauto. }
  unfold Cache.must_evict, Cache.Qgtb in Hexit.
  apply andb_false_iff in Hexit. destruct Hexit as [Hfit|Hempty].
  - exfalso. apply negb_false_iff in Hfit. apply Qle_bool_iff in Hfit.
    pose proof (sum_sizes_nonneg (Cache.cache st2) HP2) as Hnn.
    rewrite Hopt2 in Hfit. rewrite Hsum in Hfit. lra.
  - assert (E : Cache.cache st2 = []).
    { unfold Cache.size_, JsMap.size in Hempty.
      destruct (Cache.cache st2); [reflexivity|simpl in Hempty; discriminate]. }
    rewrite E in Hcache. simpl in Hcache.
    eexists. split; [exact Hcache|reflexivity].
Qed.

(** *** Which entry the scan prefers *)

(** The scan from a running candidate either keeps the candidate, every
    entry being at least as young, or moves to the first entry that is
    strictly older than everything before it and not younger than anything
    after it. *)
Lemma scan_shape m k0 t0 :
  (fold_left (@Cache.scan_step T) m (Some k0, Some t0) = (Some k0, Some t0) /\
   forall k' e', In (k', e') m -> t0 <= Cache.timestamp e') \/
  exists pre k e post,
    m = (pre ++ (k, e) :: post)%list /\
    fold_left (@Cache.scan_step T) m (Some k0, Some t0)
    = (Some k, Some (Cache.timestamp e)) /\
    Cache.timestamp e < t0 /\
    (forall k' e', In (k', e') pre -> Cache.timestamp e < Cache.timestamp e') /\
    (forall k' e', In (k', e') post -> Cache.timestamp e <= Cache.timestamp e').
Proof.
  revert k0 t0. induction m as [|[k1 e1] rest IH]; intros k0 t0.
  - left. split; [reflexivity|]. intros k' e' [].
  - cbn [fold_left Cache.scan_step snd].
    destruct (Z.ltb_spec (Cache.timestamp e1) t0) as [Hlt|Hge].
    + right. destruct (IH k1 (Cache.timestamp e1))
        as [[E Hall]|[pre [k [e [post [Hm [E [Ht [Hpre Hpost]]]]]]]]].
      * exists [], k1, e1, rest.
        split; [reflexivity|]. split; [exact E|]. split; [exact Hlt|].
        split; [intros k' e' []|exact Hall].
      * exists ((k1, e1) :: pre), k, e, post. subst rest.
        split; [reflexivity|]. split; [exact E|]. split; [lia|].
        split; [|exact Hpost].
        intros k' e' [[= <- <-]|HI]; [lia|now apply (Hpre k')].
    + destruct (IH k0 t0)
        as [[E Hall]|[pre [k [e [post [Hm [E [Ht [Hpre Hpost]]]]]]]]].
      * left. split; [exact E|].
        intros k' e' [[= <- <-]|HI]; [lia|now apply (Hall k')].
      * right. exists ((k1, e1) :: pre), k, e, post. subst rest.
        split; [reflexivity|]. split; [exact E|]. split; [exact Ht|].
        split; [|exact Hpost].
        intros k' e' [[= <- <-]|HI]; [lia|now apply (Hpre k')].
Qed.

(** The victim is the first of the entries with the least timestamp. *)
Lemma oldestKey_first m k :
  Cache.oldestKey m = Some k ->
  exists pre e post,
    m = (pre ++ (k, e) :: post)%list /\
    (forall k' e', In (k', e') pre -> Cache.timestamp e < Cache.timestamp e') /\
    (forall k' e', In (k', e') post -> Cache.timestamp e <= Cache.timestamp e').
Proof.
  unfold Cache.oldestKey, Cache.scan_oldest.
  destruct m as [|[k0 e0] rest]; [discriminate|].
  cbn [fold_left Cache.scan_step snd].
  destruct (scan_shape rest k0 (Cache.timestamp e0))
    as [[E Hall]|[pre [k1 [e1 [post [Hm [E [Ht [Hpre Hpost]]]]]]]]];
    rewrite E; cbn [fst]; intros [= <-].
  - exists [], e0, rest.
    split; [reflexivity|]. split; [intros k' e' []|exact Hall].
  - exists ((k0, e0) :: pre), e1, post. subst rest.
    split; [reflexivity|]. split; [|exact Hpost].
    intros k' e' [[= <- <-]|HI]; [lia|now apply (Hpre k')].
Qed.

Lemma NoDup_app_disjoint (l1 l2 : list string) (a : string) :
  NoDup (l1 ++ l2)%list -> In a l1 -> In a l2 -> False.
Proof.
  induction l1 as [|b l1 IH]; simpl; [tauto|].
  intros Hnd [->|HI] H2; inversion Hnd as [|? ? Hnot Hnd']; subst.
  - apply Hnot. apply in_app_iff. now right.
  - now apply IH.
Qed.

(** An entry that is outranked is not the one the scan names. *)
Lemma outranked_not_selected m key e :
  JsMap.wf m -> JsMap.get key m = Some e ->
  Cache.outranked key (Cache.timestamp e) m ->
  Cache.oldestKey m <> Some key.
Proof.
  intros Hwf Hget [kB [eB [Hne Hwhy]]] Hsel.
  destruct (oldestKey_first m key Hsel) as [pre [e' [post [Hm [Hpre Hpost]]]]].
  assert (e' = e).
  { assert (HI : In (key, e') m) by (rewrite Hm; apply in_elt).
    apply JsMapFacts.In_get in HI; [|exact Hwf]. congruence. }
  subst e'.
  destruct Hwhy as [[HI Hlt]|[Hle [pre' [post' [Hm' Hin]]]]].
  - rewrite Hm in HI. apply in_app_iff in HI.
    destruct HI as [HI|[[= E _]|HI]].
    + pose proof (Hpre kB eB HI). lia.
    + now apply Hne.
    + pose proof (Hpost kB eB HI). lia.
  - assert (HI : In (kB, eB) m) by (rewrite Hm'; apply in_elt).
    rewrite Hm in HI. apply in_app_iff in HI.
    destruct HI as [HI|[[= E _]|HI]].
    + pose proof (Hpre kB eB HI). lia.
    + now apply Hne.
    + (* kB lies after the key and the key after kB: the key occurs twice *)
      destruct (in_split _ _ HI) as [p1 [p2 Hp]].
      assert (E : ((pre ++ (key, e) :: p1) ++ (kB, eB) :: p2)%list
                  = (pre' ++ (kB, eB) :: post')%list).
      { rewrite <- Hm', Hm, Hp, <- app_assoc. reflexivity. }
      assert (Hnd : NoDup (JsMap.keys ((pre ++ (key, e) :: p1)
                                         ++ (kB, eB) :: p2)%list)).
      { rewrite <- app_assoc. cbn [app]. rewrite <- Hp, <- Hm. exact Hwf. }
      destruct (JsMapFacts.split_unique _ _ _ _ _ _ _ _ E Hnd) as [_ [_ Hpost']].
      subst post'.
      unfold JsMap.wf, JsMap.keys in Hwf. rewrite Hm, map_app in Hwf.
      apply NoDup_app_remove_l in Hwf. cbn [List.map fst] in Hwf.
      inversion Hwf as [|? ? Hnot _]; subst. apply Hnot.
      rewrite map_app, in_app_iff. right. cbn [List.map]. now right.
Qed.

(** Conversely, when the scan names another entry, that entry outranks
    every other one. *)
Lemma selected_outranks m key e victim :
  JsMap.wf m -> JsMap.get key m = Some e ->
  Cache.oldestKey m = Some victim -> victim <> key ->
  Cache.outranked key (Cache.timestamp e) m.
Proof.
  intros Hwf Hget Hsel Hne.
  destruct (oldestKey_first m victim Hsel) as [pre [eV [post [Hm [Hpre Hpost]]]]].
  exists victim, eV. split; [exact Hne|].
  assert (HI : In (key, e) m) by now apply JsMapFacts.get_In.
  rewrite Hm in HI. apply in_app_iff in HI.
  destruct HI as [HI|[[= E _]|HI]].
  - left. split; [rewrite Hm; apply in_elt|]. apply (Hpre key e HI).
  - now contradiction Hne.
  - right. split; [apply (Hpost key e HI)|].
    exists pre, post. split; [exact Hm|].
    unfold JsMap.keys. change key with (fst (key, e)). now apply in_map.
Qed.

(** An entry appended under another key does not make the scan name the
    key. *)
Lemma not_selected_snoc m key k e :
  Cache.oldestKey m <> Some key -> k <> key ->
  Cache.oldestKey (m ++ [(k, e)])%list <> Some key.
Proof.
  unfold Cache.oldestKey, Cache.scan_oldest. rewrite fold_left_app.
  cbn [fold_left Cache.scan_step].
  destruct (fold_left (@Cache.scan_step T) m (None, None)) as [ko [t|]];
    cbn [snd fst]; [destruct (Cache.timestamp e <? t)|]; cbn [fst];
    congruence.
Qed.

(** *** Insertions of new entries *)

Lemma evict_loop_wf fuel entrySize st st' :
  JsMap.wf (Cache.cache st) ->
  Cache.evict_loop fuel entrySize st = Some st' ->
  JsMap.wf (Cache.cache st').
Proof.
  intros Hwf Hl.
  apply (evict_loop_preserves (fun s => JsMap.wf (Cache.cache s)))
    with (fuel := fuel) (entrySize := entrySize) (st := st); auto.
  intros k s Hs. rewrite delete_cache. now apply JsMapFacts.delete_wf.
Qed.

Lemma evict_loop_length fuel entrySize st st' :
  Cache.evict_loop fuel entrySize st = Some st' ->
  (List.length (Cache.cache st') <= List.length (Cache.cache st))%nat.
Proof.
  intros Hl.
  apply (evict_loop_preserves
           (fun s => (List.length (Cache.cache s)
                      <= List.length (Cache.cache st))%nat))
    with (fuel := fuel) (entrySize := entrySize) (st := st); auto.
  intros k s Hs. rewrite delete_cache. unfold JsMap.delete.
  pose proof (filter_length_le
                (fun kv : string * Entry => negb (String.eqb k (fst kv)))
                (Cache.cache s)).
  lia.
Qed.

(** A pass of the loop in a call that returns removes the entry the scan
    names, which has the least timestamp of all. *)
Lemma evict_step fuel entrySize st st' :
  JsMap.wf (Cache.cache st) ->
  Cache.must_evict entrySize st = true ->
  Cache.evict_loop fuel entrySize (Cache.evictLeastRecentlyUsed st) = Some st' ->
  exists victim e,
    Cache.oldestKey (Cache.cache st) = Some victim /\
    In (victim, e) (Cache.cache st) /\
    (forall k' e', In (k', e') (Cache.cache st) ->
                   Cache.timestamp e <= Cache.timestamp e') /\
    Cache.evictLeastRecentlyUsed st = snd (Cache.delete victim st) /\
    List.length (Cache.cache st)
    = S (List.length (JsMap.delete victim (Cache.cache st))).
Proof.
  intros Hwf Hg Hl.
  destruct (evict_cases st) as [Hfix|[k [Hk [Hne Hev]]]].
  - rewrite Hfix in Hl. rewrite (evict_loop_stuck entrySize st Hg Hfix) in Hl.
    discriminate.
  - destruct (oldestKey_spec (Cache.cache st) (must_evict_nonempty _ _ Hg))
      as [k' [e [Hk' [HI Hmin]]]].
    assert (k' = k) by congruence. subst k'.
    exists k, e. repeat split; auto.
    apply (JsMapFacts.delete_length_nat _ (Cache.cache st) k e Hwf).
    now apply JsMapFacts.In_get.
Qed.

Lemma evict_loop_same_length fuel entrySize st st' :
  JsMap.wf (Cache.cache st) ->
  Cache.evict_loop fuel entrySize st = Some st' ->
  List.length (Cache.cache st') = List.length (Cache.cache st) ->
  st' = st.
Proof.
  intros Hwf. destruct fuel as [|fuel]; simpl;
    destruct (Cache.must_evict entrySize st) eqn:Hg; try discriminate;
    try (intros [= <-]; reflexivity).
  intros Hl Hlen.
  destruct (evict_step fuel entrySize st st' Hwf Hg Hl)
    as [victim [e [_ [_ [_ [Hev Hn]]]]]].
  rewrite Hev in Hl. apply evict_loop_length in Hl.
  rewrite delete_cache in Hl. lia.
Qed.

Lemma evict_loop_one_less fuel entrySize st st' :
  JsMap.wf (Cache.cache st) ->
  Cache.evict_loop fuel entrySize st = Some st' ->
  S (List.length (Cache.cache st')) = List.length (Cache.cache st) ->
  exists victim e,
    Cache.oldestKey (Cache.cache st) = Some victim /\
    In (victim, e) (Cache.cache st) /\
    (forall k' e', In (k', e') (Cache.cache st) ->
                   Cache.timestamp e <= Cache.timestamp e') /\
    st' = snd (Cache.delete victim st).
Proof.
  intros Hwf. destruct fuel as [|fuel]; simpl;
    destruct (Cache.must_evict entrySize st) eqn:Hg; try discriminate;
    try (intros [= <-]; lia).
  intros Hl Hlen.
  destruct (evict_step fuel entrySize st st' Hwf Hg Hl)
    as [victim [e [Hold [HI [Hmin [Hev Hn]]]]]].
  exists victim, e. repeat split; auto.
  rewrite Hev in Hl.
  apply (evict_loop_same_length fuel entrySize _ st'); auto.
  - rewrite delete_cache. now apply JsMapFacts.delete_wf.
  - rewrite delete_cache. lia.
Qed.

(** A returning [set] of a key that is not cached: nothing is evicted and
    the entry is appended; or one entry is evicted, the one the scan names;
    or two or more are. *)
Lemma set_new_key fuel now1 now2 key d ttl sz st st' :
  JsMap.wf (Cache.cache st) ->
  JsMap.get key (Cache.cache st) = None ->
  Cache.set JSON_stringify fuel now1 now2 key d ttl sz st = Some st' ->
  let entry :=
    Cache.mkEntry d now2 (Cache.Q_or sz (Cache.estimateSize JSON_stringify d))
      (now1 + Cache.Z_or ttl (Cache.defaultTTL (Cache.options st))) in
  JsMap.wf (Cache.cache st') /\
  (Cache.cache st' = (Cache.cache st ++ [(key, entry)])%list \/
   (exists victim e,
      Cache.oldestKey (Cache.cache st) = Some victim /\
      In (victim, e) (Cache.cache st) /\
      (forall k' e', In (k', e') (Cache.cache st) ->
                     Cache.timestamp e <= Cache.timestamp e') /\
      Cache.cache st'
      = (JsMap.delete victim (Cache.cache st) ++ [(key, entry)])%list /\
      List.length (Cache.cache st') = List.length (Cache.cache st)) \/
   (S (List.length (Cache.cache st')) <= List.length (Cache.cache st))%nat).
Proof.
  intros Hwf Hnew. unfold Cache.set, JsMap.has. rewrite Hnew.
  set (entrySize := Cache.Q_or sz (Cache.estimateSize JSON_stringify d)).
  destruct (Cache.evict_loop fuel entrySize st) as [st2|] eqn:Hl; [|discriminate].
  intros [= <-]. cbv zeta. cbn [Cache.cache Cache.with_cache].
  set (entry := Cache.mkEntry d now2 entrySize
                  (now1 + Cache.Z_or ttl (Cache.defaultTTL (Cache.options st)))).
  assert (Hwf2 : JsMap.wf (Cache.cache st2)) by (eapply evict_loop_wf; eauto).
  assert (Habs : JsMap.get key (Cache.cache st2) = None).
  { apply (evict_loop_preserves
             (fun s => JsMap.get key (Cache.cache s) = None))
      with (fuel := fuel) (entrySize := entrySize) (st := st); auto.
    intros k s Hs. now apply delete_keeps_absent. }
  pose proof (evict_loop_length fuel entrySize st st2 Hl) as Hlen.
  fold entry.
  split; [now apply JsMapFacts.set_wf|].
  rewrite (JsMapFacts.set_absent _ _ _ _ Habs).
  destruct (Nat.eq_dec (List.length (Cache.cache st2))
                       (List.length (Cache.cache st))) as [Hsame|Hdiff].
  - left. now rewrite (evict_loop_same_length fuel entrySize st st2 Hwf Hl Hsame).
  - right.
    destruct (Nat.eq_dec (S (List.length (Cache.cache st2)))
                         (List.length (Cache.cache st))) as [Hone|Hmore].
    + left.
      destruct (evict_loop_one_less fuel entrySize st st2 Hwf Hl Hone)
        as [victim [e [Hold [HI [Hmin ->]]]]].
      exists victim, e. rewrite delete_cache in *.
      repeat split; auto. rewrite length_app. simpl. lia.
    + right. rewrite length_app. simpl. lia.
Qed.

Lemma insert_new_length cs :
  forall st st2,
    JsMap.wf (Cache.cache st) ->
    Cache.insert_new JSON_stringify cs st = Some st2 ->
    JsMap.wf (Cache.cache st2) /\
    (List.length (Cache.cache st2)
     <= List.length (Cache.cache st) + List.length cs)%nat.
Proof.
  induction cs as [|c rest IH]; intros st st2 Hwf; simpl.
  - intros [= <-]. split; [exact Hwf|lia].
  - unfold JsMap.has.
    destruct (JsMap.get (Cache.c_key c) (Cache.cache st)) eqn:Hnew;
      [discriminate|].
    destruct (Cache.run_set JSON_stringify c st) as [st1|] eqn:Hs;
      [|discriminate].
    intros Hrest.
    destruct (set_new_key _ _ _ _ _ _ _ st st1 Hwf Hnew Hs) as [Hwf1 Hcases].
    destruct (IH st1 st2 Hwf1 Hrest) as [Hwf2 Hlen]. split; [exact Hwf2|].
    destruct Hcases as [E|[[v [e [_ [_ [_ [_ E]]]]]]|E]];
      [rewrite E, length_app in Hlen; simpl in Hlen| |]; lia.
Qed.

(** Insertions that evict nothing keep every entry. *)
Lemma insert_new_all_kept cs :
  forall st st2,
    JsMap.wf (Cache.cache st) ->
    Cache.insert_new JSON_stringify cs st = Some st2 ->
    List.length (Cache.cache st2)
    = (List.length (Cache.cache st) + List.length cs)%nat ->
    forall k e, JsMap.get k (Cache.cache st) = Some e ->
                JsMap.get k (Cache.cache st2) = Some e.
Proof.
  induction cs as [|c rest IH]; intros st st2 Hwf; simpl.
  - intros [= <-] _ k e H. exact H.
  - unfold JsMap.has.
    destruct (JsMap.get (Cache.c_key c) (Cache.cache st)) eqn:Hnew;
      [discriminate|].
    destruct (Cache.run_set JSON_stringify c st) as [st1|] eqn:Hs;
      [|discriminate].
    intros Hrest Hlen k e Hk.
    destruct (set_new_key _ _ _ _ _ _ _ st st1 Hwf Hnew Hs) as [Hwf1 Hcases].
    destruct (insert_new_length rest st1 st2 Hwf1 Hrest) as [_ Hle].
    destruct Hcases as [E|[[v [e' [_ [_ [_ [_ E]]]]]]|E]]; try lia.
    apply (IH st1 st2 Hwf1 Hrest).
    + rewrite E, length_app. simpl. lia.
    + rewrite E, JsMapFacts.get_app, Hk. reflexivity.
Qed.

(** Insertions that evict one entry in all keep an entry that the scan
    does not name. *)
Lemma insert_new_one_eviction cs :
  forall st st2 kA eA,
    JsMap.wf (Cache.cache st) ->
    Cache.insert_new JSON_stringify cs st = Some st2 ->
    S (List.length (Cache.cache st2))
    = (List.length (Cache.cache st) + List.length cs)%nat ->
    JsMap.get kA (Cache.cache st) = Some eA ->
    Cache.oldestKey (Cache.cache st) <> Some kA ->
    JsMap.get kA (Cache.cache st2) = Some eA.
Proof.
  induction cs as [|c rest IH]; intros st st2 kA eA Hwf; simpl.
  - intros [= <-]. lia.
  - unfold JsMap.has.
    destruct (JsMap.get (Cache.c_key c) (Cache.cache st)) eqn:Hnew;
      [discriminate|].
    destruct (Cache.run_set JSON_stringify c st) as [st1|] eqn:Hs;
      [|discriminate].
    intros Hrest Hlen HA Hsel.
    destruct (set_new_key _ _ _ _ _ _ _ st st1 Hwf Hnew Hs) as [Hwf1 Hcases].
    destruct (insert_new_length rest st1 st2 Hwf1 Hrest) as [_ Hle].
    destruct Hcases as [E|[[v [e [Hv [_ [_ [E En]]]]]]|E]]; try lia.
    + apply (IH st1 st2 kA eA Hwf1 Hrest).
      * rewrite E, length_app. simpl. lia.
      * rewrite E, JsMapFacts.get_app, HA. reflexivity.
      * rewrite E. apply not_selected_snoc; [exact Hsel|]. congruence.
    + apply (insert_new_all_kept rest st1 st2 Hwf1 Hrest); [lia|].
      assert (Hne : v <> kA) by congruence.
      rewrite E, JsMapFacts.get_app, JsMapFacts.get_delete_other, HA by exact Hne.
      reflexivity.
Qed.

(** *** Sizes on which the arithmetic of doubles is exact *)

Lemma quarters_plus (a b : Q) :
  Cache.quarters a -> Cache.quarters b -> Cache.quarters (a + b).
Proof.
  intros [x Hx] [y Hy]. exists (x + y). rewrite inject_Z_plus. lra.
Qed.

Lemma quarters_minus (a b : Q) :
  Cache.quarters a -> Cache.quarters b -> Cache.quarters (a - b).
Proof.
  intros [x Hx] [y Hy]. exists (x + - y).
  rewrite inject_Z_plus, inject_Z_opp. lra.
Qed.

Lemma quarters_eq (a b : Q) :
  (a == b)%Q -> Cache.quarters a -> Cache.quarters b.
Proof. intros E [x Hx]. exists x. lra. Qed.

Lemma sum_sizes_quarters m :
  (forall k e, In (k, e) m -> Cache.quarters (Cache.size e)) ->
  Cache.quarters (Cache.sum_sizes m).
Proof.
  induction m as [|[k e] rest IH]; simpl; intros H.
  - exists 0. reflexivity.
  - apply quarters_plus.
    + apply (H k). now left.
    + apply IH. intros k' e' HI. apply (H k'). now right.
Qed.

Lemma sum_sizes_member m k e :
  (forall k' e', In (k', e') m -> (0 <= Cache.size e')%Q) ->
  In (k, e) m -> (Cache.size e <= Cache.sum_sizes m)%Q.
Proof.
  induction m as [|[k0 e0] rest IH]; simpl; intros H; [tauto|].
  assert (H0 : (0 <= Cache.size e0)%Q) by (apply (H k0); now left).
  assert (Hr : forall k' e', In (k', e') rest -> (0 <= Cache.size e')%Q)
    by (intros k' e' HI; apply (H k'); now right).
  pose proof (sum_sizes_nonneg rest Hr) as Hnn.
  intros [[= <- <-]|HI]; [lra|].
  pose proof (IH Hr HI). lra.
Qed.

Lemma double_limit : (inject_Z (2 ^ 50) + inject_Z (2 ^ 50) == inject_Z (2 ^ 51))%Q.
Proof. reflexivity. Qed.

(** In an exact state the counter itself is an exact size. *)
Lemma exact_state_counter st :
  Cache.exact_state st -> Cache.exact_size (Cache.currentSize st).
Proof.
  intros [[Hwf Hsum] [[_ [Hm0 Hm1]] [Hsz Hb]]].
  assert (Hnn : (0 <= Cache.sum_sizes (Cache.cache st))%Q).
  { apply sum_sizes_nonneg. intros k e HI. apply (Hsz k e HI). }
  split; [|split].
  - apply (quarters_eq (Cache.sum_sizes (Cache.cache st))); [lra|].
    apply sum_sizes_quarters. intros k e HI. apply (Hsz k e HI).
  - lra.
  - destruct Hb as [Hle|Hlen]; [lra|].
    unfold Cache.sum_sizes in Hsum.
    destruct (Cache.cache st) as [|[k e] [|kv rest]];
      cbn [fold_right snd List.length] in Hsum, Hlen.
    + lra.
    + destruct (Hsz k e) as [_ [_ H1]]; [now left|]. lra.
    + lia.
Qed.

Lemma new_exact o :
  Cache.exact_size (Cache.maxSize (Cache.options (Cache.new_CacheService T o))) ->
  Cache.exact_state (Cache.new_CacheService T o).
Proof.
  intros Hm. split; [apply new_consistent|]. split; [exact Hm|]. split.
  - simpl. tauto.
  - right. simpl. lia.
Qed.

Lemma clear_exact st : Cache.exact_state st -> Cache.exact_state (Cache.clear st).
Proof.
  intros [_ [Hm _]]. split; [apply clear_consistent|]. split; [exact Hm|]. split.
  - simpl. tauto.
  - right. simpl. lia.
Qed.

Lemma delete_exact key st :
  Cache.exact_state st -> Cache.exact_state (snd (Cache.delete key st)).
Proof.
  intros [Hc [Hm [Hsz Hb]]].
  split; [now apply delete_consistent|].
  split; [now rewrite delete_options|]. split.
  - intros k e HI. rewrite delete_cache in HI. apply filter_In in HI.
    apply (Hsz k e). tauto.
  - destruct Hb as [Hle|Hlen].
    + left. rewrite delete_options. unfold Cache.delete.
      destruct (JsMap.get key (Cache.cache st)) as [e|] eqn:E; simpl; [|exact Hle].
      destruct (Hsz key e) as [_ [H0 _]]; [now apply JsMapFacts.get_In|]. lra.
    + right. rewrite delete_cache. unfold JsMap.delete.
      pose proof (filter_length_le
                    (fun kv : string * Entry => negb (String.eqb key (fst kv)))
                    (Cache.cache st)).
      lia.
Qed.

Lemma set_exact fuel now1 now2 key d ttl sz st st' :
  Cache.exact_state st ->
  Cache.exact_size (Cache.Q_or sz (Cache.estimateSize JSON_stringify d)) ->
  Cache.set JSON_stringify fuel now1 now2 key d ttl sz st = Some st' ->
  Cache.exact_state st'.
Proof.
  intros [Hc [Hm [Hsz Hb]]] He Hs.
  pose (P := fun s : Service =>
               forall k e, In (k, e) (Cache.cache s) ->
                           Cache.exact_size (Cache.size e)).
  destruct (set_inversion_with P fuel now1 now2 key d ttl sz st st')
    as [st2 [HP2 [_ [_ [_ [_ [Hcache [_ Hopt]]]]]]]]; auto.
  { intros k s Hs0 k' e' HI. rewrite delete_cache in HI.
    apply filter_In in HI. apply (Hs0 k'). tauto. }
  split; [eapply set_consistent; eauto|].
  split; [now rewrite Hopt|]. split.
  - intros k e HI. rewrite Hcache in HI. apply in_app_iff in HI.
    destruct HI as [HI|[[= <- <-]|[]]]; [now apply (HP2 k)|exact He].
  - destruct (set_bound fuel now1 now2 key d ttl sz st st' Hc Hs)
      as [Hle|[e [E _]]]; [now left|].
    right. rewrite E. simpl. lia.
Qed.

Lemma get_exact now1 now2 key st :
  Cache.exact_state st -> Cache.exact_state (snd (Cache.get now1 now2 key st)).
Proof.
  intros Hx. pose proof Hx as [Hc [Hm [Hsz Hb]]].
  pose proof (get_consistent now1 now2 key st Hc) as Hg.
  revert Hg. unfold Cache.get.
  destruct (JsMap.get key (Cache.cache st)) as [e|] eqn:E; [|intros _; exact Hx].
  destruct (now1 >? Cache.expires e); [intros _; now apply delete_exact|].
  cbn [snd]. intros Hg. split; [exact Hg|]. split; [exact Hm|]. split.
  - cbn [Cache.cache Cache.with_cache]. intros k' e' HI.
    apply JsMapFacts.In_set in HI. destruct HI as [[_ ->]|HI].
    + simpl. apply (Hsz key e). now apply JsMapFacts.get_In.
    + now apply (Hsz k').
  - destruct Hb as [Hle|Hlen]; [now left|]. right.
    cbn [Cache.cache Cache.with_cache].
    pose proof (JsMapFacts.set_length_present _ (Cache.cache st) key
                  (Cache.touch now2 e) e E) as Hl.
    unfold JsMap.size in Hl. lia.
Qed.

Lemma has_exact now key st :
  Cache.exact_state st -> Cache.exact_state (snd (Cache.has now key st)).
Proof.
  intros Hx. unfold Cache.has.
  destruct (JsMap.get key (Cache.cache st)) as [e|]; [|exact Hx].
  destruct (now >? Cache.expires e); [now apply delete_exact|exact Hx].
Qed.

Lemma cleanup_exact now st :
  Cache.exact_state st -> Cache.exact_state (Cache.cleanup now st).
Proof.
  unfold Cache.cleanup.
  generalize (List.map fst (filter (fun kv : string * Entry =>
                                 now >? Cache.expires (snd kv)) (Cache.cache st))).
  intros ks. revert st. induction ks as [|k ks IH]; intros st Hx; simpl.
  - exact Hx.
  - apply IH. now apply delete_exact.
Qed.

(** The sizes the engine estimates are exact, for every payload whose
    serialisation has at most 2^49 characters. *)
Lemma estimateSize_exact d :
  match JSON_stringify d with
  | Some jsonString => Z.of_nat (String.length jsonString) <= 2 ^ 49
  | None => True
  end ->
  Cache.exact_size (Cache.estimateSize JSON_stringify d).
Proof.
  unfold Cache.estimateSize, Cache.exact_size, Cache.quarters.
  destruct (JSON_stringify d) as [jsonString|]; intros H.
  - split; [|split].
    + exists (Z.of_nat (String.length jsonString) * 2 * 4).
      rewrite (inject_Z_mult _ 4). reflexivity.
    + change 0%Q with (inject_Z 0). rewrite <- Zle_Qle. lia.
    + rewrite <- Zle_Qle. lia.
  - split; [exists 4096; reflexivity|]. split; vm_compute; discriminate.
Qed.

Lemma reachable_exact_state o st :
  Cache.reachable_exact JSON_stringify o st -> Cache.exact_state st.
Proof.
  induction 1 as [Hm|st op st' _ IH Hop Hrun].
  - now apply new_exact.
  - destruct op; simpl in Hrun, Hop;
      try (injection Hrun as <-).
    + eapply set_exact; eauto.
    + now apply get_exact.
    + now apply has_exact.
    + now apply delete_exact.
    + now apply clear_exact.
    + now apply cleanup_exact.
Qed.
End Facts.

(** So are the sizes the image cache estimates, for every data URL whose
    payload has at most 2^50 characters. *)
Lemma estimateImageSize_exact dataUrl :
  match nth_error (Js.split "," dataUrl) 1 with
  | Some base64String => Z.of_nat (String.length base64String) <= 2 ^ 50
  | None => True
  end ->
  Cache.exact_size (ImageCache.estimateImageSize dataUrl).
Proof.
  unfold ImageCache.estimateImageSize, Cache.exact_size, Cache.quarters.
  destruct (nth_error (Js.split "," dataUrl) 1) as [b|]; intros H.
  - destruct (String.eqb b "").
    + split; [exists 4096; reflexivity|]. split; vm_compute; discriminate.
    + split; [|split].
      * exists (Z.of_nat (String.length b) * 3).
        unfold Qeq. simpl. lia.
      * unfold Qle. simpl. lia.
      * unfold Qle. cbn [Qnum Qden inject_Z]. lia.
  - split; [exists 4096; reflexivity|]. split; vm_compute; discriminate.
Qed.
End CacheFacts.


(** ** Properties of the cache engine *)

Module CacheProps.
Lemma exact_400 : Cache.exact_size (inject_Z 400).
Proof.
  split; [exists 1600; reflexivity|]. split; vm_compute; discriminate.
Defined.

Lemma with_k1_k2_reachable :
  Cache.reachable_exact CacheScenarios.stringify (CacheScenarios.budget 1000)
                        CacheScenarios.with_k1_k2.
Proof.
  apply Cache.reachx_op
    with (st := CacheScenarios.with_k1)
         (op := Cache.OpSet 8 2 2 "k2" "k2" None (Some (inject_Z 400)));
    [|exact exact_400|reflexivity].
  apply Cache.reachx_op
    with (st := CacheScenarios.fresh1000)
         (op := Cache.OpSet 8 1 1 "k1" "k1" None (Some (inject_Z 400)));
    [|exact exact_400|reflexivity].
  apply Cache.reachx_new.
  split; [exists 4000; reflexivity|]. split; vm_compute; discriminate.
Defined.

Section Props.
Variable T : Type.
Variable JSON_stringify : T -> option string.

#[local] Abbreviation Service := (Cache.CacheService T).

(** C1, amended.  Take a cache whose [maxSize] and whose entry sizes, given
    or estimated, are whole numbers of quarter-bytes between 0 and 2^50
    bytes; the sizes that [estimateSize] and [estimateImageSize] produce
    are of this kind.  In every state reached from the new cache by [set], [get], [has],
    [delete], [clear] and sweeps, which includes the states inside the loop
    of [set], [currentSize] is the sum of the sizes of the live entries.
    Every number the engine computes is again a whole number of
    quarter-bytes in a range where doubles are exact: the counter and the
    differences [currentSize - entry.size] lie between 0 and 2^50, the sums
    [currentSize + entrySize] between 0 and 2^51.  After every [set] that
    returns, the counter is again the sum and is at most [maxSize], unless
    the entry just stored is the only one left and is itself larger than
    [maxSize]. *)
Theorem size_invariant (o : Cache.PartialCacheOptions) (st : Service) :
  Cache.reachable_exact JSON_stringify o st ->
  (Cache.currentSize st == Cache.sum_sizes (Cache.cache st))%Q /\
  Cache.exact_size (Cache.currentSize st) /\
  (forall k e, In (k, e) (Cache.cache st) ->
     Cache.exact_size (Cache.size e) /\
     Cache.exact_size (Cache.currentSize st - Cache.size e)) /\
  forall now1 now2 key d ttl sz,
    Cache.exact_size (Cache.Q_or sz (Cache.estimateSize JSON_stringify d)) ->
    Cache.quarters
      (Cache.currentSize st
       + Cache.Q_or sz (Cache.estimateSize JSON_stringify d)) /\
    (0 <= Cache.currentSize st
          + Cache.Q_or sz (Cache.estimateSize JSON_stringify d)
       <= inject_Z (2 ^ 51))%Q /\
    forall st',
      Cache.set_returns JSON_stringify now1 now2 key d ttl sz st st' ->
      (Cache.currentSize st' == Cache.sum_sizes (Cache.cache st'))%Q /\
      ((Cache.currentSize st' <= Cache.maxSize (Cache.options st'))%Q \/
       exists e, Cache.cache st' = [(key, e)] /\
                 (Cache.maxSize (Cache.options st') < Cache.size e)%Q).
Proof.
  intros Hreach.
  pose proof (CacheFacts.reachable_exact_state T JSON_stringify o st Hreach)
    as Hx.
  pose proof (CacheFacts.exact_state_counter T st Hx) as [Hq [H0 H1]].
  destruct Hx as [Hc [Hm [Hsz Hb]]].
  split; [apply Hc|]. split; [repeat split; assumption|]. split.
  - intros k e HI. destruct (Hsz k e HI) as [Hqe [He0 He1]].
    split; [repeat split; assumption|].
    assert (Hle : (Cache.size e <= Cache.sum_sizes (Cache.cache st))%Q).
    { apply (CacheFacts.sum_sizes_member T (Cache.cache st) k e); [|exact HI].
      intros k' e' HI'. apply (Hsz k' e' HI'). }
    destruct Hc as [_ Hsum].
    split; [now apply CacheFacts.quarters_minus|]. split; lra.
  - intros now1 now2 key d ttl sz [Hqe [He0 He1]].
    split; [now apply CacheFacts.quarters_plus|].
    split; [pose proof CacheFacts.double_limit; lra|].
    intros st' [fuel Hset]. split.
    + apply (CacheFacts.set_consistent T JSON_stringify
               fuel now1 now2 key d ttl sz st st' Hc Hset).
    + apply (CacheFacts.set_bound T JSON_stringify
               fuel now1 now2 key d ttl sz st st' Hc Hset).
Qed.

(** C6. When the clock is strictly past the expiry of the entry under a
    key, [get] answers [null] and [has] answers [false], either call
    removes the entry, and [size()] is one less afterwards; and whenever
    [get] hands back a value, the clock it tested was not past the expiry
    of the entry. *)
Theorem lazy_expiry (st : Service) (key : string)
        (e : Cache.CacheEntry T) (now : Z) :
  JsMap.wf (Cache.cache st) ->
  JsMap.get key (Cache.cache st) = Some e ->
  now > Cache.expires e ->
  (forall now2,
      fst (Cache.get now now2 key st) = None /\
      JsMap.get key (Cache.cache (snd (Cache.get now now2 key st))) = None /\
      Cache.size_ (snd (Cache.get now now2 key st)) = Cache.size_ st - 1) /\
  (fst (Cache.has now key st) = false /\
   JsMap.get key (Cache.cache (snd (Cache.has now key st))) = None /\
   Cache.size_ (snd (Cache.has now key st)) = Cache.size_ st - 1) /\
  (forall now1 now2 v,
      fst (Cache.get now1 now2 key st) = Some v ->
      now1 <= Cache.expires e /\ v = Cache.data e).
Proof.
  intros Hwf Hget Hnow.
  assert (Hgt : (now >? Cache.expires e) = true) by (apply Z.gtb_lt; lia).
  assert (Hdel : JsMap.get key (Cache.cache (snd (Cache.delete key st))) = None
                 /\ Cache.size_ (snd (Cache.delete key st)) = Cache.size_ st - 1).
  { unfold Cache.size_. rewrite CacheFacts.delete_cache. split.
    - apply JsMapFacts.get_delete_same.
    - now apply JsMapFacts.delete_length with (v := e). }
  repeat split; try (intros now1 now2 v H).
  - unfold Cache.get. now rewrite Hget, Hgt.
  - unfold Cache.get. rewrite Hget, Hgt. apply Hdel.
  - unfold Cache.get. rewrite Hget, Hgt. apply Hdel.
  - unfold Cache.has. now rewrite Hget, Hgt.
  - unfold Cache.has. rewrite Hget, Hgt. apply Hdel.
  - unfold Cache.has. rewrite Hget, Hgt. apply Hdel.
  - revert H. unfold Cache.get. rewrite Hget.
    destruct (Z.gtb_spec now1 (Cache.expires e)); [discriminate|lia].
  - revert H. unfold Cache.get. rewrite Hget.
    destruct (now1 >? Cache.expires e); simpl; congruence.
Qed.

(** C5, amended.  Let a [get] of A succeed; A then carries the time the
    read wrote.  If the cache holds an entry under another key that is
    strictly older than that time, or no younger and placed before A in the
    order of the map, then the scan of the eviction names an entry other
    than A, with the least timestamp of all; a [set] of a new key that
    returns having evicted exactly one entry has removed that entry and
    kept every other; and however many new entries are inserted, by calls
    that return and evict exactly one entry between them, A is still
    cached with the timestamp of the read.  If the cache holds no such
    entry, the scan names A, and a [set] of a new key that evicts exactly
    one entry removes A. *)
Theorem read_refreshes_recency (st st1 : Service) (keyA : string) (vA : T)
        (now1 now2 : Z) :
  JsMap.wf (Cache.cache st) ->
  Cache.get now1 now2 keyA st = (Some vA, st1) ->
  exists eA,
    JsMap.get keyA (Cache.cache st1) = Some eA /\
    Cache.data eA = vA /\ Cache.timestamp eA = now2 /\
    (Cache.outranked keyA now2 (Cache.cache st1) ->
     exists victim eV,
       Cache.oldestKey (Cache.cache st1) = Some victim /\
       victim <> keyA /\
       In (victim, eV) (Cache.cache st1) /\
       (forall k e, In (k, e) (Cache.cache st1) ->
                    Cache.timestamp eV <= Cache.timestamp e) /\
       (forall fuel s1 s2 key d ttl sz st2,
          JsMap.get key (Cache.cache st1) = None ->
          Cache.set JSON_stringify fuel s1 s2 key d ttl sz st1 = Some st2 ->
          Cache.size_ st2 = Cache.size_ st1 ->
          JsMap.get victim (Cache.cache st2) = None /\
          JsMap.has key (Cache.cache st2) = true /\
          forall k e, k <> victim ->
                      JsMap.get k (Cache.cache st1) = Some e ->
                      JsMap.get k (Cache.cache st2) = Some e) /\
       (forall cs st2,
          Cache.insert_new JSON_stringify cs st1 = Some st2 ->
          Cache.size_ st2 = Cache.size_ st1 + Z.of_nat (List.length cs) - 1 ->
          JsMap.get keyA (Cache.cache st2) = Some eA)) /\
    (~ Cache.outranked keyA now2 (Cache.cache st1) ->
     Cache.oldestKey (Cache.cache st1) = Some keyA /\
     forall fuel s1 s2 key d ttl sz st2,
       JsMap.get key (Cache.cache st1) = None ->
       Cache.set JSON_stringify fuel s1 s2 key d ttl sz st1 = Some st2 ->
       Cache.size_ st2 = Cache.size_ st1 ->
       JsMap.get keyA (Cache.cache st2) = None).
Proof.
  intros Hwf Hget.
  unfold Cache.get in Hget.
  destruct (JsMap.get keyA (Cache.cache st)) as [eA0|] eqn:EA; [|discriminate].
  destruct (now1 >? Cache.expires eA0); [discriminate|].
  injection Hget as <- <-.
  set (m1 := JsMap.set keyA (Cache.touch now2 eA0) (Cache.cache st)).
  set (stR := Cache.with_cache st m1 (Cache.currentSize st)).
  change (Cache.cache stR) with m1.
  assert (Hwf1 : JsMap.wf m1) by now apply JsMapFacts.set_wf.
  assert (HA1 : JsMap.get keyA m1 = Some (Cache.touch now2 eA0))
    by apply JsMapFacts.get_set_same.
  assert (Hne1 : m1 <> []) by (intros E; rewrite E in HA1; discriminate).
  destruct (CacheFacts.oldestKey_spec T m1 Hne1) as [victim [eV [Hold [HIn Hmin]]]].
  assert (Hone : forall fuel s1 s2 key d ttl sz st2,
             JsMap.get key m1 = None ->
             Cache.set JSON_stringify fuel s1 s2 key d ttl sz stR = Some st2 ->
             Cache.size_ st2 = Cache.size_ stR ->
             JsMap.get victim (Cache.cache st2) = None /\
             JsMap.has key (Cache.cache st2) = true /\
             forall k e, k <> victim ->
                         JsMap.get k m1 = Some e ->
                         JsMap.get k (Cache.cache st2) = Some e).
  { intros fuel s1 s2 key d ttl sz st2 Hnew Hset Hsize.
    destruct (CacheFacts.set_new_key T JSON_stringify fuel s1 s2 key d ttl sz
                stR st2 Hwf1 Hnew Hset) as [_ Hcases].
    change (Cache.cache stR) with m1 in Hcases.
    unfold Cache.size_, JsMap.size in Hsize.
    change (Cache.cache stR) with m1 in Hsize.
    destruct Hcases as [E|[[v [e [Hv [HIv [_ [E _]]]]]]|E]].
    - rewrite E, length_app in Hsize. simpl in Hsize. lia.
    - assert (v = victim) by congruence. subst v.
      assert (HkV : victim <> key).
      { intros ->. apply JsMapFacts.In_get in HIv; [|exact Hwf1]. congruence. }
      rewrite E. unfold JsMap.has. rewrite !JsMapFacts.get_app.
      rewrite JsMapFacts.get_delete_same.
      rewrite JsMapFacts.get_delete_other by exact HkV. rewrite Hnew.
      simpl. rewrite String.eqb_refl.
      destruct (String.eqb_spec victim key); [contradiction|].
      split; [reflexivity|]. split; [reflexivity|].
      intros k e0 Hk Hk0. rewrite JsMapFacts.get_app.
      rewrite JsMapFacts.get_delete_other by auto. now rewrite Hk0.
    - lia. }
  exists (Cache.touch now2 eA0).
  split; [exact HA1|]. split; [reflexivity|]. split; [reflexivity|]. split.
  - intros Hout.
    assert (Hsel : Cache.oldestKey m1 <> Some keyA).
    { apply (CacheFacts.outranked_not_selected T m1 keyA
               (Cache.touch now2 eA0) Hwf1 HA1 Hout). }
    exists victim, eV.
    split; [exact Hold|]. split; [congruence|]. split; [exact HIn|].
    split; [exact Hmin|]. split; [exact Hone|].
    intros cs st2 Hins Hsize.
    apply (CacheFacts.insert_new_one_eviction T JSON_stringify cs stR st2
             keyA (Cache.touch now2 eA0) Hwf1 Hins); auto.
    unfold Cache.size_, JsMap.size in Hsize.
    change (Cache.cache stR) with m1 in *. lia.
  - intros Hnot.
    assert (Hsel : victim = keyA).
    { destruct (String.eqb_spec victim keyA) as [E|Hne]; [exact E|].
      exfalso. apply Hnot.
      apply (CacheFacts.selected_outranks T m1 keyA (Cache.touch now2 eA0)
               victim Hwf1 HA1 Hold Hne). }
    subst victim. split; [exact Hold|].
    intros fuel s1 s2 key d ttl sz st2 Hnew Hset Hsize.
    apply (Hone fuel s1 s2 key d ttl sz st2 Hnew Hset Hsize).
Qed.
End Props.

(** C1, amended, at the cache holding k1 and k2 (400 bytes each, budget
    1000), for the [set] of k3. *)
Lemma size_invariant_witness :
  (Cache.currentSize CacheScenarios.with_k1_k2
   == Cache.sum_sizes (Cache.cache CacheScenarios.with_k1_k2))%Q /\
  Cache.exact_size (Cache.currentSize CacheScenarios.with_k1_k2) /\
  (Cache.currentSize CacheScenarios.with_k2_k3
   == Cache.sum_sizes (Cache.cache CacheScenarios.with_k2_k3))%Q /\
  ((Cache.currentSize CacheScenarios.with_k2_k3
    <= Cache.maxSize (Cache.options CacheScenarios.with_k2_k3))%Q \/
   exists e, Cache.cache CacheScenarios.with_k2_k3 = [("k3", e)] /\
             (Cache.maxSize (Cache.options CacheScenarios.with_k2_k3)
              < Cache.size e)%Q).
Proof.
  destruct (size_invariant string CacheScenarios.stringify
              (CacheScenarios.budget 1000) CacheScenarios.with_k1_k2
              with_k1_k2_reachable) as [H1 [H2 [_ H3]]].
  split; [exact H1|]. split; [exact H2|].
  destruct (H3 3 3 "k3" "k3" None (Some (inject_Z 400)) exact_400)
    as [_ [_ H4]].
  apply H4. exists 8%nat. reflexivity.
Defined.

(** C6 at the cache holding k1 and k2, read long after both expired. *)
Lemma lazy_expiry_witness :
  fst (Cache.get 100000000 100000000 "k1" CacheScenarios.with_k1_k2) = None /\
  fst (Cache.has 100000000 "k1" CacheScenarios.with_k1_k2) = false /\
  Cache.size_ (snd (Cache.has 100000000 "k1" CacheScenarios.with_k1_k2)) = 1.
Proof.
  destruct (lazy_expiry string CacheScenarios.with_k1_k2 "k1"
              (Cache.mkEntry "k1" 1 (inject_Z 400) 86400001) 100000000)
    as [Hg [Hh _]].
  - unfold JsMap.wf. simpl. repeat constructor; simpl; intuition discriminate.
  - reflexivity.
  - simpl. lia.
  - split; [apply (Hg 100000000)|]. split; [apply Hh|].
    destruct Hh as [_ [_ ->]]. reflexivity.
Defined.

(** The end-to-end scenario of the specification: budget 1000, three
    entries of 400 bytes stored as k1, k2, k3; k1 is evicted. *)
Example three_entries_evict_first :
  CacheScenarios.put 3 "k3" 400 CacheScenarios.with_k1_k2
    = Some CacheScenarios.with_k2_k3 /\
  JsMap.has "k1" (Cache.cache CacheScenarios.with_k2_k3) = false /\
  JsMap.has "k2" (Cache.cache CacheScenarios.with_k2_k3) = true /\
  JsMap.has "k3" (Cache.cache CacheScenarios.with_k2_k3) = true.
Proof. repeat split; reflexivity. Qed.

(** C5 as stated fails on a tie.  A was stored at time 1 and B at time 2,
    so A is the oldest; A is read at time 2, a third entry then forces
    exactly one eviction, and the entry evicted is A. *)
Lemma read_then_evicted_counterexample :
  Cache.oldestKey (Cache.cache CacheScenarios.with_A_B) = Some "A" /\
  Cache.get 2 2 "A" CacheScenarios.with_A_B
    = (Some "A", CacheScenarios.after_read_A_at_2) /\
  CacheScenarios.put 3 "C" 5 CacheScenarios.after_read_A_at_2
    = Some CacheScenarios.after_tie_insert /\
  Cache.size_ CacheScenarios.after_read_A_at_2 = 2 /\
  Cache.size_ CacheScenarios.after_tie_insert = 2 /\
  JsMap.has "A" (Cache.cache CacheScenarios.after_tie_insert) = false /\
  JsMap.has "B" (Cache.cache CacheScenarios.after_tie_insert) = true /\
  JsMap.has "C" (Cache.cache CacheScenarios.after_tie_insert) = true.
Proof. repeat split; reflexivity. Qed.

(** C5, amended, with a tie that does not matter: A stored at time 1, B at
    2 and C at 3, A read at time 3.  B is strictly older than the read; E
    then fits without an eviction, D evicts one entry, which is B, and A
    stays. *)
Lemma read_refreshes_recency_witness :
  Cache.insert_new CacheScenarios.stringify
    [CacheScenarios.call 4 "E" 1; CacheScenarios.call 5 "D" 3]
    CacheScenarios.three_read_A
  = Some CacheScenarios.three_E_D /\
  Cache.oldestKey (Cache.cache CacheScenarios.three_read_A) = Some "B" /\
  Cache.keys CacheScenarios.three_E_D = ["A"; "C"; "E"; "D"] /\
  exists eA,
    JsMap.get "A" (Cache.cache CacheScenarios.three_E_D) = Some eA /\
    Cache.data eA = "A" /\ Cache.timestamp eA = 3.
Proof.
  destruct (read_refreshes_recency string CacheScenarios.stringify
              CacheScenarios.three_A_B_C CacheScenarios.three_read_A
              "A" "A" 3 3)
    as [eA [_ [Hd [Ht [Hkeep _]]]]].
  - unfold JsMap.wf. simpl. repeat constructor; simpl; intuition discriminate.
  - reflexivity.
  - destruct Hkeep as [victim [eV [_ [_ [_ [_ [_ Hmany]]]]]]].
    + exists "B", (Cache.mkEntry "B" 2 (inject_Z 3) 86400002).
      split; [discriminate|]. left. split; [simpl; tauto|simpl; lia].
    + split; [reflexivity|]. split; [reflexivity|]. split; [reflexivity|].
      exists eA. split; [|split; [exact Hd|exact Ht]].
      apply (Hmany [CacheScenarios.call 4 "E" 1; CacheScenarios.call 5 "D" 3]);
        reflexivity.
Defined.

(** C9: the code at a failing input.  A cache with budget 10 accepts an
    entry of 6 bytes under the empty string; the next [set], of 6 bytes
    under another key, must evict, the scan names the empty string, the
    truthiness test skips the removal, and the loop never ends. *)
Theorem set_hangs_behind_empty_key :
  CacheScenarios.put 1 "" 6 CacheScenarios.fresh10
    = Some CacheScenarios.with_empty_key_6 /\
  Cache.evictLeastRecentlyUsed CacheScenarios.with_empty_key_6
    = CacheScenarios.with_empty_key_6 /\
  Cache.set_diverges CacheScenarios.stringify 2 2 "k" "v" None
                     (Some (inject_Z 6)) CacheScenarios.with_empty_key_6.
Proof.
  split; [reflexivity|]. split; [reflexivity|].
  apply CacheFacts.set_diverges_behind_empty_key; reflexivity.
Qed.

(** C8: the code at a failing input.  With budget 10 and 4 bytes stored
    under the empty string, a [set] of 20 bytes, more than the whole
    budget, never returns, so the oversized entry is not stored. *)
Theorem oversized_set_hangs_behind_empty_key :
  CacheScenarios.put 1 "" 4 CacheScenarios.fresh10
    = Some CacheScenarios.with_empty_key_4 /\
  (Cache.maxSize (Cache.options CacheScenarios.with_empty_key_4)
   < inject_Z 20)%Q /\
  Cache.set_diverges CacheScenarios.stringify 2 2 "big" "v" None
                     (Some (inject_Z 20)) CacheScenarios.with_empty_key_4.
Proof.
  split; [reflexivity|]. split; [reflexivity|].
  apply CacheFacts.set_diverges_behind_empty_key; reflexivity.
Qed.
End CacheProps.

(** ** The counter on sizes that are not whole quarter-bytes *)

Module Cache64Props.
Import PrimFloat Cache64Scenarios.

(** C1 as stated fails for sizes on which doubles round.  With [maxSize]
    0.35, a of 0.1 and b of 0.2 bytes are stored side by side and the
    counter is 0.1 + 0.2, the double after 0.3.  The [set] of c, of 0.3
    bytes, evicts both and returns; c is then the only live entry, it is
    smaller than [maxSize], and [currentSize] is not its size but the
    double after it.  Likewise, deleting a from the cache holding a and b
    leaves b alone, of size 0.2, under a counter that is the double after
    0.2. *)
Lemma size_invariant_counterexample :
  put 1 "a" tenth fresh = Some with_a /\
  put 2 "b" two_tenths with_a = Some with_a_b /\
  Cache64.currentSize with_a_b = above_three_tenths /\
  put 3 "c" three_tenths with_a_b = Some with_c /\
  Cache64.sizes with_c = [three_tenths] /\
  Cache64.currentSize with_c = above_three_tenths /\
  (Cache64.currentSize with_c =? three_tenths)%float = false /\
  (three_tenths <? Cache64.currentSize with_c)%float = true /\
  (three_tenths <? Cache64.maxSize (Cache64.options with_c))%float = true /\
  Cache64.delete "a" with_a_b = (true, with_b) /\
  Cache64.sizes with_b = [two_tenths] /\
  Cache64.currentSize with_b = above_two_tenths /\
  (Cache64.currentSize with_b =? two_tenths)%float = false.
Proof. repeat split; reflexivity. Qed.

(** On whole quarter-bytes the two engines go the same way: with budget 10
    and two entries of 5.25 bytes, the second evicts the first and the
    counter ends at 5.25 over doubles as over rationals. *)
Example exact_sizes_agree :
  put 1 "p" (of_quarters 21) fresh10 = Some with_p /\
  put 2 "q" (of_quarters 21) with_p = Some with_q /\
  put_exact 1 "p" (21 # 4) CacheScenarios.fresh10 = Some exact_with_p /\
  put_exact 2 "q" (21 # 4) exact_with_p = Some exact_with_q /\
  JsMap.keys (Cache64.cache with_p) = JsMap.keys (Cache.cache exact_with_p) /\
  JsMap.keys (Cache64.cache with_q) = ["q"] /\
  JsMap.keys (Cache.cache exact_with_q) = ["q"] /\
  Cache64.currentSize with_p = of_quarters 21 /\
  (Cache.currentSize exact_with_p == 21 # 4)%Q /\
  Cache64.currentSize with_q = of_quarters 21 /\
  (Cache.currentSize exact_with_q == 21 # 4)%Q.
Proof. repeat split; reflexivity. Qed.
End Cache64Props.

(** ** Facts about the edit history *)

Module HistoryFacts.
Section Facts.
Variable File : Type.

#[local] Abbreviation State := (History.AppState File).
Implicit Types (s : State) (a : History.EditAction)
         (h : list History.EditAction).

Lemma len_nonneg {A} (l : list A) : 0 <= History.len l.
Proof. unfold History.len. lia. Qed.

Lemma len_app {A} (l1 l2 : list A) :
  History.len (l1 ++ l2)%list = History.len l1 + History.len l2.
Proof. unfold History.len. rewrite length_app. lia. Qed.

Lemma len_tl {A} (l : list A) :
  l <> [] -> History.len (List.tl l) = History.len l - 1.
Proof.
  destruct l as [|x l]; [congruence|]. intros _. unfold History.len.
  cbn [List.tl List.length]. lia.
Qed.

Lemma len_slice0 {A} (e : Z) (l : list A) :
  History.len (History.slice0 e l) <= History.len l.
Proof.
  unfold History.slice0, History.len. rewrite length_firstn. lia.
Qed.

(** Inside the array, [slice(0, e)] is the first [e] elements. *)
Lemma slice0_firstn {A} (e : Z) (l : list A) :
  0 <= e <= History.len l ->
  History.slice0 e l = firstn (Z.to_nat e) l /\
  History.len (History.slice0 e l) = e.
Proof.
  intros He. unfold History.slice0.
  destruct (Z.ltb_spec e 0) as [Hneg|_]; [lia|].
  rewrite Z.min_l by lia. split; [reflexivity|].
  unfold History.len in *. rewrite length_firstn. lia.
Qed.

Lemma index_last h a :
  History.index (h ++ [a])%list (History.len h) = History.RAction a.
Proof.
  unfold History.index, History.len.
  destruct (Z.ltb_spec (Z.of_nat (List.length h)) 0) as [Hneg|_]; [lia|].
  rewrite Nat2Z.id, nth_error_app2 by lia.
  now rewrite Nat.sub_diag.
Qed.

(** The two fields [addToHistory] writes, in terms of the log it builds. *)
Lemma addToHistory_fields a s :
  let newHistory :=
    History.push a (History.slice0 (History.historyIndex s + 1) (History.history s)) in
  History.history (History.addToHistory a s)
  = (if History.len newHistory >? History.maxHistorySteps (History.settings s)
     then List.tl newHistory else newHistory) /\
  History.historyIndex (History.addToHistory a s)
  = History.len (History.history (History.addToHistory a s)) - 1 /\
  History.settings (History.addToHistory a s) = History.settings s /\
  History.project (History.addToHistory a s) = History.project s.
Proof.
  unfold History.addToHistory. simpl. repeat split; reflexivity.
Qed.

(** With a depth bound of at least one the action just added is the last
    of the log, under the cursor. *)
Lemma addToHistory_last a s :
  1 <= History.maxHistorySteps (History.settings s) ->
  exists pre,
    History.history (History.addToHistory a s) = (pre ++ [a])%list /\
    History.historyIndex (History.addToHistory a s) = History.len pre.
Proof.
  intros Hmax.
  destruct (addToHistory_fields a s) as [Hh [Hi _]].
  rewrite Hi, Hh. clear Hh Hi. unfold History.push.
  set (kept := History.slice0 (History.historyIndex s + 1) (History.history s)).
  destruct (Z.gtb_spec (History.len (kept ++ [a])%list)
                       (History.maxHistorySteps (History.settings s))) as [Hover|Hfit].
  - destruct kept as [|x rest].
    + unfold History.len in Hover. simpl in Hover. lia.
    + exists rest. cbn [List.tl app]. split; [reflexivity|].
      rewrite len_app. unfold History.len. simpl. lia.
  - exists kept. split; [reflexivity|].
    rewrite len_app. unfold History.len. simpl. lia.
Qed.

(** The same when the cursor is on an entry of the log, whatever the depth
    bound: the entry dropped is then an older one. *)
Lemma addToHistory_last_inside a s :
  0 <= History.historyIndex s < History.len (History.history s) ->
  exists pre,
    History.history (History.addToHistory a s) = (pre ++ [a])%list /\
    History.historyIndex (History.addToHistory a s) = History.len pre.
Proof.
  intros Hin.
  destruct (addToHistory_fields a s) as [Hh [Hi _]].
  rewrite Hi, Hh. clear Hh Hi. unfold History.push.
  destruct (slice0_firstn (History.historyIndex s + 1) (History.history s))
    as [_ Hlen]; [lia|].
  set (kept := History.slice0 (History.historyIndex s + 1) (History.history s))
    in *.
  destruct kept as [|x rest].
  - unfold History.len in Hlen. simpl in Hlen. lia.
  - destruct (History.len ((x :: rest) ++ [a])%list
              >? History.maxHistorySteps (History.settings s)).
    + exists rest. cbn [List.tl app]. split; [reflexivity|].
      rewrite len_app. change (History.len [a]) with 1. lia.
    + exists (x :: rest). split; [reflexivity|].
      rewrite len_app. change (History.len [a]) with 1. lia.
Qed.

(** [addToHistory] with the cursor on the last entry. *)
Lemma addToHistory_at_tip a s :
  History.historyIndex s = History.len (History.history s) - 1 ->
  (History.len (History.history s) + 1
   <= History.maxHistorySteps (History.settings s) ->
   History.history (History.addToHistory a s) = (History.history s ++ [a])%list) /\
  (History.len (History.history s) + 1
   > History.maxHistorySteps (History.settings s) ->
   History.history (History.addToHistory a s)
   = List.tl (History.history s ++ [a])%list) /\
  History.historyIndex (History.addToHistory a s)
  = History.len (History.history (History.addToHistory a s)) - 1 /\
  History.settings (History.addToHistory a s) = History.settings s.
Proof.
  intros Htip.
  destruct (addToHistory_fields a s) as [Hh [Hi [Hs _]]].
  pose proof (len_nonneg (History.history s)) as Hn.
  destruct (slice0_firstn (History.historyIndex s + 1) (History.history s))
    as [Hsl _]; [lia|].
  rewrite Htip in Hsl.
  replace (Z.to_nat (History.len (History.history s) - 1 + 1))
    with (List.length (History.history s)) in Hsl
    by (unfold History.len; lia).
  rewrite firstn_all in Hsl. rewrite Htip in Hh. rewrite Hsl in Hh.
  unfold History.push in Hh.
  pose proof (len_app (History.history s) [a]) as Hka.
  change (History.len [a]) with 1 in Hka.
  repeat split; try assumption; intros H; rewrite Hh;
    destruct (Z.gtb_spec (History.len (History.history s ++ [a])%list)
                (History.maxHistorySteps (History.settings s)));
    try reflexivity; lia.
Qed.

Lemma addToHistory_well_formed a s :
  History.well_formed s -> History.well_formed (History.addToHistory a s).
Proof.
  intros [Hb Hc]. unfold History.well_formed.
  destruct (addToHistory_fields a s) as [Hh [Hi [Hs _]]].
  rewrite Hi, Hs. clear Hi Hs.
  set (h' := History.history (History.addToHistory a s)) in *.
  unfold History.push in Hh.
  set (kept := History.slice0 (History.historyIndex s + 1) (History.history s)) in *.
  pose proof (len_slice0 (History.historyIndex s + 1) (History.history s)) as Hk.
  fold kept in Hk.
  pose proof (len_nonneg kept) as Hk0.
  pose proof (len_app kept [a]) as Hka.
  change (History.len [a]) with 1 in Hka.
  destruct (Z.gtb_spec (History.len (kept ++ [a])%list)
                       (History.maxHistorySteps (History.settings s))) as [Hover|Hfit].
  - assert (Hne : (kept ++ [a])%list <> []) by (destruct kept; discriminate).
    pose proof (len_tl (kept ++ [a])%list Hne) as Ht. rewrite <- Hh in Ht.
    pose proof (len_nonneg h'). lia.
  - rewrite Hh. lia.
Qed.

Lemma undo_moves s :
  0 <= History.historyIndex s ->
  History.undo s
  = (History.index (History.history s) (History.historyIndex s),
     History.set_historyIndex s (History.historyIndex s - 1)).
Proof.
  intros H. unfold History.undo.
  destruct (Z.ltb_spec (History.historyIndex s) 0); [lia|reflexivity].
Qed.

Lemma undo_well_formed s :
  History.well_formed s -> History.well_formed (snd (History.undo s)).
Proof.
  intros [Hb Hc]. unfold History.undo, History.well_formed.
  destruct (Z.ltb_spec (History.historyIndex s) 0); simpl; lia.
Qed.

Lemma redo_well_formed s :
  History.well_formed s -> History.well_formed (snd (History.redo s)).
Proof.
  intros [Hb Hc]. unfold History.redo, History.well_formed.
  destruct (Z.geb_spec (History.historyIndex s)
                       (History.len (History.history s) - 1)); simpl; lia.
Qed.

Lemma reachable_keeping_bound_well_formed s :
  History.reachable_keeping_bound s -> History.well_formed s.
Proof.
  induction 1 as [|s c _ IH Hk].
  - unfold History.well_formed, History.len. simpl. lia.
  - destruct c; simpl.
    + now apply addToHistory_well_formed.
    + now apply undo_well_formed.
    + now apply redo_well_formed.
    + destruct IH as [Hb Hc]. pose proof (len_nonneg (History.history s)).
      unfold History.well_formed, History.len. simpl. lia.
    + destruct IH as [Hb Hc]. unfold History.well_formed. simpl.
      simpl in Hk. destruct (History.o_maxHistorySteps p); lia.
Qed.
End Facts.
End HistoryFacts.


(** ** Properties of the edit history *)

Module HistoryProps.
Section Props.
Variable File : Type.

#[local] Abbreviation State := (History.AppState File).
Implicit Types (s : State) (a b c d : History.EditAction).

(** C3, amended.  In every state reached from the initial one by
    [addToHistory], [undo], [redo], [clearHistory] and those
    [updateSettings] calls that do not put [maxHistorySteps] below the
    current length of the log, the log is no longer than
    [maxHistorySteps].  An [addToHistory] in such a state keeps the bound
    and leaves the cursor on the last entry, which is the new action when
    the bound is at least one; when the log with the new action would be
    too long its first entry is dropped.  With a bound of 2, adding a, b
    and c to an empty log gives [b, c] and cursor 1. *)
Theorem history_depth_bound :
  (forall s, History.reachable_keeping_bound s ->
     History.len (History.history s)
     <= History.maxHistorySteps (History.settings s) /\
     forall a,
       let kept := firstn (Z.to_nat (History.historyIndex s + 1))
                          (History.history s) in
       let s' := History.addToHistory a s in
       History.len (History.history s')
       <= History.maxHistorySteps (History.settings s') /\
       History.historyIndex s' = History.len (History.history s') - 1 /\
       (History.len kept + 1 > History.maxHistorySteps (History.settings s) ->
        History.history s' = List.tl (kept ++ [a])%list) /\
       (History.len kept + 1 <= History.maxHistorySteps (History.settings s) ->
        History.history s' = (kept ++ [a])%list) /\
       (1 <= History.maxHistorySteps (History.settings s) ->
        History.index (History.history s') (History.historyIndex s')
        = History.RAction a)) /\
  (forall s a b c,
     History.history s = [] -> History.historyIndex s = -1 ->
     History.maxHistorySteps (History.settings s) = 2 ->
     let s3 := History.addToHistory c
                 (History.addToHistory b (History.addToHistory a s)) in
     History.history s3 = [b; c] /\ History.historyIndex s3 = 1).
Proof.
  split.
  - intros s Hreach.
    pose proof (HistoryFacts.reachable_keeping_bound_well_formed File s Hreach)
      as Hwf.
    split; [apply Hwf|]. intros a kept s'.
    pose proof (HistoryFacts.addToHistory_well_formed File a s Hwf) as [Hb' Hc'].
    destruct (HistoryFacts.addToHistory_fields File a s) as [Hh [Hi [Hs _]]].
    destruct Hwf as [Hb Hc].
    destruct (HistoryFacts.slice0_firstn (History.historyIndex s + 1)
                (History.history s)) as [Hsl Hlen]; [lia|].
    fold kept in Hsl. rewrite Hsl in Hh, Hlen. unfold History.push in Hh.
    pose proof (HistoryFacts.len_app kept [a]) as Hka.
    change (History.len [a]) with 1 in Hka.
    fold s' in Hh, Hi, Hb', Hc', Hs.
    repeat split; auto.
    + intros Hover. rewrite Hh.
      destruct (Z.gtb_spec (History.len (kept ++ [a])%list)
                  (History.maxHistorySteps (History.settings s)));
        [reflexivity|lia].
    + intros Hfit. rewrite Hh.
      destruct (Z.gtb_spec (History.len (kept ++ [a])%list)
                  (History.maxHistorySteps (History.settings s)));
        [lia|reflexivity].
    + intros Hmax.
      destruct (HistoryFacts.addToHistory_last File a s Hmax) as [pre [Hp Hq]].
      fold s' in Hp, Hq. rewrite Hp, Hq. apply HistoryFacts.index_last.
  - intros s a b c Hh Hi Hm s3.
    set (s1 := History.addToHistory a s) in *.
    set (s2 := History.addToHistory b s1) in *.
    destruct (HistoryFacts.addToHistory_at_tip File a s) as [H1 [_ [I1 M1]]];
      [rewrite Hh, Hi; reflexivity|].
    fold s1 in H1, I1, M1. rewrite Hh, Hm in H1.
    specialize (H1 ltac:(unfold History.len; simpl; lia)).
    rewrite H1 in I1.
    assert (Hm1 : History.maxHistorySteps (History.settings s1) = 2)
      by (rewrite M1; exact Hm).
    destruct (HistoryFacts.addToHistory_at_tip File b s1) as [H2 [_ [I2 M2]]];
      [rewrite H1, I1; reflexivity|].
    fold s2 in H2, I2, M2. rewrite H1, Hm1 in H2.
    specialize (H2 ltac:(unfold History.len; simpl; lia)).
    rewrite H2 in I2.
    assert (Hm2 : History.maxHistorySteps (History.settings s2) = 2)
      by (rewrite M2; exact Hm1).
    destruct (HistoryFacts.addToHistory_at_tip File c s2) as [_ [H3 [I3 _]]];
      [rewrite H2, I2; reflexivity|].
    fold s3 in H3, I3. rewrite H2, Hm2 in H3.
    specialize (H3 ltac:(unfold History.len; simpl; lia)).
    rewrite H3 in I3. split; [exact H3|exact I3].
Qed.

(** C4, amended.  Let the cursor be at -1 or on an entry of the log, and
    not on the last entry.  [addToHistory] keeps the entries up to the
    cursor, discards the ones after it and appends the new action; if the
    log so built is longer than [maxHistorySteps], that is if the cursor
    plus two exceeds the bound, its first entry is dropped and the cursor
    keeps its value instead of moving up by one.  The cursor always ends on
    the last entry, which is the new action whenever the cursor was on an
    entry or the bound is at least one; with the cursor at -1 and a bound
    below one the new action itself is dropped and the log is left empty.
    From [a, b, c] with cursor 2, two [undo] calls and the addition of d
    give [a, d] and cursor 1 when the bound is at least 2, and [d] and
    cursor 0 when it is below 2. *)
Theorem add_discards_redo_branch :
  (forall s a,
     -1 <= History.historyIndex s < History.len (History.history s) - 1 ->
     let kept := firstn (Z.to_nat (History.historyIndex s + 1))
                        (History.history s) in
     let s' := History.addToHistory a s in
     History.len kept = History.historyIndex s + 1 /\
     (History.historyIndex s + 2 <= History.maxHistorySteps (History.settings s) ->
      History.history s' = (kept ++ [a])%list /\
      History.historyIndex s' = History.historyIndex s + 1) /\
     (History.historyIndex s + 2 > History.maxHistorySteps (History.settings s) ->
      History.history s' = List.tl (kept ++ [a])%list /\
      History.historyIndex s' = History.historyIndex s) /\
     History.historyIndex s' = History.len (History.history s') - 1 /\
     (0 <= History.historyIndex s \/
      1 <= History.maxHistorySteps (History.settings s) ->
      History.index (History.history s') (History.historyIndex s')
      = History.RAction a) /\
     (History.historyIndex s = -1 ->
      History.maxHistorySteps (History.settings s) < 1 ->
      History.history s' = [] /\ History.historyIndex s' = -1)) /\
  (forall s a b c d,
     History.history s = [a; b; c] -> History.historyIndex s = 2 ->
     let s2 := snd (History.undo (snd (History.undo s))) in
     let s3 := History.addToHistory d s2 in
     History.historyIndex s2 = 0 /\
     (2 <= History.maxHistorySteps (History.settings s) ->
      History.history s3 = [a; d] /\ History.historyIndex s3 = 1) /\
     (History.maxHistorySteps (History.settings s) < 2 ->
      History.history s3 = [d] /\ History.historyIndex s3 = 0)).
Proof.
  split.
  - intros s a Hc kept s'.
    destruct (HistoryFacts.addToHistory_fields File a s) as [Hh [Hi _]].
    destruct (HistoryFacts.slice0_firstn (History.historyIndex s + 1)
                (History.history s)) as [Hsl Hlen]; [lia|].
    fold kept in Hsl. rewrite Hsl in Hh, Hlen. unfold History.push in Hh.
    pose proof (HistoryFacts.len_app kept [a]) as Hka.
    change (History.len [a]) with 1 in Hka.
    fold s' in Hh, Hi.
    assert (Hne : (kept ++ [a])%list <> []) by (destruct kept; discriminate).
    pose proof (HistoryFacts.len_tl (kept ++ [a])%list Hne) as Htl.
    split; [exact Hlen|].
    split; [|split; [|split; [exact Hi|split]]].
    + intros Hfit. rewrite Hi, Hh.
      destruct (Z.gtb_spec (History.len (kept ++ [a])%list)
                  (History.maxHistorySteps (History.settings s)));
        [lia|]. split; [reflexivity|lia].
    + intros Hover. rewrite Hi, Hh.
      destruct (Z.gtb_spec (History.len (kept ++ [a])%list)
                  (History.maxHistorySteps (History.settings s)));
        [|lia]. split; [reflexivity|lia].
    + intros [Hin|Hmax].
      * destruct (HistoryFacts.addToHistory_last_inside File a s) as [pre [Hp Hq]];
          [lia|].
        fold s' in Hp, Hq. rewrite Hp, Hq. apply HistoryFacts.index_last.
      * destruct (HistoryFacts.addToHistory_last File a s Hmax) as [pre [Hp Hq]].
        fold s' in Hp, Hq. rewrite Hp, Hq. apply HistoryFacts.index_last.
    + intros Hm1 Hmax.
      assert (Hk : kept = []).
      { destruct kept; [reflexivity|].
        unfold History.len in Hlen. simpl in Hlen. lia. }
      rewrite Hi, Hh, Hk.
      destruct (Z.gtb_spec (History.len ([] ++ [a])%list)
                  (History.maxHistorySteps (History.settings s))) as [_|Hfit].
      * split; reflexivity.
      * unfold History.len in Hfit. simpl in Hfit. lia.
  - intros s a b c d Hh Hi s2 s3.
    assert (H2 : History.historyIndex s2 = 0 /\
                 History.history s2 = [a; b; c] /\
                 History.settings s2 = History.settings s).
    { unfold s2. rewrite (HistoryFacts.undo_moves File s) by lia.
      cbn [snd]. rewrite HistoryFacts.undo_moves;
        cbn [snd History.set_historyIndex History.set_history
             History.historyIndex History.history History.settings];
        rewrite Hi; [|lia].
      repeat split; try reflexivity; exact Hh. }
    destruct H2 as [Hi2 [Hh2 Hs2]].
    split; [exact Hi2|].
    destruct (HistoryFacts.addToHistory_fields File d s2) as [Hh3 [Hi3 _]].
    fold s3 in Hh3, Hi3. rewrite Hh2, Hi2, Hs2 in Hh3.
    change (History.push d (History.slice0 (0 + 1) [a; b; c])) with [a; d] in Hh3.
    change (History.len [a; d]) with 2 in Hh3.
    split; intros Hm; rewrite Hi3, Hh3;
      destruct (Z.gtb_spec 2 (History.maxHistorySteps (History.settings s)));
      try lia; split; reflexivity.
Qed.

(** C7, amended.  With [maxHistorySteps] at least one, in any state,
    [addToHistory(a)] followed by [undo()] and [redo()] makes both calls
    return a, and the log and the cursor end as they were right after the
    addition. *)
Theorem undo_redo_roundtrip s a :
  1 <= History.maxHistorySteps (History.settings s) ->
  let s1 := History.addToHistory a s in
  let s2 := snd (History.undo s1) in
  let s3 := snd (History.redo s2) in
  fst (History.undo s1) = History.RAction a /\
  fst (History.redo s2) = History.RAction a /\
  History.historyIndex s3 = History.historyIndex s1 /\
  History.history s3 = History.history s1.
Proof.
  intros Hmax s1 s2 s3.
  destruct (HistoryFacts.addToHistory_last File a s Hmax) as [pre [Hh Hi]].
  fold s1 in Hh, Hi.
  pose proof (HistoryFacts.len_nonneg pre) as Hp.
  assert (Hu : History.undo s1
               = (History.RAction a,
                  History.set_historyIndex s1 (History.len pre - 1))).
  { unfold History.undo. rewrite Hi.
    destruct (Z.ltb_spec (History.len pre) 0); [lia|].
    now rewrite Hh, HistoryFacts.index_last. }
  unfold s3, s2. rewrite Hu. cbn [fst snd].
  unfold History.redo. cbn [History.set_historyIndex History.set_history
                            History.historyIndex History.history].
  rewrite Hh, HistoryFacts.len_app. change (History.len [a]) with 1.
  destruct (Z.geb_spec (History.len pre - 1) (History.len pre + 1 - 1)); [lia|].
  cbn [fst snd History.historyIndex History.history
       History.set_historyIndex History.set_history].
  replace (History.len pre - 1 + 1) with (History.len pre) by lia.
  rewrite HistoryFacts.index_last, Hi. auto.
Qed.

(** C10.  [undo] and [redo] leave every field of the store but the cursor
    as it was: the log, the project, the settings, the selection and the
    panel flags.  At a boundary they return [null] and change nothing;
    otherwise [undo] returns the entry under the cursor and moves the
    cursor down by one, and [redo] returns the entry after the cursor and
    moves the cursor up by one. *)
Theorem undo_redo_frame s :
  History.same_but_cursor s (snd (History.undo s)) /\
  History.same_but_cursor s (snd (History.redo s)) /\
  (History.historyIndex s < 0 -> History.undo s = (History.RNull, s)) /\
  (History.historyIndex s >= History.len (History.history s) - 1 ->
   History.redo s = (History.RNull, s)) /\
  (forall a,
     0 <= History.historyIndex s ->
     nth_error (History.history s) (Z.to_nat (History.historyIndex s)) = Some a ->
     fst (History.undo s) = History.RAction a /\
     History.historyIndex (snd (History.undo s)) = History.historyIndex s - 1) /\
  (forall a,
     -1 <= History.historyIndex s < History.len (History.history s) - 1 ->
     nth_error (History.history s) (Z.to_nat (History.historyIndex s + 1)) = Some a ->
     fst (History.redo s) = History.RAction a /\
     History.historyIndex (snd (History.redo s)) = History.historyIndex s + 1).
Proof.
  split; [|split; [|split; [|split; [|split]]]].
  - unfold History.same_but_cursor, History.undo.
    destruct (History.historyIndex s <? 0); repeat split; reflexivity.
  - unfold History.same_but_cursor, History.redo.
    destruct (History.historyIndex s >=? History.len (History.history s) - 1);
      repeat split; reflexivity.
  - intros H. unfold History.undo.
    destruct (Z.ltb_spec (History.historyIndex s) 0); [reflexivity|lia].
  - intros H. unfold History.redo.
    destruct (Z.geb_spec (History.historyIndex s)
                (History.len (History.history s) - 1)); [reflexivity|lia].
  - intros a Hpos Hnth. unfold History.undo.
    destruct (Z.ltb_spec (History.historyIndex s) 0) as [|_]; [lia|].
    cbn [fst snd]. split; [|reflexivity].
    unfold History.index.
    destruct (Z.ltb_spec (History.historyIndex s) 0); [lia|].
    now rewrite Hnth.
  - intros a Hrange Hnth. unfold History.redo.
    destruct (Z.geb_spec (History.historyIndex s)
                (History.len (History.history s) - 1)) as [|_]; [lia|].
    cbn [fst snd]. split; [|reflexivity].
    unfold History.index.
    destruct (Z.ltb_spec (History.historyIndex s + 1) 0); [lia|].
    now rewrite Hnth.
Qed.
End Props.

Import HistoryScenarios.

Lemma depth2_ab_reachable : History.reachable_keeping_bound depth2_ab.
Proof.
  apply (History.reachk_call (History.CallAdd (act "b"))); [|exact I].
  apply (History.reachk_call (History.CallAdd (act "a"))); [|exact I].
  apply (History.reachk_call (History.CallUpdateSettings (depth 2))).
  - apply History.reachk_init.
  - simpl. unfold History.len. simpl. lia.
Defined.

Lemma abc_lowered_reachable : History.reachable abc_lowered.
Proof.
  apply (History.reach_call (History.CallUpdateSettings (depth 2))).
  apply (History.reach_call (History.CallAdd (act "c"))).
  apply (History.reach_call (History.CallAdd (act "b"))).
  apply (History.reach_call (History.CallAdd (act "a"))).
  apply History.reach_init.
Defined.

(** C3 as stated fails: lowering [maxHistorySteps] to 2 under a log of
    three actions leaves the log at length 3, and a further
    [addToHistory] drops one entry only, so the log stays at length 3. *)
Lemma history_depth_counterexample :
  History.reachable abc_lowered /\
  History.reachable (History.addToHistory (act "d") abc_lowered) /\
  History.maxHistorySteps (History.settings abc_lowered) = 2 /\
  History.history abc_lowered = [act "a"; act "b"; act "c"] /\
  History.history (History.addToHistory (act "d") abc_lowered)
  = [act "b"; act "c"; act "d"] /\
  ~ (History.len (History.history abc_lowered)
     <= History.maxHistorySteps (History.settings abc_lowered)) /\
  ~ (History.len (History.history (History.addToHistory (act "d") abc_lowered))
     <= History.maxHistorySteps
          (History.settings (History.addToHistory (act "d") abc_lowered))).
Proof.
  split; [exact abc_lowered_reachable|].
  split; [exact (History.reach_call (History.CallAdd (act "d"))
                   abc_lowered_reachable)|].
  split; [reflexivity|]. split; [reflexivity|]. split; [reflexivity|].
  split; vm_compute; intros H; apply H; reflexivity.
Qed.

(** C3, amended, at depth 2 with log [a, b]: adding c gives [b, c] and
    cursor 1. *)
Lemma history_depth_bound_witness :
  History.len (History.history depth2_ab) <= 2 /\
  History.history (History.addToHistory (act "c") depth2_ab)
  = [act "b"; act "c"] /\
  History.historyIndex (History.addToHistory (act "c") depth2_ab) = 1.
Proof.
  destruct (history_depth_bound unit) as [H _].
  destruct (H depth2_ab depth2_ab_reachable) as [Hb Hadd].
  destruct (Hadd (act "c")) as [_ [Hi [Hover _]]].
  split; [exact Hb|]. split.
  - apply Hover. reflexivity.
  - exact Hi.
Defined.

(** C4 as stated fails under a lowered depth bound.  With the log
    [a, b, c] and [maxHistorySteps] set to 1, two [undo] calls leave the
    cursor at 0 and the addition of d gives [d] with cursor 0, not [a, d]
    with cursor 1.  With the log [a], the cursor taken to -1 by [undo] and
    [maxHistorySteps] set to 0, the cursor is not on the last entry, yet
    the action added is not in the log afterwards. *)
Lemma add_discards_redo_branch_counterexample :
  History.reachable (snd (History.undo (snd (History.undo abc_depth1)))) /\
  History.history (snd (History.undo (snd (History.undo abc_depth1))))
  = [act "a"; act "b"; act "c"] /\
  History.historyIndex (snd (History.undo (snd (History.undo abc_depth1)))) = 0 /\
  History.history
    (History.addToHistory (act "d")
       (snd (History.undo (snd (History.undo abc_depth1)))))
  = [act "d"] /\
  History.historyIndex
    (History.addToHistory (act "d")
       (snd (History.undo (snd (History.undo abc_depth1)))))
  = 0 /\
  History.history
    (History.addToHistory (act "d")
       (snd (History.undo (snd (History.undo abc_depth1)))))
  <> [act "a"; act "d"] /\
  History.reachable a_undone_depth0 /\
  History.historyIndex a_undone_depth0
  < History.len (History.history a_undone_depth0) - 1 /\
  History.history (History.addToHistory (act "d") a_undone_depth0) = [] /\
  History.historyIndex (History.addToHistory (act "d") a_undone_depth0) = -1.
Proof.
  split.
  { apply (History.reach_call History.CallUndo).
    apply (History.reach_call History.CallUndo).
    apply (History.reach_call (History.CallUpdateSettings (depth 1))).
    apply (History.reach_call (History.CallAdd (act "c"))).
    apply (History.reach_call (History.CallAdd (act "b"))).
    apply (History.reach_call (History.CallAdd (act "a"))).
    apply History.reach_init. }
  split; [reflexivity|]. split; [reflexivity|]. split; [reflexivity|].
  split; [reflexivity|]. split; [discriminate|].
  split.
  { apply (History.reach_call (History.CallUpdateSettings (depth 0))).
    apply (History.reach_call History.CallUndo).
    apply (History.reach_call (History.CallAdd (act "a"))).
    apply History.reach_init. }
  split; [reflexivity|]. split; reflexivity.
Qed.

(** C4, amended, on the log [a, b, c] built with the default depth of 50. *)
Lemma add_discards_redo_branch_witness :
  History.historyIndex (snd (History.undo (snd (History.undo abc)))) = 0 /\
  History.history
    (History.addToHistory (act "d") (snd (History.undo (snd (History.undo abc)))))
  = [act "a"; act "d"] /\
  History.historyIndex
    (History.addToHistory (act "d") (snd (History.undo (snd (History.undo abc)))))
  = 1 /\
  History.index
    (History.history
       (History.addToHistory (act "d")
          (snd (History.undo (snd (History.undo abc))))))
    1
  = History.RAction (act "d").
Proof.
  destruct (add_discards_redo_branch unit) as [Hgen Hex].
  destruct (Hgen (snd (History.undo (snd (History.undo abc)))) (act "d"))
    as [_ [Hfit [_ [_ [Hlast _]]]]].
  - vm_compute. split; [discriminate|reflexivity].
  - destruct Hfit as [Hh Hi]; [vm_compute; discriminate|].
    split; [reflexivity|]. split; [exact Hh|]. split; [exact Hi|].
    rewrite <- Hlast; [rewrite Hi; reflexivity|].
    left. vm_compute. discriminate.
Defined.

(** C7 as stated fails when [maxHistorySteps] is 0: the action added is
    dropped at once, [undo] and [redo] both return [null]. *)
Lemma undo_redo_roundtrip_counterexample :
  History.reachable depth0 /\
  History.history (History.addToHistory (act "a") depth0) = [] /\
  fst (History.undo (History.addToHistory (act "a") depth0)) = History.RNull /\
  fst (History.redo (snd (History.undo (History.addToHistory (act "a") depth0))))
  = History.RNull /\
  fst (History.redo (snd (History.undo (History.addToHistory (act "a") depth0))))
  <> History.RAction (act "a").
Proof.
  split.
  - exact (History.reach_call (History.CallUpdateSettings (depth 0))
             (History.reach_init unit)).
  - repeat split; try reflexivity. discriminate.
Qed.

(** C7, amended, on the initial store. *)
Lemma undo_redo_roundtrip_witness :
  fst (History.redo (snd (History.undo (History.addToHistory (act "a") fresh))))
  = History.RAction (act "a") /\
  History.historyIndex
    (snd (History.redo (snd (History.undo (History.addToHistory (act "a") fresh)))))
  = History.historyIndex (History.addToHistory (act "a") fresh).
Proof.
  destruct (undo_redo_roundtrip unit fresh (act "a")) as [_ [Hr [Hi _]]].
  - vm_compute. discriminate.
  - split; [exact Hr|exact Hi].
Defined.

(** C10 on the log [a, b, c]: [undo] returns c, and [redo] after it
    returns c again. *)
Lemma undo_redo_frame_witness :
  fst (History.undo abc) = History.RAction (act "c") /\
  History.historyIndex (snd (History.undo abc)) = 1 /\
  History.history (snd (History.undo abc)) = History.history abc /\
  fst (History.redo (snd (History.undo abc))) = History.RAction (act "c") /\
  History.historyIndex (snd (History.redo (snd (History.undo abc)))) = 2.
Proof.
  destruct (undo_redo_frame unit abc) as [Hframe [_ [_ [_ [Hu _]]]]].
  destruct (undo_redo_frame unit (snd (History.undo abc)))
    as [_ [_ [_ [_ [_ Hr]]]]].
  destruct (Hu (act "c")) as [Hu1 Hu2];
    [vm_compute; discriminate|reflexivity|].
  destruct (Hr (act "c")) as [Hr1 Hr2];
    [vm_compute; split; [discriminate|reflexivity]|reflexivity|].
  destruct Hframe as [_ [_ [_ [_ [_ [_ [_ [Hh _]]]]]]]].
  split; [exact Hu1|]. split; [exact Hu2|]. split; [exact Hh|].
  split; [exact Hr1|exact Hr2].
Defined.
End HistoryProps.

(** ** Populate-on-miss: [cacheImage] and [translate] *)

Module PopulateProps.
Definition fails (text from to : string) (p : Translation.TranslationProvider)
  : Prop :=
  exists e, Translation.provider_translate p text from to = Js.Rejected e.

Lemma try_providers_all_fail ps now key text from to st :
  Forall (fails text from to) ps ->
  Translation.try_providers ps now key text from to st
  = (Js.Rejected (Js.JsError "All translation providers failed"), st).
Proof.
  induction 1 as [|p ps [e He] _ IH]; simpl; [reflexivity|].
  now rewrite He.
Qed.

Lemma try_providers_first_success pre q post now key text from to st translated :
  Forall (fails text from to) pre ->
  Translation.provider_translate q text from to = Js.Resolved translated ->
  let result :=
    Translation.mkResult translated (Translation.name q)
      (Translation.calculateConfidence (Translation.name q) translated) in
  Translation.try_providers (pre ++ q :: post)%list now key text from to st
  = (Js.Resolved result,
     Translation.mkService (Translation.providers st)
       (JsMap.set key result (Translation.cache st))
       (JsMap.set key (now + Translation.cacheTimeout)
                  (Translation.cacheExpiry st))).
Proof.
  intros Hpre Hq. induction Hpre as [|p ps [e He] _ IH]; simpl.
  - now rewrite Hq.
  - now rewrite He.
Qed.

(** After a miss of [isInCache] the result map has nothing under the
    key. *)
Lemma isInCache_miss now key st :
  fst (Translation.isInCache now key st) = false ->
  JsMap.get key (Translation.cache (snd (Translation.isInCache now key st)))
  = None /\
  Translation.providers (snd (Translation.isInCache now key st))
  = Translation.providers st.
Proof.
  unfold Translation.isInCache.
  destruct (match JsMap.get key (Translation.cacheExpiry st) with
            | Some expiry => (expiry =? 0) || (now >? expiry)
            | None => true
            end); simpl.
  - intros _. split; [apply JsMapFacts.get_delete_same|reflexivity].
  - unfold JsMap.has.
    destruct (JsMap.get key (Translation.cache st)); [discriminate|auto].
Qed.

Section Props.
Variable JSON_stringify : string -> option string.
Variable Number_toString : Q -> string.
Variable compressImage : string -> Q -> Js.Settled string.

(** C2, amended.  When the external operation fails nothing is stored
    under the key, but the failure does not reach the caller unchanged.
    [cacheImage], on a miss with a failing compression, resolves with the
    original URL and leaves the cache as the lookup left it.  [translate],
    on a miss, skips every failing provider; it caches and returns the
    result of the first provider that succeeds, and when all fail it
    rejects with a new error, "All translation providers failed", with
    nothing cached under the key. *)
Theorem populate_failure_not_cached :
  (forall fuel g1 g2 s1 s2 url quality st e,
     let q := Cache.orElse quality (8 # 10) in
     let key := ImageCache.cacheKey Number_toString url q in
     let looked := Cache.get g1 g2 key st in
     compressImage url q = Js.Rejected e ->
     fst looked = None \/ fst looked = Some "" ->
     ImageCache.cacheImage JSON_stringify Number_toString compressImage
                           fuel g1 g2 s1 s2 url quality st
     = Some (Js.Resolved url, snd looked) /\
     (JsMap.get key (Cache.cache st) = None -> snd looked = st)) /\
  (forall now1 now2 text from to st,
     let key := from ++ "-" ++ to ++ "-" ++ text in
     let looked := Translation.isInCache now1 key st in
     fst looked = false ->
     Forall (fails text from to) (Translation.providers st) ->
     Translation.translate now1 now2 text from to st
     = (Js.Rejected (Js.JsError "All translation providers failed"),
        snd looked) /\
     JsMap.get key (Translation.cache (snd looked)) = None) /\
  (forall now1 now2 text from to st pre p post translated,
     let key := from ++ "-" ++ to ++ "-" ++ text in
     let looked := Translation.isInCache now1 key st in
     let result :=
       Translation.mkResult translated (Translation.name p)
         (Translation.calculateConfidence (Translation.name p) translated) in
     fst looked = false ->
     Translation.providers st = (pre ++ p :: post)%list ->
     Forall (fails text from to) pre ->
     Translation.provider_translate p text from to = Js.Resolved translated ->
     fst (Translation.translate now1 now2 text from to st) = Js.Resolved result /\
     JsMap.get key (Translation.cache
                      (snd (Translation.translate now1 now2 text from to st)))
     = Some result).
Proof.
  split; [|split].
  - intros fuel g1 g2 s1 s2 url quality st e q key looked Hfail Hmiss.
    split.
    + unfold ImageCache.cacheImage. fold q. fold key. fold looked.
      destruct looked as [cached st1]. simpl in Hmiss. simpl.
      rewrite Hfail.
      destruct Hmiss as [->| ->]; reflexivity.
    + intros Habs. unfold looked, Cache.get. now rewrite Habs.
  - intros now1 now2 text from to st key looked Hmiss Hall.
    destruct (isInCache_miss now1 key st Hmiss) as [Hnone Hprov].
    fold looked in Hnone, Hprov. split; [|exact Hnone].
    unfold Translation.translate. fold key. fold looked.
    destruct looked as [hit st1]. simpl in *. subst hit.
    rewrite Hprov. now apply try_providers_all_fail.
  - intros now1 now2 text from to st pre p post translated key looked result
           Hmiss Hps Hpre Hok.
    destruct (isInCache_miss now1 key st Hmiss) as [Hnone Hprov].
    fold looked in Hnone, Hprov.
    unfold Translation.translate. fold key. fold looked.
    destruct looked as [hit st1]. simpl in *. subst hit.
    rewrite Hprov, Hps.
    rewrite (try_providers_first_success pre p post now2 key text from to st1
               translated Hpre Hok).
    simpl. split; [reflexivity|]. apply JsMapFacts.get_set_same.
Qed.
End Props.

Import PopulateScenarios.

(** C2 as stated fails.  A compression that rejects makes [cacheImage]
    resolve with the URL it was given; a provider that rejects with
    "LibreTranslate failed" makes [translate] reject with another error
    when it is the only provider, and resolve with the offline
    translation when the offline provider follows it. *)
Lemma populate_failure_counterexample :
  (exists st',
     ImageCache.cacheImage CacheScenarios.stringify render broken_image
                           8 1 1 1 1 "page.png" None
                           (ImageCache.new_ImageCacheService)
     = Some (Js.Resolved "page.png", st')) /\
  fst (Translation.translate 1 1 "hi" "ja" "en" (service [libre_down]))
  = Js.Rejected (Js.JsError "All translation providers failed") /\
  fst (Translation.translate 1 1 "hi" "ja" "en" (service [libre_down]))
  <> Js.Rejected (Js.JsError "LibreTranslate failed") /\
  exists r,
    fst (Translation.translate 1 1 "hi" "ja" "en"
                               (service [libre_down; offline_hello]))
    = Js.Resolved r /\ Translation.translatedText r = "Hello".
Proof.
  split; [eexists; reflexivity|].
  split; [reflexivity|]. split; [discriminate|].
  eexists. split; reflexivity.
Qed.

(** C2, amended, on a fresh image cache and on a service whose only
    provider is down. *)
Lemma populate_failure_not_cached_witness :
  ImageCache.cacheImage CacheScenarios.stringify render broken_image
                        8 1 1 1 1 "page.png" None
                        ImageCache.new_ImageCacheService
  = Some (Js.Resolved "page.png", ImageCache.new_ImageCacheService) /\
  fst (Translation.translate 1 1 "hi" "ja" "en" (service [libre_down]))
  = Js.Rejected (Js.JsError "All translation providers failed") /\
  JsMap.get "ja-en-hi"
    (Translation.cache
       (snd (Translation.translate 1 1 "hi" "ja" "en" (service [libre_down]))))
  = None.
Proof.
  destruct (populate_failure_not_cached CacheScenarios.stringify render
              broken_image) as [Himg [Htr _]].
  destruct (Himg 8%nat 1 1 1 1 "page.png" None
                 ImageCache.new_ImageCacheService
                 (Js.OtherThrown "image error event"))
    as [Hres _]; [reflexivity|left; reflexivity|].
  destruct (Htr 1 1 "hi" "ja" "en" (service [libre_down])) as [Hrej Hnone].
  - reflexivity.
  - repeat constructor. exists (Js.JsError "LibreTranslate failed"). reflexivity.
  - split; [exact Hres|]. split.
    + rewrite Hrej. reflexivity.
    + rewrite Hrej. exact Hnone.
Defined.
End PopulateProps.

(** * Further properties of the cache engine *)

Module CacheExtras.
Section Extras.
Variable T : Type.
Variable JSON_stringify : T -> option string.

#[local] Abbreviation Entry := (Cache.CacheEntry T).
#[local] Abbreviation Service := (Cache.CacheService T).
Implicit Types (st : Service) (m : JsMap.t Entry) (key k : string).

(** Entries that survive the loop of [set] were there before it. *)
Lemma evict_loop_survivors fuel entrySize st st' k e :
  Cache.evict_loop fuel entrySize st = Some st' ->
  JsMap.get k (Cache.cache st') = Some e ->
  JsMap.get k (Cache.cache st) = Some e.
Proof.
  intros Hl.
  apply (CacheFacts.evict_loop_preserves T
           (fun s => JsMap.get k (Cache.cache s) = Some e ->
                     JsMap.get k (Cache.cache st) = Some e))
    with (fuel := fuel) (entrySize := entrySize) (st := st); auto.
  intros k0 s Hs. rewrite CacheFacts.delete_cache. intros Hg. apply Hs.
  destruct (String.eqb_spec k0 k) as [->|Hne].
  - rewrite JsMapFacts.get_delete_same in Hg. discriminate.
  - now rewrite JsMapFacts.get_delete_other in Hg.
Qed.

(** Reading back what [set] has stored, before and after its expiry. *)
Lemma read_after_set fuel now1 now2 key (d : T) ttl sz st st' :
  Cache.set JSON_stringify fuel now1 now2 key d ttl sz st = Some st' ->
  let expiry := now1 + Cache.Z_or ttl (Cache.defaultTTL (Cache.options st)) in
  (forall t1 t2, t1 <= expiry ->
     fst (Cache.get t1 t2 key st') = Some d /\
     Cache.has t1 key st' = (true, st')) /\
  (forall t1 t2, expiry < t1 -> fst (Cache.get t1 t2 key st') = None).
Proof.
  unfold Cache.set.
  destruct (Cache.evict_loop fuel _ _) as [st2|] eqn:Hl; [|discriminate].
  intros [= <-].
  set (expiry := now1 + Cache.Z_or ttl (Cache.defaultTTL (Cache.options st))).
  split.
  - intros t1 t2 Ht. unfold Cache.get, Cache.has. cbn [Cache.cache Cache.with_cache].
    rewrite JsMapFacts.get_set_same. cbn [Cache.expires].
    fold expiry.
    destruct (Z.gtb_spec t1 expiry); [lia|]. split; reflexivity.
  - intros t1 t2 Ht. unfold Cache.get. cbn [Cache.cache Cache.with_cache].
    rewrite JsMapFacts.get_set_same. cbn [Cache.expires]. fold expiry.
    destruct (Z.gtb_spec t1 expiry); [reflexivity|lia].
Qed.

(** X1.  What [set] stores can be read back: until the clock passes
    [now1 + (ttl || defaultTTL)], [get] returns the stored value and [has]
    answers [true] without changing the cache; past it, [get] returns
    [null]. *)
Theorem set_then_get fuel now1 now2 key (d : T) ttl sz st st' :
  Cache.set JSON_stringify fuel now1 now2 key d ttl sz st = Some st' ->
  let expiry := now1 + Cache.Z_or ttl (Cache.defaultTTL (Cache.options st)) in
  (forall t1 t2, t1 <= expiry ->
     fst (Cache.get t1 t2 key st') = Some d /\
     Cache.has t1 key st' = (true, st')) /\
  (forall t1 t2, expiry < t1 -> fst (Cache.get t1 t2 key st') = None).
Proof.
  exact (read_after_set fuel now1 now2 key d ttl sz st st').
Qed.

(** X2.  [set] never alters the entry of another key: an entry found under
    another key afterwards is the very entry that was there before (the
    only thing [set] does to other keys is to evict them). *)
Theorem set_keeps_or_evicts_others fuel now1 now2 key (d : T) ttl sz st st' k e :
  Cache.set JSON_stringify fuel now1 now2 key d ttl sz st = Some st' ->
  k <> key ->
  JsMap.get k (Cache.cache st') = Some e ->
  JsMap.get k (Cache.cache st) = Some e.
Proof.
  unfold Cache.set.
  destruct (Cache.evict_loop fuel _ _) as [st2|] eqn:Hl; [|discriminate].
  intros [= <-] Hne. cbn [Cache.cache Cache.with_cache].
  rewrite JsMapFacts.get_set_other by auto.
  intros Hg. apply (evict_loop_survivors _ _ _ _ _ _ Hl) in Hg.
  destruct (JsMap.has key (Cache.cache st)); [|exact Hg].
  rewrite CacheFacts.delete_cache in Hg.
  now rewrite JsMapFacts.get_delete_other in Hg.
Qed.


(** Removing a list of keys one after the other. *)
Lemma fold_delete_get (ks : list string) st k :
  JsMap.get k (Cache.cache
                 (fold_left (fun s key => snd (Cache.delete key s)) ks st))
  = if in_dec string_dec k ks then None else JsMap.get k (Cache.cache st).
Proof.
  revert st. induction ks as [|k0 ks IH]; intros st; [reflexivity|].
  cbn [fold_left]. rewrite IH.
  destruct (in_dec string_dec k ks) as [Hin|Hnin];
    destruct (in_dec string_dec k (k0 :: ks)) as [Hin'|Hnin']; simpl in *;
    try reflexivity; try tauto.
  - destruct Hin' as [->|]; [|tauto].
    rewrite CacheFacts.delete_cache. apply JsMapFacts.get_delete_same.
  - rewrite CacheFacts.delete_cache. apply JsMapFacts.get_delete_other. tauto.
Qed.

(** X4.  The periodic sweep removes exactly the expired entries: afterwards
    a key holds its old entry if the clock is not past that entry's expiry,
    and nothing otherwise. *)
Theorem cleanup_removes_exactly_expired now st k :
  JsMap.wf (Cache.cache st) ->
  JsMap.get k (Cache.cache (Cache.cleanup now st))
  = match JsMap.get k (Cache.cache st) with
    | Some e => if now >? Cache.expires e then None else Some e
    | None => None
    end.
Proof.
  intros Hwf. unfold Cache.cleanup. rewrite fold_delete_get.
  destruct (in_dec string_dec k _) as [Hin|Hnin].
  - apply in_map_iff in Hin. destruct Hin as [[k' e] [Hk HI]]. simpl in Hk.
    subst k'. apply filter_In in HI. destruct HI as [HI Hexp]. simpl in Hexp.
    rewrite (JsMapFacts.In_get _ _ _ _ Hwf HI). now rewrite Hexp.
  - destruct (JsMap.get k (Cache.cache st)) as [e|] eqn:He; [|reflexivity].
    destruct (now >? Cache.expires e) eqn:Hexp; [|reflexivity].
    exfalso. apply Hnin. apply in_map_iff. exists (k, e). split; [reflexivity|].
    apply filter_In. split; [now apply JsMapFacts.get_In|exact Hexp].
Qed.

(** X5.  A successful [get] changes nothing but the timestamp of the entry
    read: the keys and their order, the counter and every other entry stay,
    and the entry keeps its data, size and expiry.  In particular a read
    does not prolong the life of an entry: once the clock is past the
    original expiry the next [get] returns [null]. *)
Theorem get_refreshes_timestamp_only now1 now2 key st e :
  JsMap.get key (Cache.cache st) = Some e ->
  now1 <= Cache.expires e ->
  let st' := snd (Cache.get now1 now2 key st) in
  fst (Cache.get now1 now2 key st) = Some (Cache.data e) /\
  JsMap.get key (Cache.cache st')
  = Some (Cache.mkEntry (Cache.data e) now2 (Cache.size e) (Cache.expires e)) /\
  (forall k, k <> key ->
     JsMap.get k (Cache.cache st') = JsMap.get k (Cache.cache st)) /\
  Cache.keys st' = Cache.keys st /\
  Cache.currentSize st' = Cache.currentSize st /\
  (forall t1 t2, Cache.expires e < t1 -> fst (Cache.get t1 t2 key st') = None).
Proof.
  intros He Hlive st'.
  assert (E : Cache.get now1 now2 key st
              = (Some (Cache.data e),
                 Cache.with_cache st
                   (JsMap.set key (Cache.touch now2 e) (Cache.cache st))
                   (Cache.currentSize st))).
  { unfold Cache.get. rewrite He.
    destruct (Z.gtb_spec now1 (Cache.expires e)); [lia|reflexivity]. }
  unfold st'. rewrite E. cbn [fst snd Cache.cache Cache.with_cache Cache.currentSize].
  repeat split.
  - apply JsMapFacts.get_set_same.
  - intros k Hk. apply JsMapFacts.get_set_other. auto.
  - unfold Cache.keys. cbn [Cache.cache Cache.with_cache].
    now apply JsMapFacts.keys_set_present with (v' := e).
  - intros t1 t2 Ht. unfold Cache.get. cbn [Cache.cache Cache.with_cache].
    rewrite JsMapFacts.get_set_same. cbn [Cache.expires Cache.touch].
    destruct (Z.gtb_spec t1 (Cache.expires e)); [reflexivity|lia].
Qed.

(** X6.  As long as no key is the empty string, [set] always returns, with
    the new entry stored and again no empty key in the cache; so a cache
    that is only ever given non-empty keys never hangs in [set]. *)
Theorem set_returns_for_nonempty_keys now1 now2 key (d : T) ttl sz st :
  JsMap.wf (Cache.cache st) ->
  ~ In "" (Cache.keys st) ->
  key <> "" ->
  exists st',
    Cache.set_returns JSON_stringify now1 now2 key d ttl sz st st' /\
    JsMap.has key (Cache.cache st') = true /\
    JsMap.wf (Cache.cache st') /\
    ~ In "" (Cache.keys st').
Proof.
  intros Hwf Hne Hkey.
  destruct (CacheFacts.set_returns_without_empty_key T JSON_stringify
              now1 now2 key d ttl sz st Hwf Hne) as [st' [fuel Hs]].
  exists st'. split; [now exists fuel|].
  destruct (CacheFacts.set_present T JSON_stringify _ _ _ _ _ _ _ _ _ Hs)
    as [e [He _]].
  split; [unfold JsMap.has; now rewrite He|].
  revert Hs. unfold Cache.set.
  destruct (Cache.evict_loop fuel _ _) as [st2|] eqn:Hl; [|discriminate].
  intros [= <-]. cbn [Cache.cache Cache.with_cache] in *.
  assert (H2 : JsMap.wf (Cache.cache st2) /\ ~ In "" (Cache.keys st2)).
  { apply (CacheFacts.evict_loop_preserves T
             (fun s => JsMap.wf (Cache.cache s) /\ ~ In "" (Cache.keys s)))
      with (fuel := fuel) (st := if JsMap.has key (Cache.cache st)
                                 then snd (Cache.delete key st) else st)
           (entrySize := Cache.Q_or sz (Cache.estimateSize JSON_stringify d));
      auto.
    - intros k s [Hs1 Hs2]. unfold Cache.keys. rewrite CacheFacts.delete_cache.
      split; [now apply JsMapFacts.delete_wf|].
      intros HI. apply Hs2. eapply JsMapFacts.keys_delete_incl. exact HI.
    - destruct (JsMap.has key (Cache.cache st)); [|auto].
      unfold Cache.keys. rewrite CacheFacts.delete_cache.
      split; [now apply JsMapFacts.delete_wf|].
      intros HI. apply Hne. eapply JsMapFacts.keys_delete_incl. exact HI. }
  destruct H2 as [Hwf2 Hne2]. split; [now apply JsMapFacts.set_wf|].
  unfold Cache.keys. cbn [Cache.cache Cache.with_cache].
  intros HI. apply JsMapFacts.get_None_keys in Hne2.
  apply in_map_iff in HI. destruct HI as [[k' e'] [Hk HI]]. simpl in Hk. subst k'.
  apply JsMapFacts.In_get in HI; [|now apply JsMapFacts.set_wf].
  rewrite JsMapFacts.get_set_other in HI by auto. congruence.
Qed.

(** X7.  Take an exact state (sizes that are whole numbers of
    quarter-bytes between 0 and 2^50 bytes, the counter equal to their sum)
    with no key equal to the empty string.  A [set] whose entry is of such
    a size and alone larger than [maxSize] returns, and afterwards that
    entry is the only one in the cache. *)
Theorem oversized_set_evicts_all now1 now2 key (d : T) ttl sz st :
  Cache.exact_state st ->
  Cache.exact_size (Cache.Q_or sz (Cache.estimateSize JSON_stringify d)) ->
  ~ In "" (Cache.keys st) ->
  (Cache.maxSize (Cache.options st)
   < Cache.Q_or sz (Cache.estimateSize JSON_stringify d))%Q ->
  exists st' e,
    Cache.set_returns JSON_stringify now1 now2 key d ttl sz st st' /\
    Cache.cache st' = [(key, e)] /\ Cache.data e = d /\
    (Cache.currentSize st' == Cache.size e)%Q.
Proof.
  intros [Hc [_ [Hsz _]]] _ Hne Hbig.
  assert (Hpos : forall k e, In (k, e) (Cache.cache st) -> (0 <= Cache.size e)%Q)
    by (intros k e HI; apply (Hsz k e HI)).
  destruct (CacheFacts.set_returns_without_empty_key T JSON_stringify
              now1 now2 key d ttl sz st (proj1 Hc) Hne) as [st' [fuel Hs]].
  destruct (CacheFacts.oversized_set_alone T JSON_stringify
              fuel now1 now2 key d ttl sz st st' Hc Hpos Hbig Hs) as [e [H1 H2]].
  exists st', e. split; [now exists fuel|]. split; [exact H1|].
  split; [exact H2|].
  destruct (CacheFacts.set_consistent T JSON_stringify
              fuel now1 now2 key d ttl sz st st' Hc Hs) as [_ Hsum].
  rewrite H1 in Hsum. simpl in Hsum. rewrite Hsum. lra.
Qed.

(** X8.  The victim of an eviction is the first entry, in insertion order,
    among those with the least timestamp: every entry before it is strictly
    younger and no entry after it is older.  Only an empty cache has no
    victim. *)
Theorem oldestKey_is_first_minimum m :
  (Cache.oldestKey m = None <-> m = []) /\
  (forall k, Cache.oldestKey m = Some k ->
     exists pre e post,
       m = (pre ++ (k, e) :: post)%list /\
       (forall k' e', In (k', e') pre ->
          Cache.timestamp e < Cache.timestamp e') /\
       (forall k' e', In (k', e') post ->
          Cache.timestamp e <= Cache.timestamp e')).
Proof.
  unfold Cache.oldestKey, Cache.scan_oldest.
  destruct m as [|[k0 e0] rest].
  - split; [split; reflexivity|]. simpl. discriminate.
  - cbn [fold_left Cache.scan_step snd].
    destruct (CacheFacts.scan_shape T rest k0 (Cache.timestamp e0))
      as [[E Hall]|[pre [k1 [e1 [post [Hm [E [Ht [Hpre Hpost]]]]]]]]];
      rewrite E; cbn [fst].
    + split; [split; discriminate|].
      intros k [= <-]. exists [], e0, rest.
      split; [reflexivity|]. split; [intros k' e' []|exact Hall].
    + split; [split; discriminate|].
      intros k [= <-]. exists ((k0, e0) :: pre), e1, post. subst rest.
      split; [reflexivity|]. split; [|exact Hpost].
      intros k' e' [[= <- <-]|HI]; [lia|now apply (Hpre k')].
Qed.

(** Whatever the loop of [set] evicts is no younger than what it keeps. *)
Lemma evict_loop_oldest_first fuel entrySize st st' k e k' e' :
  JsMap.wf (Cache.cache st) ->
  Cache.evict_loop fuel entrySize st = Some st' ->
  JsMap.get k (Cache.cache st) = Some e ->
  JsMap.get k (Cache.cache st') = None ->
  JsMap.get k' (Cache.cache st') = Some e' ->
  Cache.timestamp e <= Cache.timestamp e'.
Proof.
  revert st. induction fuel as [|fuel IH]; intros st Hwf; simpl;
    destruct (Cache.must_evict entrySize st) eqn:Hg; try discriminate;
    try (intros [= <-]; congruence).
  intros Hl He Hgone Hkept.
  destruct (CacheFacts.evict_cases T st) as [Hsame|[v [Hv [_ Hdel]]]].
  - rewrite Hsame in Hl. now apply (IH st).
  - rewrite Hdel in Hl.
    destruct (CacheFacts.oldestKey_spec T (Cache.cache st)
                (CacheFacts.must_evict_nonempty T _ _ Hg))
      as [v' [ev [Hv' [HIv Hmin]]]].
    rewrite Hv in Hv'. injection Hv' as <-.
    destruct (String.eqb_spec v k) as [->|Hne].
    + rewrite (JsMapFacts.In_get _ _ _ _ Hwf HIv) in He. injection He as <-.
      apply (Hmin k'). apply JsMapFacts.get_In.
      apply (evict_loop_survivors _ _ _ _ _ _ Hl) in Hkept.
      rewrite CacheFacts.delete_cache in Hkept.
      destruct (String.eqb_spec k k') as [->|Hne'].
      * rewrite JsMapFacts.get_delete_same in Hkept. discriminate.
      * now rewrite JsMapFacts.get_delete_other in Hkept.
    + apply (IH (snd (Cache.delete v st))); auto.
      * rewrite CacheFacts.delete_cache. now apply JsMapFacts.delete_wf.
      * rewrite CacheFacts.delete_cache.
        now rewrite JsMapFacts.get_delete_other.
Qed.

(** X9.  Eviction order of [set]: among the entries under other keys, every
    entry that a returning [set] evicted has a timestamp no greater than
    that of every entry it kept. *)
Theorem set_evicts_oldest_first fuel now1 now2 key (d : T) ttl sz st st'
        k e k' e' :
  JsMap.wf (Cache.cache st) ->
  Cache.set JSON_stringify fuel now1 now2 key d ttl sz st = Some st' ->
  k <> key -> k' <> key ->
  JsMap.get k (Cache.cache st) = Some e ->
  JsMap.get k (Cache.cache st') = None ->
  JsMap.get k' (Cache.cache st') = Some e' ->
  Cache.timestamp e <= Cache.timestamp e'.
Proof.
  intros Hwf. unfold Cache.set.
  destruct (Cache.evict_loop fuel _ _) as [st2|] eqn:Hl; [|discriminate].
  intros [= <-] Hk Hk'. cbn [Cache.cache Cache.with_cache].
  rewrite !JsMapFacts.get_set_other by auto.
  intros He Hgone Hkept.
  eapply evict_loop_oldest_first; [| exact Hl | | exact Hgone | exact Hkept].
  - destruct (JsMap.has key (Cache.cache st)); [|exact Hwf].
    rewrite CacheFacts.delete_cache. now apply JsMapFacts.delete_wf.
  - destruct (JsMap.has key (Cache.cache st)); [|exact He].
    rewrite CacheFacts.delete_cache. now rewrite JsMapFacts.get_delete_other.
Qed.
End Extras.

Import CacheScenarios.

Ltac solve_wf :=
  unfold JsMap.wf; simpl; repeat constructor; simpl; intuition discriminate.

Lemma with_k1_k2_consistent : Cache.consistent with_k1_k2.
Proof. split; [solve_wf|reflexivity]. Defined.

(** X1 on the [set] of k3 at time 3 into the cache holding k1 and k2. *)
Lemma set_then_get_witness :
  fst (Cache.get 100 100 "k3" with_k2_k3) = Some "k3" /\
  Cache.has 100 "k3" with_k2_k3 = (true, with_k2_k3) /\
  fst (Cache.get 100000000 100000000 "k3" with_k2_k3) = None.
Proof.
  pose proof (set_then_get string stringify 8 3 3 "k3" "k3" None
                (Some (inject_Z 400)) with_k1_k2 with_k2_k3 eq_refl) as H.
  cbv zeta in H. destruct H as [H1 H2].
  destruct (H1 100 100) as [Hg Hh]; [simpl; lia|].
  split; [exact Hg|]. split; [exact Hh|].
  apply H2. simpl. lia.
Defined.

(** X2 on the same [set]: k2, found afterwards, is the entry stored at
    time 2. *)
Lemma set_keeps_or_evicts_others_witness :
  JsMap.get "k2" (Cache.cache with_k1_k2)
  = Some (Cache.mkEntry "k2" 2 (inject_Z 400) 86400002).
Proof.
  apply (set_keeps_or_evicts_others string stringify 8 3 3 "k3" "k3" None
           (Some (inject_Z 400)) with_k1_k2 with_k2_k3 "k2");
    [reflexivity|discriminate|reflexivity].
Defined.


(** X4 on the cache holding k1 and k2, swept at time 86400002: k1 has
    expired, k2 has not. *)
Lemma cleanup_removes_exactly_expired_witness :
  JsMap.get "k1" (Cache.cache (Cache.cleanup 86400002 with_k1_k2)) = None /\
  JsMap.get "k2" (Cache.cache (Cache.cleanup 86400002 with_k1_k2))
  = Some (Cache.mkEntry "k2" 2 (inject_Z 400) 86400002).
Proof.
  split.
  - rewrite (cleanup_removes_exactly_expired string 86400002 with_k1_k2 "k1");
      [reflexivity|solve_wf].
  - rewrite (cleanup_removes_exactly_expired string 86400002 with_k1_k2 "k2");
      [reflexivity|solve_wf].
Defined.

(** X5 on a read of k1 at time 5. *)
Lemma get_refreshes_timestamp_only_witness :
  JsMap.get "k1" (Cache.cache (snd (Cache.get 5 5 "k1" with_k1_k2)))
  = Some (Cache.mkEntry "k1" 5 (inject_Z 400) 86400001) /\
  Cache.keys (snd (Cache.get 5 5 "k1" with_k1_k2)) = ["k1"; "k2"] /\
  fst (Cache.get 86400002 86400002 "k1" (snd (Cache.get 5 5 "k1" with_k1_k2)))
  = None.
Proof.
  pose proof (get_refreshes_timestamp_only string 5 5 "k1" with_k1_k2
                (Cache.mkEntry "k1" 1 (inject_Z 400) 86400001) eq_refl) as H.
  cbv zeta in H. destruct H as [_ [H2 [_ [H4 [_ H6]]]]]; [simpl; lia|].
  split; [exact H2|]. split; [exact H4|].
  apply H6. simpl. lia.
Defined.

(** X6 on the cache holding k1 and k2. *)
Lemma set_returns_for_nonempty_keys_witness :
  exists st',
    Cache.set_returns stringify 3 3 "k3" "k3" None (Some (inject_Z 400))
                      with_k1_k2 st' /\
    JsMap.has "k3" (Cache.cache st') = true.
Proof.
  destruct (set_returns_for_nonempty_keys string stringify 3 3 "k3" "k3" None
              (Some (inject_Z 400)) with_k1_k2) as [st' [H1 [H2 _]]].
  - solve_wf.
  - simpl. intuition discriminate.
  - discriminate.
  - exists st'. split; [exact H1|exact H2].
Defined.

(** X7 on the cache holding k1 and k2 (budget 1000) and an entry of 2000
    bytes. *)
Lemma oversized_set_evicts_all_witness :
  exists st' e,
    Cache.set_returns stringify 3 3 "big" "v" None (Some (inject_Z 2000))
                      with_k1_k2 st' /\
    Cache.cache st' = [("big", e)] /\ Cache.data e = "v" /\
    (Cache.currentSize st' == Cache.size e)%Q.
Proof.
  apply (oversized_set_evicts_all string stringify 3 3 "big" "v" None
           (Some (inject_Z 2000)) with_k1_k2).
  - split; [exact with_k1_k2_consistent|].
    split; [split; [exists 4000; reflexivity|split; vm_compute; discriminate]|].
    split.
    + simpl. intros k e [[= <- <-]|[[= <- <-]|[]]];
        (split; [exists 1600; reflexivity|split; vm_compute; discriminate]).
    + left. vm_compute. discriminate.
  - split; [exists 8000; reflexivity|split; vm_compute; discriminate].
  - simpl. intuition discriminate.
  - reflexivity.
Defined.

(** X8 on the cache where A and B both carry timestamp 2: the victim is A,
    the earlier of the two in the map. *)
Lemma oldestKey_is_first_minimum_witness :
  exists pre e post,
    Cache.cache after_read_A_at_2 = (pre ++ ("A", e) :: post)%list /\
    (forall k' e', In (k', e') pre -> Cache.timestamp e < Cache.timestamp e') /\
    (forall k' e', In (k', e') post -> Cache.timestamp e <= Cache.timestamp e').
Proof.
  destruct (oldestKey_is_first_minimum string (Cache.cache after_read_A_at_2))
    as [_ H].
  apply (H "A"). reflexivity.
Defined.

(** X9 on the [set] of k3: k1 (timestamp 1) was evicted, k2 (timestamp 2)
    kept. *)
Lemma set_evicts_oldest_first_witness :
  Cache.timestamp (Cache.mkEntry "k1" 1 (inject_Z 400) 86400001)
  <= Cache.timestamp (Cache.mkEntry "k2" 2 (inject_Z 400) 86400002).
Proof.
  apply (set_evicts_oldest_first string stringify 8 3 3 "k3" "k3" None
           (Some (inject_Z 400)) with_k1_k2 with_k2_k3 "k1" _ "k2" _);
    [solve_wf|reflexivity|discriminate|discriminate
     |reflexivity|reflexivity|reflexivity].
Defined.
End CacheExtras.

(** * Further properties of the specialised caches *)

Module ImageCacheExtras.
Lemma split_without_separator c s :
  Js.includes c s = false -> Js.split c s = [s].
Proof.
  induction s as [|a s IH]; simpl; [reflexivity|].
  intros H. apply orb_false_iff in H. destruct H as [Ha Hs].
  rewrite Ha, (IH Hs). reflexivity.
Qed.

Lemma split_at_first_separator c h rest :
  Js.includes c h = false ->
  Js.split c (h ++ String c rest) = h :: Js.split c rest.
Proof.
  induction h as [|a h IH]; simpl.
  - intros _. now rewrite Ascii.eqb_refl.
  - intros H. apply orb_false_iff in H. destruct H as [Ha Hh].
    rewrite Ha, (IH Hh). reflexivity.
Qed.

Section Extras.
Variable JSON_stringify : string -> option string.
Variable Number_toString : Q -> string.

(** X10.  [estimateImageSize] never answers zero or less, so the [set] of
    [cacheImage] always uses it and never the JSON estimator.  A string
    without a comma counts 1024 bytes; a data URL [header,payload] with one
    comma and a non-empty payload counts three quarters of the payload's
    length. *)
Theorem estimateImageSize_cases :
  (forall dataUrl, (0 < ImageCache.estimateImageSize dataUrl)%Q) /\
  (forall dataUrl,
     Js.includes "," dataUrl = false ->
     ImageCache.estimateImageSize dataUrl = inject_Z 1024) /\
  (forall header payload,
     Js.includes "," header = false ->
     Js.includes "," payload = false ->
     payload <> "" ->
     ImageCache.estimateImageSize (header ++ "," ++ payload)
     = Qmake (Z.of_nat (String.length payload) * 3) 4).
Proof.
  split; [|split].
  - intros dataUrl. unfold ImageCache.estimateImageSize.
    destruct (nth_error (Js.split "," dataUrl) 1) as [b|]; [|reflexivity].
    destruct (String.eqb_spec b "") as [|Hne]; [reflexivity|].
    destruct b as [|a b]; [congruence|].
    unfold Qlt. simpl. lia.
  - intros dataUrl H. unfold ImageCache.estimateImageSize.
    now rewrite (split_without_separator _ _ H).
  - intros header payload Hh Hp Hne. unfold ImageCache.estimateImageSize.
    change ("," ++ payload) with (String "," payload).
    rewrite (split_at_first_separator _ _ _ Hh).
    rewrite (split_without_separator _ _ Hp). simpl.
    destruct (String.eqb_spec payload ""); [contradiction|reflexivity].
Qed.

(** A hit of [cacheImage]: when the key holds a live, non-empty value,
    that value is returned whatever the compression would answer, and the
    cache is left as the lookup left it. *)
Lemma cacheImage_hit compressImage fuel g1 g2 s1 s2 url quality st v st1 :
  Cache.get g1 g2
    (ImageCache.cacheKey Number_toString url (Cache.orElse quality (8 # 10))) st
  = (Some v, st1) ->
  v <> "" ->
  ImageCache.cacheImage JSON_stringify Number_toString compressImage
                        fuel g1 g2 s1 s2 url quality st
  = Some (Js.Resolved v, st1).
Proof.
  intros Hget Hv. unfold ImageCache.cacheImage. rewrite Hget.
  destruct (String.eqb_spec v ""); [contradiction|reflexivity].
Qed.

Lemma get_options {T} now1 now2 key (st : Cache.CacheService T) :
  Cache.options (snd (Cache.get now1 now2 key st)) = Cache.options st.
Proof.
  unfold Cache.get. destruct (JsMap.get key (Cache.cache st)) as [e|];
    [|reflexivity].
  destruct (now1 >? Cache.expires e); [apply CacheFacts.delete_options|reflexivity].
Qed.

(** X11.  Populate, then hit: after a miss whose compression succeeds with
    a non-empty data URL, [cacheImage] returns that data URL, and until the
    clock passes the time of the store plus [defaultTTL] every further call
    for the same URL and quality returns it again, whatever the
    compression would answer then. *)
Theorem cacheImage_populates compressImage fuel g1 g2 s1 s2 url quality st
        dataUrl r st2 :
  fst (Cache.get g1 g2
         (ImageCache.cacheKey Number_toString url (Cache.orElse quality (8 # 10)))
         st) = None ->
  compressImage url (Cache.orElse quality (8 # 10)) = Js.Resolved dataUrl ->
  dataUrl <> "" ->
  ImageCache.cacheImage JSON_stringify Number_toString compressImage
                        fuel g1 g2 s1 s2 url quality st = Some (r, st2) ->
  r = Js.Resolved dataUrl /\
  forall compressImage' fuel' g1' g2' s1' s2',
    g1' <= s1 + Cache.defaultTTL (Cache.options st) ->
    exists st3,
      ImageCache.cacheImage JSON_stringify Number_toString compressImage'
                            fuel' g1' g2' s1' s2' url quality st2
      = Some (Js.Resolved dataUrl, st3).
Proof.
  intros Hmiss Hok Hne. unfold ImageCache.cacheImage at 1.
  set (key := ImageCache.cacheKey Number_toString url
                                  (Cache.orElse quality (8 # 10))) in *.
  pose proof (get_options g1 g2 key st) as Hopt.
  destruct (Cache.get g1 g2 key st) as [cached st1]. simpl in Hmiss, Hopt.
  subst cached. rewrite Hok.
  destruct (Cache.set JSON_stringify fuel s1 s2 key dataUrl None _ st1)
    as [st2'|] eqn:Hset; [|discriminate].
  intros [= <- <-]. split; [reflexivity|].
  intros compressImage' fuel' g1' g2' s1' s2' Ht.
  pose proof (CacheExtras.read_after_set string JSON_stringify _ _ _ _ _ _ _ _ _
                Hset) as H.
  cbv zeta in H. destruct H as [H _]. rewrite Hopt in H.
  change (Cache.Z_or None (Cache.defaultTTL (Cache.options st)))
    with (Cache.defaultTTL (Cache.options st)) in H.
  destruct (H g1' g2' Ht) as [Hg _].
  unfold ImageCache.cacheImage. fold key.
  destruct (Cache.get g1' g2' key st2') as [c st3]. simpl in Hg. subst c.
  exists st3. destruct (String.eqb_spec dataUrl ""); [contradiction|reflexivity].
Qed.
End Extras.

Import ExtraScenarios.

(** X10 on a JPEG data URL with a payload of four characters. *)
Lemma estimateImageSize_cases_witness :
  ImageCache.estimateImageSize data_url = Qmake 12 4 /\
  ImageCache.estimateImageSize "page.png" = inject_Z 1024.
Proof.
  destruct estimateImageSize_cases as [_ [H1 H2]].
  split.
  - apply (H2 "data:image/jpeg;base64" "AAAA"); [reflexivity|reflexivity|discriminate].
  - apply H1. reflexivity.
Defined.

(** The hit on the cache that already holds page.png, with a compression
    that fails. *)
Lemma cacheImage_hit_witness :
  ImageCache.cacheImage CacheScenarios.stringify PopulateScenarios.render
                        PopulateScenarios.broken_image 8 5 5 5 5
                        "page.png" None image_cached
  = Some (Js.Resolved data_url,
          snd (Cache.get 5 5 "page.png-0.8" image_cached)).
Proof.
  apply cacheImage_hit; [reflexivity|discriminate].
Defined.

(** X11 on a fresh image cache: the first call compresses, the second, at
    time 5 and with a compression that fails, still returns the data
    URL. *)
Lemma cacheImage_populates_witness :
  exists st3,
    ImageCache.cacheImage CacheScenarios.stringify PopulateScenarios.render
                          PopulateScenarios.broken_image 8 5 5 5 5
                          "page.png" None image_cached
    = Some (Js.Resolved data_url, st3).
Proof.
  destruct (cacheImage_populates CacheScenarios.stringify PopulateScenarios.render
              good_image 8 1 1 1 1 "page.png" None
              ImageCache.new_ImageCacheService data_url
              (Js.Resolved data_url) image_cached) as [_ H];
    [reflexivity|reflexivity|discriminate|reflexivity|].
  apply (H PopulateScenarios.broken_image 8%nat 5 5 5 5). simpl. lia.
Defined.
End ImageCacheExtras.

(** * Further properties of the translation caches and providers *)

Module TranslationExtras.
Lemma append_assoc (a b c : string) : (a ++ b) ++ c = a ++ (b ++ c).
Proof. induction a as [|x a IH]; simpl; [reflexivity|now rewrite IH]. Qed.

(** Two prefixes free of the separator, each followed by the separator:
    equal strings have equal prefixes and equal rests. *)
Lemma prefix_before_separator c a a' r r' :
  Js.includes c a = false -> Js.includes c a' = false ->
  a ++ String c r = a' ++ String c r' -> a = a' /\ r = r'.
Proof.
  revert a'. induction a as [|x a IH]; intros [|x' a']; simpl;
    intros Ha Ha' E.
  - injection E as <-. auto.
  - injection E as <- _. apply orb_false_iff in Ha'.
    rewrite Ascii.eqb_refl in Ha'. destruct Ha'. discriminate.
  - injection E as -> _. apply orb_false_iff in Ha.
    rewrite Ascii.eqb_refl in Ha. destruct Ha. discriminate.
  - injection E as <- E. apply orb_false_iff in Ha, Ha'.
    destruct (IH a' (proj2 Ha) (proj2 Ha') E) as [-> ->]. auto.
Qed.

Lemma try_providers_resolved ps now key text from to st r st2 :
  Translation.try_providers ps now key text from to st = (Js.Resolved r, st2) ->
  st2 = Translation.mkService (Translation.providers st)
          (JsMap.set key r (Translation.cache st))
          (JsMap.set key (now + Translation.cacheTimeout)
                     (Translation.cacheExpiry st)).
Proof.
  induction ps as [|p ps IH]; simpl; [discriminate|].
  destruct (Translation.provider_translate p text from to);
    [|exact IH].
  now intros [= <- <-].
Qed.

Section CacheService.
Variable JSON_stringify : string -> option string.

(** X12.  [cacheTranslation] then [getCachedTranslation]: until the clock
    passes the time of the store plus [defaultTTL], the stored translation
    is returned for the same request and for every request that yields the
    same key; a language code and a text can trade a hyphenated part and
    still yield the same key. *)
Theorem cached_translation_round_trip fuel now1 now2 text from to translation
        st st' :
  TranslationCache.cacheTranslation JSON_stringify fuel now1 now2
                                    text from to translation st = Some st' ->
  (forall text' from' to' t1 t2,
     TranslationCache.getCacheKey text' from' to'
     = TranslationCache.getCacheKey text from to ->
     t1 <= now1 + Cache.defaultTTL (Cache.options st) ->
     fst (TranslationCache.getCachedTranslation t1 t2 text' from' to' st')
     = Some translation) /\
  (forall x t f o,
     TranslationCache.getCacheKey (x ++ "-" ++ t) f o
     = TranslationCache.getCacheKey t f (o ++ "-" ++ x)).
Proof.
  intros Hset. split.
  - intros text' from' to' t1 t2 Hkey Ht.
    unfold TranslationCache.getCachedTranslation. rewrite Hkey.
    pose proof (CacheExtras.read_after_set string JSON_stringify _ _ _ _ _ _ _ _ _
                  Hset) as H.
    cbv zeta in H. destruct H as [H _].
    now destruct (H t1 t2 Ht).
  - intros x t f o. unfold TranslationCache.getCacheKey.
    now rewrite !append_assoc.
Qed.
End CacheService.

(** X13.  For language codes without a hyphen the cache key determines the
    request: equal keys mean equal text, source and target. *)
Theorem getCacheKey_injective text from to text' from' to' :
  Js.includes "-" from = false -> Js.includes "-" to = false ->
  Js.includes "-" from' = false -> Js.includes "-" to' = false ->
  TranslationCache.getCacheKey text from to
  = TranslationCache.getCacheKey text' from' to' ->
  text = text' /\ from = from' /\ to = to'.
Proof.
  intros Hf Ht Hf' Ht'. unfold TranslationCache.getCacheKey.
  change ("-" ++ to ++ "-" ++ text) with (String "-" (to ++ String "-" text)).
  change ("-" ++ to' ++ "-" ++ text') with (String "-" (to' ++ String "-" text')).
  intros E.
  destruct (prefix_before_separator _ _ _ _ _ Hf Hf' E) as [-> E2].
  destruct (prefix_before_separator _ _ _ _ _ Ht Ht' E2) as [-> ->].
  auto.
Qed.

(** X14.  A translation obtained on a miss is served from the cache
    afterwards: until the clock passes the time of the store plus 24 hours,
    [translate] for the same request returns the same result and changes
    nothing, whatever providers are registered by then. *)
Theorem translate_then_hit now1 now2 text from to st r st2 :
  0 <= now2 ->
  fst (Translation.isInCache now1 (from ++ "-" ++ to ++ "-" ++ text) st) = false ->
  Translation.translate now1 now2 text from to st = (Js.Resolved r, st2) ->
  forall ps' t1 t2,
    t1 <= now2 + Translation.cacheTimeout ->
    let st3 := Translation.mkService ps' (Translation.cache st2)
                                     (Translation.cacheExpiry st2) in
    Translation.translate t1 t2 text from to st3 = (Js.Resolved r, st3).
Proof.
  intros Hnow Hmiss. unfold Translation.translate at 1.
  set (key := from ++ "-" ++ to ++ "-" ++ text) in *.
  destruct (Translation.isInCache now1 key st) as [hit st1]. simpl in Hmiss.
  subst hit. intros Htry. apply try_providers_resolved in Htry. subst st2.
  intros ps' t1 t2 Ht. cbv zeta.
  set (st3 := Translation.mkService ps' _ _).
  unfold Translation.translate. fold key.
  assert (E : Translation.isInCache t1 key st3 = (true, st3)).
  { unfold Translation.isInCache, st3. cbn [Translation.cacheExpiry Translation.cache].
    rewrite JsMapFacts.get_set_same.
    unfold Translation.cacheTimeout in *.
    destruct (Z.eqb_spec (now2 + 24 * 60 * 60 * 1000) 0); [lia|].
    destruct (Z.gtb_spec t1 (now2 + 24 * 60 * 60 * 1000)); [lia|].
    cbn [orb]. unfold JsMap.has. now rewrite JsMapFacts.get_set_same. }
  rewrite E. unfold st3. cbn [Translation.cache].
  now rewrite JsMapFacts.get_set_same.
Qed.

(** X15.  A stale translation is never served: once the clock is past the
    time of the store plus 24 hours, [translate] drops the entry from both
    maps and asks the providers again; if the providers registered by then
    all fail, it rejects and the key stays absent. *)
Theorem translate_after_expiry now1 now2 text from to st r st2 :
  0 <= now2 ->
  fst (Translation.isInCache now1 (from ++ "-" ++ to ++ "-" ++ text) st) = false ->
  Translation.translate now1 now2 text from to st = (Js.Resolved r, st2) ->
  forall ps' t1 t2,
    now2 + Translation.cacheTimeout < t1 ->
    let key := from ++ "-" ++ to ++ "-" ++ text in
    let st3 := Translation.mkService ps' (Translation.cache st2)
                                     (Translation.cacheExpiry st2) in
    Translation.isInCache t1 key st3
    = (false, Translation.mkService ps'
                (JsMap.delete key (Translation.cache st2))
                (JsMap.delete key (Translation.cacheExpiry st2))) /\
    (Forall (PopulateProps.fails text from to) ps' ->
     fst (Translation.translate t1 t2 text from to st3)
     = Js.Rejected (Js.JsError "All translation providers failed") /\
     JsMap.get key (Translation.cache
                      (snd (Translation.translate t1 t2 text from to st3)))
     = None).
Proof.
  intros Hnow Hmiss. unfold Translation.translate at 1.
  set (key := from ++ "-" ++ to ++ "-" ++ text) in *.
  destruct (Translation.isInCache now1 key st) as [hit st1]. simpl in Hmiss.
  subst hit. intros Htry. apply try_providers_resolved in Htry. subst st2.
  intros ps' t1 t2 Ht. cbv zeta. fold key.
  cbn [Translation.cache Translation.cacheExpiry].
  set (c2 := JsMap.set key r (Translation.cache st1)).
  set (x2 := JsMap.set key (now2 + Translation.cacheTimeout)
                       (Translation.cacheExpiry st1)).
  assert (E : Translation.isInCache t1 key (Translation.mkService ps' c2 x2)
              = (false, Translation.mkService ps'
                          (JsMap.delete key c2) (JsMap.delete key x2))).
  { unfold Translation.isInCache. cbn [Translation.cacheExpiry].
    unfold x2 at 1. rewrite JsMapFacts.get_set_same.
    destruct (Z.gtb_spec t1 (now2 + Translation.cacheTimeout)); [|lia].
    rewrite orb_true_r. reflexivity. }
  split; [exact E|].
  intros Hall. unfold Translation.translate. fold key. rewrite E.
  cbn [Translation.providers].
  rewrite PopulateProps.try_providers_all_fail by exact Hall.
  cbn [fst snd Translation.cache]. split; [reflexivity|].
  apply JsMapFacts.get_delete_same.
Qed.


(** X17.  The provider added last is asked first: on a miss, if it
    succeeds, its translation is returned under its name, whatever the
    providers registered before it would answer. *)
Theorem added_provider_has_priority p now1 now2 text from to st translated :
  fst (Translation.isInCache now1 (from ++ "-" ++ to ++ "-" ++ text)
                             (Translation.addProvider p st)) = false ->
  Translation.provider_translate p text from to = Js.Resolved translated ->
  fst (Translation.translate now1 now2 text from to (Translation.addProvider p st))
  = Js.Resolved
      (Translation.mkResult translated (Translation.name p)
         (Translation.calculateConfidence (Translation.name p) translated)).
Proof.
  intros Hmiss Hok. unfold Translation.translate.
  set (key := from ++ "-" ++ to ++ "-" ++ text) in *.
  destruct (PopulateProps.isInCache_miss now1 key _ Hmiss) as [_ Hprov].
  destruct (Translation.isInCache now1 key (Translation.addProvider p st))
    as [hit st1]. simpl in Hmiss, Hprov. subst hit.
  rewrite Hprov. cbn [Translation.addProvider Translation.providers].
  cbn [Translation.try_providers]. now rewrite Hok.
Qed.

Import ExtraScenarios.

(** X12 on the translation cache holding hello, en to zh-TW: the request
    TW-hello, en to zh, is served the same entry. *)
Lemma cached_translation_round_trip_witness :
  fst (TranslationCache.getCachedTranslation 5 5 "hello" "en" "zh-TW"
                                             translation_cached) = Some "nihao" /\
  fst (TranslationCache.getCachedTranslation 5 5 "TW-hello" "en" "zh"
                                             translation_cached) = Some "nihao".
Proof.
  destruct (cached_translation_round_trip CacheScenarios.stringify 8 1 1
              "hello" "en" "zh-TW" "nihao"
              TranslationCache.new_TranslationCacheService translation_cached
              eq_refl) as [H _].
  split; apply H; try reflexivity; simpl; lia.
Defined.

(** X13 on a request from ja to en. *)
Lemma getCacheKey_injective_witness :
  "hello" = "hello" /\ "ja" = "ja" /\ "en" = "en".
Proof.
  apply (getCacheKey_injective "hello" "ja" "en" "hello" "ja" "en");
    reflexivity.
Defined.

Lemma first_translation_of_hi :
  Translation.translate 1 1 "hi" "ja" "en" two_providers
  = (Js.Resolved hello_result, after_hi).
Proof. reflexivity. Defined.

(** X14 on the service that translated hi at time 1, asked again at time 5
    with only a provider that is down. *)
Lemma translate_then_hit_witness :
  fst (Translation.translate 5 5 "hi" "ja" "en"
         (Translation.mkService [PopulateScenarios.libre_down]
            (Translation.cache after_hi) (Translation.cacheExpiry after_hi)))
  = Js.Resolved hello_result.
Proof.
  pose proof (translate_then_hit 1 1 "hi" "ja" "en" two_providers
                hello_result after_hi ltac:(lia) eq_refl first_translation_of_hi
                [PopulateScenarios.libre_down] 5 5) as H.
  cbv zeta in H. rewrite H; [reflexivity|].
  unfold Translation.cacheTimeout. lia.
Defined.

(** X15 on the same service asked again a day and two milliseconds
    later. *)
Lemma translate_after_expiry_witness :
  fst (Translation.translate 86400003 86400003 "hi" "ja" "en"
         (Translation.mkService [PopulateScenarios.libre_down]
            (Translation.cache after_hi) (Translation.cacheExpiry after_hi)))
  = Js.Rejected (Js.JsError "All translation providers failed").
Proof.
  pose proof (translate_after_expiry 1 1 "hi" "ja" "en" two_providers
                hello_result after_hi ltac:(lia) eq_refl first_translation_of_hi
                [PopulateScenarios.libre_down] 86400003 86400003) as H.
  cbv zeta in H. destruct H as [_ H]; [unfold Translation.cacheTimeout; lia|].
  apply H. repeat constructor.
  exists (Js.JsError "LibreTranslate failed"). reflexivity.
Defined.


(** X17 on a service whose only provider is down, after the offline
    provider is added. *)
Lemma added_provider_has_priority_witness :
  fst (Translation.translate 1 1 "hi" "ja" "en"
         (Translation.addProvider PopulateScenarios.offline_hello
            (PopulateScenarios.service [PopulateScenarios.libre_down])))
  = Js.Resolved hello_result.
Proof.
  apply (added_provider_has_priority PopulateScenarios.offline_hello
           1 1 "hi" "ja" "en"
           (PopulateScenarios.service [PopulateScenarios.libre_down]) "Hello");
    reflexivity.
Defined.
End TranslationExtras.

(** * Provider setup of [ConfigService] *)

Module ConfigExtras.
Section Setup.
Variable GoogleTranslateProvider : string -> Translation.TranslationProvider.
Variable DeepLProvider : string -> Translation.TranslationProvider.
Variable LibreTranslateProvider :
  option string -> option string -> Translation.TranslationProvider.
Variable OfflineTranslationProvider : Translation.TranslationProvider.
Hypothesis google_name :
  forall k, Translation.name (GoogleTranslateProvider k) = "Google Translate".
Hypothesis deepl_name :
  forall k, Translation.name (DeepLProvider k) = "DeepL".
Hypothesis libre_name :
  forall u k, Translation.name (LibreTranslateProvider u k) = "LibreTranslate".
Hypothesis offline_name :
  Translation.name OfflineTranslationProvider = "Offline Dictionary".

Definition listed (b : bool) (n : string) : list string :=
  if b then [n] else [].

(** X18.  [setupTranslationServices] empties the translation cache and
    only ever adds providers: the ones already registered stay, after the
    new ones.  The order in which [translate] then asks them is
    LibreTranslate, DeepL, Google Translate, then the earlier ones, while
    [getTranslationProviders] lists DeepL, Google Translate, the offline
    dictionary and LibreTranslate last. *)
Theorem setup_provider_order (c : TranslationAdmin.AppConfig)
        (st : Translation.TranslationService) :
  let st' := TranslationAdmin.setupTranslationServices
               GoogleTranslateProvider DeepLProvider LibreTranslateProvider c st in
  let google := TranslationAdmin.truthy (TranslationAdmin.googleTranslateApiKey c) in
  let deepl := TranslationAdmin.truthy (TranslationAdmin.deepLApiKey c) in
  let libre := TranslationAdmin.truthy (TranslationAdmin.libreTranslateUrl c) in
  TranslationAdmin.getCacheSize st' = 0 /\
  Translation.cacheExpiry st' = [] /\
  (exists added,
     Translation.providers st' = (added ++ Translation.providers st)%list /\
     List.map Translation.name added
     = (listed libre "LibreTranslate" ++ listed deepl "DeepL"
        ++ listed google "Google Translate")%list) /\
  List.map Translation.name
    (Translation.providers
       (TranslationAdmin.setupTranslationServices
          GoogleTranslateProvider DeepLProvider LibreTranslateProvider c
          (TranslationAdmin.new_TranslationService OfflineTranslationProvider)))
  = (listed libre "LibreTranslate" ++ listed deepl "DeepL"
     ++ listed google "Google Translate" ++ ["Offline Dictionary"])%list /\
  TranslationAdmin.getTranslationProviders c
  = (listed deepl "DeepL" ++ listed google "Google Translate"
     ++ ["Offline Dictionary"] ++ listed libre "LibreTranslate")%list.
Proof.
  unfold TranslationAdmin.setupTranslationServices,
    TranslationAdmin.getTranslationProviders, TranslationAdmin.setupGoogleTranslate,
    TranslationAdmin.setupDeepL, TranslationAdmin.setupLibreTranslate,
    TranslationAdmin.getCacheSize, TranslationAdmin.new_TranslationService.
  destruct c as [g d l lk ? ? ? ? ? ? ? ? ? ? ?].
  cbn [TranslationAdmin.googleTranslateApiKey TranslationAdmin.deepLApiKey
       TranslationAdmin.libreTranslateUrl TranslationAdmin.libreTranslateApiKey].
  destruct g as [g|]; [destruct (String.eqb g "") eqn:Eg|];
    destruct d as [d|]; try destruct (String.eqb d "") eqn:Ed;
    destruct l as [l|]; try destruct (String.eqb l "") eqn:El;
    cbn; rewrite ?Eg, ?Ed, ?El; cbn;
    rewrite ?google_name, ?deepl_name, ?libre_name, ?offline_name;
    (split; [reflexivity|]); (split; [reflexivity|]);
    (split; [|split; reflexivity]).
  all: try (exists []; split; reflexivity).
  all: try (eexists [_]; split; [reflexivity|]; cbn;
            rewrite ?google_name, ?deepl_name, ?libre_name; reflexivity).
  all: try (eexists [_; _]; split; [reflexivity|]; cbn;
            rewrite ?google_name, ?deepl_name, ?libre_name; reflexivity).
  all: eexists [_; _; _]; split; [reflexivity|]; cbn;
    rewrite ?google_name, ?deepl_name, ?libre_name; reflexivity.
Qed.
End Setup.

(** X18 with all three services configured on a fresh service. *)
Lemma setup_provider_order_witness :
  List.map Translation.name
    (Translation.providers
       (TranslationAdmin.setupTranslationServices
          (fun _ => ExtraScenarios.down "Google Translate")
          (fun _ => ExtraScenarios.down "DeepL")
          (fun _ _ => ExtraScenarios.down "LibreTranslate")
          ExtraScenarios.all_keys
          (TranslationAdmin.new_TranslationService
             PopulateScenarios.offline_hello)))
  = ["LibreTranslate"; "DeepL"; "Google Translate"; "Offline Dictionary"] /\
  TranslationAdmin.getTranslationProviders ExtraScenarios.all_keys
  = ["DeepL"; "Google Translate"; "Offline Dictionary"; "LibreTranslate"].
Proof.
  pose proof (setup_provider_order
                (fun _ => ExtraScenarios.down "Google Translate")
                (fun _ => ExtraScenarios.down "DeepL")
                (fun _ _ => ExtraScenarios.down "LibreTranslate")
                PopulateScenarios.offline_hello
                (fun _ => eq_refl) (fun _ => eq_refl) (fun _ _ => eq_refl) eq_refl
                ExtraScenarios.all_keys
                (TranslationAdmin.new_TranslationService
                   PopulateScenarios.offline_hello)) as H.
  cbv zeta in H. destruct H as [_ [_ [_ [H1 H2]]]].
  split; [exact H1|exact H2].
Defined.
End ConfigExtras.

(** * Further properties of the edit history *)

Module HistoryExtras.
Section Extras.
Variable File : Type.

#[local] Abbreviation State := (History.AppState File).
Implicit Types (s : State) (a : History.EditAction).

Definition cursor_in_range (s : State) : Prop :=
  -1 <= History.historyIndex s < History.len (History.history s).

Lemma index_in_range (h : list History.EditAction) (i : Z) :
  0 <= i < History.len h -> exists a, History.index h i = History.RAction a.
Proof.
  intros Hi. unfold History.index, History.len in *.
  destruct (Z.ltb_spec i 0); [lia|].
  destruct (nth_error h (Z.to_nat i)) as [a|] eqn:E; [now exists a|].
  apply nth_error_None in E. lia.
Qed.

(** X19.  In every state reached from the initial one by [addToHistory],
    [undo], [redo], [clearHistory] and any [updateSettings], the cursor is
    at least -1 and below the length of the log. *)
Theorem cursor_stays_in_range s :
  History.reachable s ->
  -1 <= History.historyIndex s < History.len (History.history s).
Proof.
  induction 1 as [|s c _ IH].
  - unfold History.len. simpl. lia.
  - destruct c; cbn [History.run_call].
    + destruct (HistoryFacts.addToHistory_fields File a s) as [_ [Hi _]].
      rewrite Hi.
      pose proof (HistoryFacts.len_nonneg
                    (History.history (History.addToHistory a s))). lia.
    + unfold History.undo.
      destruct (Z.ltb_spec (History.historyIndex s) 0); simpl; lia.
    + unfold History.redo.
      destruct (Z.geb_spec (History.historyIndex s)
                  (History.len (History.history s) - 1)); simpl; lia.
    + unfold History.len. simpl. lia.
    + exact IH.
Qed.

(** X20.  With the cursor in range, [undo] returns an action exactly when
    [canUndo()] holds and [null] otherwise, and [redo] likewise with
    [canRedo()]; neither ever returns [undefined]. *)
Theorem can_undo_redo_exact s :
  -1 <= History.historyIndex s < History.len (History.history s) ->
  (History.canUndo s = true -> exists a, fst (History.undo s) = History.RAction a) /\
  (History.canUndo s = false -> History.undo s = (History.RNull, s)) /\
  (History.canRedo s = true -> exists a, fst (History.redo s) = History.RAction a) /\
  (History.canRedo s = false -> History.redo s = (History.RNull, s)).
Proof.
  intros Hc. unfold History.canUndo, History.canRedo, History.undo, History.redo.
  repeat split.
  - intros Hu. destruct (Z.geb_spec (History.historyIndex s) 0); [|discriminate].
    destruct (Z.ltb_spec (History.historyIndex s) 0); [lia|]. cbn [fst].
    apply index_in_range. lia.
  - intros Hu. destruct (Z.geb_spec (History.historyIndex s) 0); [discriminate|].
    destruct (Z.ltb_spec (History.historyIndex s) 0); [reflexivity|lia].
  - intros Hr.
    destruct (Z.ltb_spec (History.historyIndex s)
                (History.len (History.history s) - 1)); [|discriminate].
    destruct (Z.geb_spec (History.historyIndex s)
                (History.len (History.history s) - 1)); [lia|]. cbn [fst].
    apply index_in_range. lia.
  - intros Hr.
    destruct (Z.ltb_spec (History.historyIndex s)
                (History.len (History.history s) - 1)); [discriminate|].
    destruct (Z.geb_spec (History.historyIndex s)
                (History.len (History.history s) - 1)); [reflexivity|lia].
Qed.

Lemma set_historyIndex_same s i :
  i = History.historyIndex s -> History.set_historyIndex s i = s.
Proof. intros ->. now destruct s. Qed.

Lemma set_historyIndex_twice s i j :
  History.set_historyIndex (History.set_historyIndex s i) j
  = History.set_historyIndex s j.
Proof. reflexivity. Qed.

(** X21.  [undo] and [redo] undo each other: when [redo] is possible and
    the cursor is at least -1, [redo] then [undo] gives back the same store
    and both return the same action; when [undo] is possible and the cursor
    is inside the log, [undo] then [redo] does. *)
Theorem undo_redo_inverse s :
  (History.canRedo s = true ->
   -1 <= History.historyIndex s ->
   snd (History.undo (snd (History.redo s))) = s /\
   fst (History.undo (snd (History.redo s))) = fst (History.redo s)) /\
  (History.canUndo s = true ->
   History.historyIndex s < History.len (History.history s) ->
   snd (History.redo (snd (History.undo s))) = s /\
   fst (History.redo (snd (History.undo s))) = fst (History.undo s)).
Proof.
  unfold History.canRedo, History.canUndo. split.
  - intros Hr Hge.
    destruct (Z.ltb_spec (History.historyIndex s)
                (History.len (History.history s) - 1)) as [Hlt|]; [|discriminate].
    assert (E : History.redo s
                = (History.index (History.history s) (History.historyIndex s + 1),
                   History.set_historyIndex s (History.historyIndex s + 1))).
    { unfold History.redo.
      destruct (Z.geb_spec (History.historyIndex s)
                  (History.len (History.history s) - 1)); [lia|reflexivity]. }
    rewrite E. cbn [fst snd]. unfold History.undo.
    cbn [History.historyIndex History.history History.set_historyIndex
         History.set_history].
    destruct (Z.ltb_spec (History.historyIndex s + 1) 0); [lia|].
    cbn [fst snd]. split; [|reflexivity].
    rewrite set_historyIndex_twice. apply set_historyIndex_same. lia.
  - intros Hu Hin.
    destruct (Z.geb_spec (History.historyIndex s) 0) as [Hge|]; [|discriminate].
    rewrite (HistoryFacts.undo_moves File s) by lia. cbn [fst snd].
    unfold History.redo.
    cbn [History.historyIndex History.history History.set_historyIndex
         History.set_history].
    destruct (Z.geb_spec (History.historyIndex s - 1)
                (History.len (History.history s) - 1)); [lia|].
    cbn [fst snd]. split.
    + rewrite set_historyIndex_twice. apply set_historyIndex_same. lia.
    + f_equal. lia.
Qed.

(** X22.  The immer-based store and the plain store agree on the history:
    their [undo] and [redo] are the same function, and with the cursor
    between -1 and the last index their [addToHistory] gives the same log
    and the same cursor, although the immer version leaves the cursor
    alone when it drops the oldest entry. *)
Theorem optimized_store_agrees s a :
  OptimizedStore.undo s = History.undo s /\
  OptimizedStore.redo s = History.redo s /\
  (-1 <= History.historyIndex s <= History.len (History.history s) - 1 ->
   OptimizedStore.addToHistory a s = History.addToHistory a s).
Proof.
  split; [|split].
  - unfold OptimizedStore.undo, OptimizedStore.canUndo, History.undo.
    destruct (Z.geb_spec (History.historyIndex s) 0);
      destruct (Z.ltb_spec (History.historyIndex s) 0); try lia; reflexivity.
  - unfold OptimizedStore.redo, OptimizedStore.canRedo, History.redo.
    destruct (Z.ltb_spec (History.historyIndex s)
                (History.len (History.history s) - 1));
      destruct (Z.geb_spec (History.historyIndex s)
                  (History.len (History.history s) - 1)); try lia; reflexivity.
  - intros Hc. unfold OptimizedStore.addToHistory, History.addToHistory.
    destruct (HistoryFacts.slice0_firstn (History.historyIndex s + 1)
                (History.history s)) as [Hsl Hlen]; [lia|].
    assert (Hkeep : (if History.historyIndex s
                        <? History.len (History.history s) - 1
                     then History.slice0 (History.historyIndex s + 1)
                                         (History.history s)
                     else History.history s)
                    = History.slice0 (History.historyIndex s + 1)
                                     (History.history s)).
    { destruct (Z.ltb_spec (History.historyIndex s)
                  (History.len (History.history s) - 1)); [reflexivity|].
      rewrite Hsl.
      replace (Z.to_nat (History.historyIndex s + 1))
        with (List.length (History.history s))
        by (unfold History.len in *; lia).
      now rewrite firstn_all. }
    rewrite Hkeep.
    set (kept := History.slice0 (History.historyIndex s + 1) (History.history s))
      in *.
    unfold History.push.
    pose proof (HistoryFacts.len_app kept [a]) as Hka.
    change (History.len [a]) with 1 in Hka.
    destruct (History.len (kept ++ [a])%list
              >? History.maxHistorySteps (History.settings s)); [|reflexivity].
    f_equal. unfold History.shift.
    rewrite HistoryFacts.len_tl by (destruct kept; discriminate). lia.
Qed.
End Extras.

Import HistoryScenarios.

(** X19 on the store whose depth bound was lowered under a log of three
    actions. *)
Lemma cursor_stays_in_range_witness :
  -1 <= History.historyIndex abc_lowered
  < History.len (History.history abc_lowered).
Proof.
  apply (cursor_stays_in_range unit abc_lowered).
  exact HistoryProps.abc_lowered_reachable.
Defined.

(** X20 on the log [a, b, c] with the cursor on c. *)
Lemma can_undo_redo_exact_witness :
  (exists a, fst (History.undo abc) = History.RAction a) /\
  History.redo abc = (History.RNull, abc).
Proof.
  destruct (can_undo_redo_exact unit abc) as [Hu [_ [_ Hr]]].
  - vm_compute. split; [discriminate|reflexivity].
  - split; [apply Hu; reflexivity|apply Hr; reflexivity].
Defined.

(** X21 on the log [a, b, c] with the cursor on b. *)
Lemma undo_redo_inverse_witness :
  snd (History.undo (snd (History.redo (snd (History.undo abc)))))
  = snd (History.undo abc) /\
  snd (History.redo (snd (History.undo abc))) = abc.
Proof.
  destruct (undo_redo_inverse unit (snd (History.undo abc))) as [Hr _].
  destruct (undo_redo_inverse unit abc) as [_ Hu].
  destruct Hr as [Hr1 _]; [reflexivity|vm_compute; discriminate|].
  destruct Hu as [Hu1 _]; [reflexivity|reflexivity|].
  split; [exact Hr1|exact Hu1].
Defined.

(** X22 on the full log [a, b] of depth 2: both stores give [b, c]. *)
Lemma optimized_store_agrees_witness :
  OptimizedStore.addToHistory (act "c") depth2_ab
  = History.addToHistory (act "c") depth2_ab /\
  History.history (OptimizedStore.addToHistory (act "c") depth2_ab)
  = [act "b"; act "c"].
Proof.
  destruct (optimized_store_agrees unit depth2_ab (act "c")) as [_ [_ H]].
  split.
  - apply H. vm_compute. split; discriminate.
  - rewrite H; [reflexivity|]. vm_compute. split; discriminate.
Defined.
End HistoryExtras.

(** * Properties of the text box actions of the store *)

Module ProjectExtras.
Section Extras.
Variable File : Type.
Variable Number_toString : Z -> string.

#[local] Abbreviation State := (History.AppState File).
#[local] Abbreviation Page := (History.MangaPage File).
Implicit Types (s : State) (ps : list Page) (bs : list History.TextBox).

(** *** Searching after a page-wise rewrite *)

Lemma find_on_page ps pageId f pid :
  find (fun p : Page => String.eqb (History.page_id p) pid)
       (Project.on_page pageId f ps)
  = option_map
      (fun page : Page =>
         if String.eqb (History.page_id page) pageId
         then Project.with_textBoxes page (f (History.textBoxes page))
         else page)
      (find (fun p : Page => String.eqb (History.page_id p) pid) ps).
Proof.
  unfold Project.on_page.
  induction ps as [|p ps IH]; [reflexivity|]. cbn [List.map find].
  destruct (String.eqb (History.page_id p) pageId) eqn:E1;
    cbn [History.page_id Project.with_textBoxes];
    destruct (String.eqb (History.page_id p) pid); cbn [option_map];
    rewrite ?E1; auto.
Qed.

Lemma findTextBox_other_page ps pageId f pid bid :
  pid <> pageId ->
  Project.findTextBox (Project.on_page pageId f ps) pid bid
  = Project.findTextBox ps pid bid.
Proof.
  intros Hne. unfold Project.findTextBox. rewrite find_on_page.
  destruct (find _ ps) as [page|] eqn:E; [|reflexivity]. cbn [option_map].
  apply find_some in E. destruct E as [_ E]. apply String.eqb_eq in E.
  destruct (String.eqb_spec (History.page_id page) pageId); [congruence|reflexivity].
Qed.

Lemma findTextBox_same_page ps pageId f bid :
  Project.findTextBox (Project.on_page pageId f ps) pageId bid
  = match find (fun p : Page => String.eqb (History.page_id p) pageId) ps with
    | Some page =>
        find (fun tb => String.eqb (History.tb_id tb) bid)
             (f (History.textBoxes page))
    | None => None
    end.
Proof.
  unfold Project.findTextBox. rewrite find_on_page.
  destruct (find _ ps) as [page|] eqn:E; [|reflexivity]. cbn [option_map].
  apply find_some in E. destruct E as [_ E]. rewrite E. reflexivity.
Qed.

Lemma find_map_same_id bs (g : History.TextBox -> History.TextBox) bid :
  (forall b, History.tb_id (g b) = History.tb_id b) ->
  find (fun tb => String.eqb (History.tb_id tb) bid) (List.map g bs)
  = option_map g (find (fun tb => String.eqb (History.tb_id tb) bid) bs).
Proof.
  intros Hg. induction bs as [|b bs IH]; [reflexivity|]. cbn [List.map find].
  rewrite Hg. destruct (String.eqb (History.tb_id b) bid); [reflexivity|exact IH].
Qed.

Lemma find_filter_other_id bs tid bid :
  find (fun tb => String.eqb (History.tb_id tb) bid)
       (filter (fun tb => negb (String.eqb (History.tb_id tb) tid)) bs)
  = if String.eqb bid tid then None
    else find (fun tb => String.eqb (History.tb_id tb) bid) bs.
Proof.
  induction bs as [|b bs IH]; [now destruct (String.eqb bid tid)|].
  cbn [filter find].
  destruct (String.eqb_spec (History.tb_id b) tid) as [Ht|Ht]; cbn [negb find].
  - rewrite IH. destruct (String.eqb_spec bid tid) as [Heq|Hne]; [reflexivity|].
    destruct (String.eqb_spec (History.tb_id b) bid); [congruence|reflexivity].
  - rewrite IH. destruct (String.eqb_spec (History.tb_id b) bid) as [Hb|Hb];
      [|reflexivity].
    destruct (String.eqb_spec bid tid); [congruence|reflexivity].
Qed.

Lemma find_snoc bs (b : History.TextBox) bid :
  find (fun tb => String.eqb (History.tb_id tb) bid) (bs ++ [b])%list
  = match find (fun tb => String.eqb (History.tb_id tb) bid) bs with
    | Some y => Some y
    | None => if String.eqb (History.tb_id b) bid then Some b else None
    end.
Proof.
  induction bs as [|b0 bs IH]; [reflexivity|]. cbn [app find].
  destruct (String.eqb (History.tb_id b0) bid); [reflexivity|exact IH].
Qed.

Lemma on_page_no_match ps pageId f :
  find (fun p : Page => String.eqb (History.page_id p) pageId) ps = None ->
  Project.on_page pageId f ps = ps.
Proof.
  unfold Project.on_page. induction ps as [|p ps IH]; [reflexivity|].
  cbn [find List.map].
  destruct (String.eqb (History.page_id p) pageId); [discriminate|].
  intros H. now rewrite IH.
Qed.

(** With a depth bound of at least one, [undo] right after [addToHistory]
    returns the action just added. *)
Lemma undo_after_add (a : History.EditAction) s :
  1 <= History.maxHistorySteps (History.settings s) ->
  fst (History.undo (History.addToHistory a s)) = History.RAction a.
Proof.
  intros Hmax.
  destruct (HistoryFacts.addToHistory_last File a s Hmax) as [pre [Hh Hi]].
  pose proof (HistoryFacts.len_nonneg pre).
  rewrite HistoryFacts.undo_moves by lia. cbn [fst].
  rewrite Hh, Hi. apply HistoryFacts.index_last.
Qed.

Definition pages_of (s : State) : list Page :=
  match History.project s with
  | Some proj => History.pages proj
  | None => []
  end.

(** X23.  [updateTextBox]: without a project, or when the page or the box
    is not found, the store is left as it is and nothing is recorded.
    When the box is found and the update does not change its id, the box
    found under that page and id afterwards is the old one overlaid with
    the update, every other lookup answers as before, and (with a depth
    bound of at least one) the next [undo] returns an edit action carrying
    the old box as [before] and the new one as [after]. *)
Theorem updateTextBox_spec t1 t2 t3 pageId textBoxId updates s :
  (Project.findTextBox (pages_of s) pageId textBoxId = None ->
   Project.updateTextBox Number_toString t1 t2 t3 pageId textBoxId updates s = s) /\
  (forall old,
     Project.findTextBox (pages_of s) pageId textBoxId = Some old ->
     History.o_id updates = None ->
     let s' := Project.updateTextBox Number_toString t1 t2 t3
                                     pageId textBoxId updates s in
     Project.findTextBox (pages_of s') pageId textBoxId
     = Some (Project.merge old updates) /\
     (forall pid bid, pid <> pageId \/ bid <> textBoxId ->
        Project.findTextBox (pages_of s') pid bid
        = Project.findTextBox (pages_of s) pid bid) /\
     (1 <= History.maxHistorySteps (History.settings s) ->
      fst (History.undo s')
      = History.RAction
          (Project.action Number_toString t2 t3 History.Edit pageId textBoxId
             (Project.whole old) (Project.whole (Project.merge old updates))
             "Edited text box"))).
Proof.
  unfold pages_of, Project.updateTextBox.
  destruct (History.project s) as [proj|] eqn:Hp.
  2:{ split; [reflexivity|]. intros old H. discriminate. }
  split.
  - intros Hnone. now rewrite Hnone.
  - intros old Hold Hid. cbv zeta. rewrite Hold.
    set (new := Project.merge old updates).
    set (repl := fun textBox =>
                   if String.eqb (History.tb_id textBox) textBoxId
                   then new else textBox).
    assert (Hold_id : History.tb_id old = textBoxId).
    { unfold Project.findTextBox in Hold.
      destruct (find _ (History.pages proj)) as [page|]; [|discriminate].
      apply find_some in Hold. now apply String.eqb_eq. }
    assert (Hnew_id : History.tb_id new = textBoxId).
    { unfold new, Project.merge. cbn [History.tb_id]. now rewrite Hid. }
    assert (Hrepl : forall b, History.tb_id (repl b) = History.tb_id b).
    { intros b. unfold repl.
      destruct (String.eqb_spec (History.tb_id b) textBoxId); congruence. }
    destruct (HistoryFacts.addToHistory_fields File
                (Project.action Number_toString t2 t3 History.Edit pageId
                   textBoxId (Project.whole old) (Project.whole new)
                   "Edited text box")
                (Project.set_project_fields s
                   (Some (Project.with_pages proj
                            (Project.on_page pageId (List.map repl)
                                             (History.pages proj)) t1))
                   (History.currentPageIndex s) (History.selectedTextBox s)))
      as [_ [_ [_ Hproj]]].
    rewrite Hproj. cbn [History.project Project.set_project_fields
                        History.pages Project.with_pages].
    split; [|split].
    + rewrite findTextBox_same_page.
      unfold Project.findTextBox in Hold.
      destruct (find _ (History.pages proj)) as [page|]; [|discriminate].
      rewrite (find_map_same_id _ repl _ Hrepl), Hold. cbn [option_map].
      unfold repl. rewrite Hold_id, String.eqb_refl. reflexivity.
    + intros pid bid Hother.
      destruct (String.eqb_spec pid pageId) as [->|Hpid];
        [|now apply findTextBox_other_page].
      destruct Hother as [Hc|Hbid]; [congruence|].
      rewrite findTextBox_same_page. unfold Project.findTextBox.
      destruct (find _ (History.pages proj)) as [page|]; [|reflexivity].
      rewrite (find_map_same_id _ repl _ Hrepl).
      destruct (find _ (History.textBoxes page)) as [b|] eqn:Eb; [|reflexivity].
      cbn [option_map]. apply find_some in Eb. destruct Eb as [_ Eb].
      apply String.eqb_eq in Eb. unfold repl.
      destruct (String.eqb_spec (History.tb_id b) textBoxId); [congruence|reflexivity].
    + intros Hmax. now apply undo_after_add.
Qed.

(** X24.  [deleteTextBox]: when the box is not found the store is left as
    it is.  When it is found, no box is found under that page and id
    afterwards, every other lookup answers as before, the selection is
    cleared, and (with a depth bound of at least one) the next [undo]
    returns a delete action carrying the removed box as [before]. *)
Theorem deleteTextBox_spec t1 t2 t3 pageId textBoxId s :
  (Project.findTextBox (pages_of s) pageId textBoxId = None ->
   Project.deleteTextBox Number_toString t1 t2 t3 pageId textBoxId s = s) /\
  (forall box,
     Project.findTextBox (pages_of s) pageId textBoxId = Some box ->
     let s' := Project.deleteTextBox Number_toString t1 t2 t3
                                     pageId textBoxId s in
     Project.findTextBox (pages_of s') pageId textBoxId = None /\
     (forall pid bid, pid <> pageId \/ bid <> textBoxId ->
        Project.findTextBox (pages_of s') pid bid
        = Project.findTextBox (pages_of s) pid bid) /\
     History.selectedTextBox s' = None /\
     (1 <= History.maxHistorySteps (History.settings s) ->
      fst (History.undo s')
      = History.RAction
          (Project.action Number_toString t2 t3 History.Delete pageId textBoxId
             (Project.whole box) Project.no_fields "Deleted text box"))).
Proof.
  unfold pages_of, Project.deleteTextBox.
  destruct (History.project s) as [proj|] eqn:Hp.
  2:{ split; [reflexivity|]. intros box H. discriminate. }
  split.
  - intros Hnone. now rewrite Hnone.
  - intros box Hbox. cbv zeta. rewrite Hbox.
    set (keep := filter (fun tb => negb (String.eqb (History.tb_id tb) textBoxId))).
    destruct (HistoryFacts.addToHistory_fields File
                (Project.action Number_toString t2 t3 History.Delete pageId
                   textBoxId (Project.whole box) Project.no_fields
                   "Deleted text box")
                (Project.set_project_fields s
                   (Some (Project.with_pages proj
                            (Project.on_page pageId keep (History.pages proj)) t1))
                   (History.currentPageIndex s) None))
      as [_ [_ [_ Hproj]]].
    rewrite Hproj. cbn [History.project Project.set_project_fields
                        History.pages Project.with_pages].
    split; [|split; [|split]].
    + rewrite findTextBox_same_page.
      destruct (find _ (History.pages proj)) as [page|]; [|reflexivity].
      unfold keep. rewrite find_filter_other_id. now rewrite String.eqb_refl.
    + intros pid bid Hother.
      destruct (String.eqb_spec pid pageId) as [->|Hpid];
        [|now apply findTextBox_other_page].
      destruct Hother as [Hc|Hbid]; [congruence|].
      rewrite findTextBox_same_page. unfold Project.findTextBox.
      destruct (find _ (History.pages proj)) as [page|]; [|reflexivity].
      unfold keep. rewrite find_filter_other_id.
      destruct (String.eqb_spec bid textBoxId); [congruence|reflexivity].
    + reflexivity.
    + intros Hmax. now apply undo_after_add.
Qed.

(** X25.  [addTextBox] with a project loaded: the box is appended to the
    page, so a lookup under the page and the box's id finds the box that
    was already there under that id, if any, and the new box otherwise
    (provided the page exists); every other lookup answers as before.  The
    add action is recorded even when no page has the given id, in which
    case the pages are unchanged. *)
Theorem addTextBox_spec t1 t2 t3 pageId (box : History.TextBox) s proj :
  History.project s = Some proj ->
  let s' := Project.addTextBox Number_toString t1 t2 t3 pageId box s in
  (forall page,
     find (fun p : Page => String.eqb (History.page_id p) pageId)
          (History.pages proj) = Some page ->
     Project.findTextBox (pages_of s') pageId (History.tb_id box)
     = match Project.findTextBox (pages_of s) pageId (History.tb_id box) with
       | Some earlier => Some earlier
       | None => Some box
       end) /\
  (forall pid bid, pid <> pageId \/ bid <> History.tb_id box ->
     Project.findTextBox (pages_of s') pid bid
     = Project.findTextBox (pages_of s) pid bid) /\
  (find (fun p : Page => String.eqb (History.page_id p) pageId)
        (History.pages proj) = None ->
   pages_of s' = pages_of s) /\
  (1 <= History.maxHistorySteps (History.settings s) ->
   fst (History.undo s')
   = History.RAction
       (Project.action Number_toString t2 t3 History.Add pageId
          (History.tb_id box) Project.no_fields (Project.whole box)
          "Added text box")).
Proof.
  intros Hp. cbv zeta. unfold pages_of, Project.addTextBox. rewrite Hp.
  set (snoc := fun bs : list History.TextBox => (bs ++ [box])%list).
  destruct (HistoryFacts.addToHistory_fields File
              (Project.action Number_toString t2 t3 History.Add pageId
                 (History.tb_id box) Project.no_fields (Project.whole box)
                 "Added text box")
              (Project.set_project_fields s
                 (Some (Project.with_pages proj
                          (Project.on_page pageId snoc (History.pages proj)) t1))
                 (History.currentPageIndex s) (History.selectedTextBox s)))
    as [_ [_ [_ Hproj]]].
  rewrite Hproj. cbn [History.project Project.set_project_fields
                      History.pages Project.with_pages].
  split; [|split; [|split]].
  - intros page Hpage. rewrite findTextBox_same_page.
    unfold Project.findTextBox. rewrite Hpage. unfold snoc. rewrite find_snoc.
    now rewrite String.eqb_refl.
  - intros pid bid Hother.
    destruct (String.eqb_spec pid pageId) as [->|Hpid];
      [|now apply findTextBox_other_page].
    destruct Hother as [Hc|Hbid]; [congruence|].
    rewrite findTextBox_same_page. unfold Project.findTextBox.
    destruct (find _ (History.pages proj)) as [page|]; [|reflexivity].
    unfold snoc. rewrite find_snoc.
    destruct (find _ (History.textBoxes page)); [reflexivity|].
    destruct (String.eqb_spec (History.tb_id box) bid); [congruence|reflexivity].
  - intros Hnone. now apply on_page_no_match.
  - intros Hmax. now apply undo_after_add.
Qed.

Lemma with_textBoxes_same (page : Page) :
  Project.with_textBoxes page (History.textBoxes page) = page.
Proof. now destruct page. Qed.

Lemma on_page_add_then_remove ps pageId (box : History.TextBox) :
  (forall page b,
     In page ps -> History.page_id page = pageId ->
     In b (History.textBoxes page) -> History.tb_id b <> History.tb_id box) ->
  Project.on_page pageId
    (filter (fun tb => negb (String.eqb (History.tb_id tb) (History.tb_id box))))
    (Project.on_page pageId (fun bs => (bs ++ [box])%list) ps)
  = ps.
Proof.
  unfold Project.on_page. rewrite map_map.
  induction ps as [|page ps IH]; intros Hfresh; [reflexivity|].
  cbn [List.map]. f_equal.
  - destruct (String.eqb_spec (History.page_id page) pageId) as [Hid|Hid].
    + cbn [History.page_id Project.with_textBoxes History.textBoxes].
      destruct (String.eqb_spec (History.page_id page) pageId); [|contradiction].
      rewrite filter_app. cbn [filter]. rewrite String.eqb_refl. cbn [negb].
      rewrite app_nil_r, forallb_filter_id.
      * now destruct page.
      * apply forallb_forall. intros b Hb.
        destruct (String.eqb_spec (History.tb_id b) (History.tb_id box));
          [|reflexivity].
        exfalso. apply (Hfresh page b); auto. now left.
    + destruct (String.eqb_spec (History.page_id page) pageId);
        [contradiction|reflexivity].
  - apply IH. intros p b HI. apply Hfresh. now right.
Qed.

(** X26.  Adding a box and deleting it again restores the pages: if no page
    with the given id holds a box with the id of the new box, the list of
    pages after [addTextBox] followed by [deleteTextBox] is the list before
    (only [lastModified] and the history have moved on). *)
Theorem add_then_delete_restores_pages t1 t2 t3 t4 t5 t6 pageId
        (box : History.TextBox) s proj :
  History.project s = Some proj ->
  (forall page b,
     In page (History.pages proj) -> History.page_id page = pageId ->
     In b (History.textBoxes page) -> History.tb_id b <> History.tb_id box) ->
  pages_of
    (Project.deleteTextBox Number_toString t4 t5 t6 pageId (History.tb_id box)
       (Project.addTextBox Number_toString t1 t2 t3 pageId box s))
  = History.pages proj.
Proof.
  intros Hp Hfresh.
  set (s1 := Project.addTextBox Number_toString t1 t2 t3 pageId box s).
  set (snoc := fun bs : list History.TextBox => (bs ++ [box])%list).
  set (keep := filter (fun tb => negb (String.eqb (History.tb_id tb)
                                                  (History.tb_id box)))).
  assert (Hp1 : History.project s1
                = Some (Project.with_pages proj
                          (Project.on_page pageId snoc (History.pages proj)) t1)).
  { unfold s1, Project.addTextBox. rewrite Hp. reflexivity. }
  assert (Hback : Project.on_page pageId keep
                    (Project.on_page pageId snoc (History.pages proj))
                  = History.pages proj)
    by now apply on_page_add_then_remove.
  unfold pages_of, Project.deleteTextBox. rewrite Hp1.
  cbn [History.pages Project.with_pages].
  destruct (Project.findTextBox _ pageId (History.tb_id box)) as [found|] eqn:Hf.
  - exact Hback.
  - rewrite Hp1. cbn [History.pages Project.with_pages].
    rewrite findTextBox_same_page in Hf.
    destruct (find (fun p : Page => String.eqb (History.page_id p) pageId)
                   (History.pages proj)) as [page|] eqn:Epage.
    + unfold snoc in Hf. rewrite find_snoc, String.eqb_refl in Hf.
      destruct (find _ (History.textBoxes page)); discriminate.
    + now apply on_page_no_match.
Qed.
End Extras.

Import ExtraScenarios.

(** X23 on the loaded project: the text of tb-1 becomes b; an update of a
    box that does not exist changes nothing. *)
Lemma updateTextBox_spec_witness :
  Project.findTextBox
    (pages_of unit (Project.updateTextBox show 1 2 3 "page-1" "tb-1"
                                          (new_text "b") loaded))
    "page-1" "tb-1"
  = Some (Project.merge (box "tb-1" "a") (new_text "b")) /\
  Project.updateTextBox show 1 2 3 "page-1" "tb-9" (new_text "b") loaded = loaded.
Proof.
  destruct (updateTextBox_spec unit show 1 2 3 "page-1" "tb-1" (new_text "b") loaded)
    as [_ H].
  destruct (H (box "tb-1" "a") eq_refl eq_refl) as [H1 _].
  destruct (updateTextBox_spec unit show 1 2 3 "page-1" "tb-9" (new_text "b") loaded)
    as [H9 _].
  split; [exact H1|apply H9; reflexivity].
Defined.

(** X24 on the loaded project: tb-1 is gone after its deletion and the
    next [undo] hands it back. *)
Lemma deleteTextBox_spec_witness :
  Project.findTextBox
    (pages_of unit (Project.deleteTextBox show 1 2 3 "page-1" "tb-1" loaded))
    "page-1" "tb-1" = None /\
  fst (History.undo (Project.deleteTextBox show 1 2 3 "page-1" "tb-1" loaded))
  = History.RAction
      (Project.action show 2 3 History.Delete "page-1" "tb-1"
         (Project.whole (box "tb-1" "a")) Project.no_fields "Deleted text box").
Proof.
  destruct (deleteTextBox_spec unit show 1 2 3 "page-1" "tb-1" loaded) as [_ H].
  destruct (H (box "tb-1" "a") eq_refl) as [H1 [_ [_ H4]]].
  split; [exact H1|apply H4; vm_compute; discriminate].
Defined.

(** X25 on the loaded project: a box added to page-1 is found there, and a
    box added to a page that does not exist changes no page. *)
Lemma addTextBox_spec_witness :
  Project.findTextBox
    (pages_of unit (Project.addTextBox show 1 2 3 "page-1" (box "tb-2" "c") loaded))
    "page-1" "tb-2" = Some (box "tb-2" "c") /\
  pages_of unit (Project.addTextBox show 1 2 3 "page-9" (box "tb-2" "c") loaded)
  = pages_of unit loaded.
Proof.
  pose proof (addTextBox_spec unit show 1 2 3 "page-1" (box "tb-2" "c") loaded
                project1 eq_refl) as H1.
  pose proof (addTextBox_spec unit show 1 2 3 "page-9" (box "tb-2" "c") loaded
                project1 eq_refl) as H9.
  cbv zeta in H1, H9.
  destruct H1 as [H1 _]. destruct H9 as [_ [_ [H9 _]]].
  split; [exact (H1 page1 eq_refl)|apply H9; reflexivity].
Defined.

(** X26 on the loaded project: tb-2 added and deleted again. *)
Lemma add_then_delete_restores_pages_witness :
  pages_of unit
    (Project.deleteTextBox show 4 5 6 "page-1" "tb-2"
       (Project.addTextBox show 1 2 3 "page-1" (box "tb-2" "c") loaded))
  = [page1].
Proof.
  apply (add_then_delete_restores_pages unit show 1 2 3 4 5 6 "page-1"
           (box "tb-2" "c") loaded project1 eq_refl).
  intros page b [<-|[]] _ [<-|[]]. discriminate.
Defined.
End ProjectExtras.
